(** * usconstitution.app: the content generator and the client-side filter

    A shallow embedding of [scripts/build-content.mjs] (the build-time
    generator) and of the filter logic and the view controls of
    [src/app.js], with the properties the specification states about them
    and further properties of the code around them.

    Conventions.
    - A JavaScript string is the list of its UTF-16 code units ([list N]);
      [js "..."] writes an ASCII literal of the source.
    - A JavaScript number is [number]: NaN, the two infinities, or a finite
      value kept as the rational it denotes.  Only comparisons and the sign
      of a difference are observed by the code embedded here, and IEEE-754
      rounding preserves both; the two zeros are one value.
    - [null] and [undefined] are [None]; a function that may throw returns
      a [result].
    - What the host provides and the repository does not define
      ([Number] on strings, [String] on numbers, [toLowerCase]) is the
      [Platform] interface. *)

From Stdlib Require Import ZArith NArith QArith Qcanon String Ascii List Lia DecimalString.
From stdpp Require Import base list gmap sorting.

Set Default Proof Using "Type".
Set Warnings "-register-all".
Local Open Scope N_scope.

(** ** JavaScript strings *)

Abbreviation jsstring := (list N).

Definition js (s : string) : jsstring := N_of_ascii <$> list_ascii_of_string s.

(** A literal of the source that holds double quotes, written here with a
    single quote in the place of each of them (no such literal of the source
    holds a single quote). *)
Definition html (s : string) : jsstring :=
  (λ c, if c =? 39 then 34 else c) <$> js s.

(** The line feed. *)
Definition LF : jsstring := [10].

Module JSString.

(** [hay.startsWith(needle)] *)
Fixpoint startsWith (needle hay : jsstring) : bool :=
  match needle, hay with
  | [], _ => true
  | _ :: _, [] => false
  | c :: needle', d :: hay' => bool_decide (c = d) && startsWith needle' hay'
  end.

(** [hay.includes(needle)]: [needle] occurs in [hay] as a contiguous run. *)
Fixpoint includes (hay needle : jsstring) : bool :=
  startsWith needle hay ||
  match hay with
  | [] => false
  | _ :: hay' => includes hay' needle
  end.

(** [parts.join(sep)] *)
Fixpoint join (sep : jsstring) (parts : list jsstring) : jsstring :=
  match parts with
  | [] => []
  | [p] => p
  | p :: rest => p ++ sep ++ join sep rest
  end.

(** WhiteSpace and LineTerminator code units, as [String.prototype.trim]
    strips them: TAB, LF, VT, FF, CR, SP, NBSP, the category Zs, LS, PS
    and the byte order mark. *)
Definition isWhiteSpace (c : N) : bool :=
  (9 <=? c) && (c <=? 13) || (c =? 32) || (c =? 160) || (c =? 5760) ||
  (8192 <=? c) && (c <=? 8202) || (c =? 8232) || (c =? 8233) ||
  (c =? 8239) || (c =? 8287) || (c =? 12288) || (c =? 65279).

Fixpoint trimStart (s : jsstring) : jsstring :=
  match s with
  | c :: s' => if isWhiteSpace c then trimStart s' else s
  | [] => []
  end.

Definition trimEnd (s : jsstring) : jsstring := reverse (trimStart (reverse s)).

Definition trim (s : jsstring) : jsstring := trimEnd (trimStart s).

(** [s.replace(/c/g, repl)] for a one-character pattern [c] and a
    replacement text without [$]. *)
Fixpoint replaceAll (c : N) (repl : jsstring) (s : jsstring) : jsstring :=
  match s with
  | [] => []
  | d :: s' => (if bool_decide (d = c) then repl else [d]) ++ replaceAll c repl s'
  end.

Definition isDigit (c : N) : bool := (48 <=? c) && (c <=? 57).

(** The longest run of decimal digits at the head of [s], and what follows. *)
Fixpoint spanDigits (s : jsstring) : jsstring * jsstring :=
  match s with
  | c :: s' =>
      if isDigit c then let '(ds, rest) := spanDigits s' in (c :: ds, rest)
      else ([], s)
  | [] => ([], [])
  end.

Fixpoint stripPrefix (p s : jsstring) : option jsstring :=
  match p, s with
  | [], _ => Some s
  | _ :: _, [] => None
  | c :: p', d :: s' => if bool_decide (c = d) then stripPrefix p' s' else None
  end.

End JSString.

(** ** JavaScript numbers *)

Inductive number :=
| NaN
| NegInfinity
| Finite (q : Qc)
| PosInfinity.

Global Instance number_eq_dec : EqDecision number.
Proof. solve_decision. Defined.

Module JSNumber.

Definition ofZ (z : Z) : number := Finite (Q2Qc (inject_Z z)).

Definition isNaN (n : number) : bool :=
  match n with NaN => true | _ => false end.

(** [a - b] *)
Definition sub (a b : number) : number :=
  match a, b with
  | NaN, _ | _, NaN => NaN
  | PosInfinity, PosInfinity | NegInfinity, NegInfinity => NaN
  | PosInfinity, _ | _, NegInfinity => PosInfinity
  | NegInfinity, _ | _, PosInfinity => NegInfinity
  | Finite x, Finite y => Finite (x - y)%Qc
  end.

(** [a < b]; false as soon as one side is NaN. *)
Definition ltb (a b : number) : bool :=
  match a, b with
  | NaN, _ | _, NaN => false
  | _, NegInfinity | PosInfinity, _ => false
  | NegInfinity, _ | _, PosInfinity => true
  | Finite x, Finite y => bool_decide (x < y)%Qc
  end.

(** [a === b] on numbers; NaN differs from itself. *)
Definition strictEq (a b : number) : bool :=
  match a, b with
  | NaN, _ | _, NaN => false
  | _, _ => bool_decide (a = b)
  end.

(** [a <= b] *)
Definition leb (a b : number) : bool := ltb a b || strictEq a b.

Definition zero : number := ofZ 0.

End JSNumber.

(** [+], [Math.min] and [Math.max] on two numbers. *)
Module JSMath.

(** [a + b] *)
Definition add (a b : number) : number :=
  match a, b with
  | NaN, _ | _, NaN => NaN
  | PosInfinity, NegInfinity | NegInfinity, PosInfinity => NaN
  | PosInfinity, _ | _, PosInfinity => PosInfinity
  | NegInfinity, _ | _, NegInfinity => NegInfinity
  | Finite x, Finite y => Finite (x + y)%Qc
  end.

(** [Math.max(a, b)]: NaN as soon as one argument is. *)
Definition max (a b : number) : number :=
  if JSNumber.isNaN a || JSNumber.isNaN b then NaN
  else if JSNumber.ltb a b then b else a.

(** [Math.min(a, b)] *)
Definition min (a b : number) : number :=
  if JSNumber.isNaN a || JSNumber.isNaN b then NaN
  else if JSNumber.ltb b a then b else a.

End JSMath.

(** ** Arrays and sets of the host *)

Module JSArray.

Section Sort.
Context {A : Type} (comparefn : A → A → number).

(** [Array.prototype.sort(comparefn)].  The algorithm is the engine's, but
    the sort is stable and the comparator is only asked for the sign of its
    result (NaN counts as zero), so that with a consistent comparator the
    result is the one of this stable insertion sort. *)
Fixpoint insert (x : A) (l : list A) : list A :=
  match l with
  | [] => [x]
  | y :: l' =>
      if JSNumber.ltb JSNumber.zero (comparefn x y)
      then y :: insert x l'
      else x :: l
  end.

Fixpoint sort (l : list A) : list A :=
  match l with
  | [] => []
  | x :: l' => insert x (sort l')
  end.

End Sort.

(** [set.add(x)] on a [Set], kept as its elements in insertion order
    without repetition ([SameValueZero] is equality on [number] here, NaN
    included). *)
Definition setAdd {A} `{EqDecision A} (s : list A) (x : A) : list A :=
  if bool_decide (x ∈ s) then s else s ++ [x].

End JSArray.

(** ** Values read from JSON *)

Inductive json :=
| JNull
| JBool (b : bool)
| JNum (n : number)
| JStr (s : jsstring)
| JArr (items : list json)
| JObj (props : list (jsstring * json)).

(** What the host provides. *)
Class Platform := {
  (** [Number(s)] on a string (StringToNumber) *)
  StringToNumber : jsstring → number;
  (** [String(n)] on a number (Number::toString) *)
  NumberToString : number → jsstring;
  (** [s.toLowerCase()] *)
  toLowerCase : jsstring → jsstring;
}.

(** Throwing functions. *)
Inductive result (E A : Type) :=
| Ok (a : A)
| Throw (e : E).
Arguments Ok {E A} a.
Arguments Throw {E A} e.

Module JSValue.
Section WithPlatform.
Context `{Platform}.

(** [obj.key]: the property, or [undefined]. *)
Fixpoint getProp (props : list (jsstring * json)) (key : jsstring) : option json :=
  match props with
  | [] => None
  | (k, v) :: props' => if bool_decide (k = key) then Some v else getProp props' key
  end.

(** [entry.key] on a value that passed the object test: an array read from
    JSON has none of the keys the generator asks for. *)
Definition get (v : json) (key : jsstring) : option json :=
  match v with
  | JObj props => getProp props key
  | _ => None
  end.

(** [String(v)] *)
Fixpoint toString (v : json) : jsstring :=
  match v with
  | JNull => js "null"
  | JBool true => js "true"
  | JBool false => js "false"
  | JNum n => NumberToString n
  | JStr s => s
  | JArr items =>
      JSString.join (js ",")
        (map (λ item, match item with JNull => [] | _ => toString item end) items)
  | JObj _ => js "[object Object]"
  end.

(** [Number(v)], [undefined] included. *)
Definition toNumber (v : option json) : number :=
  match v with
  | None => NaN
  | Some JNull => JSNumber.zero
  | Some (JBool true) => JSNumber.ofZ 1
  | Some (JBool false) => JSNumber.zero
  | Some (JNum n) => n
  | Some (JStr s) => StringToNumber s
  | Some (JArr items) => StringToNumber (toString (JArr items))
  | Some (JObj _) => NaN
  end.

(** [String(v ?? "")] *)
Definition stringOrEmpty (v : option json) : jsstring :=
  match v with
  | None | Some JNull => []
  | Some v => toString v
  end.

(** [!v || typeof v !== "object"] *)
Definition notAnObject (v : json) : bool :=
  match v with
  | JArr _ | JObj _ => false
  | _ => true
  end.

(** The text of a number or [null] inside a template literal. *)
Definition showNullable (n : option number) : jsstring :=
  match n with
  | Some n => NumberToString n
  | None => js "null"
  end.

End WithPlatform.
End JSValue.

(** ** The generator, [scripts/build-content.mjs] *)

Module Build.

Record NormalizedEntry := {
  id : jsstring;
  part : jsstring;
  type : jsstring;
  article : option number;
  section : option number;
  clause : option number;
  subclause : option number;
  amendmentNumber : option number;
  isRepealed : bool;
  text : jsstring;
  searchTags : list jsstring;
  position : number;
  title : jsstring;
  ratifiedOn : option jsstring;
  effectiveOn : option jsstring;
  proposedOn : option jsstring;
  repealedOn : option jsstring;
  searchable : jsstring;
}.

(** The three errors of [normalize]; the last carries the record that the
    message prints. *)
Inductive Error :=
| NotAnArray
| InvalidRecord
| MissingRequiredFields (entry : json).

(** [escapeHtml] *)
Definition escapeHtml (value : jsstring) : jsstring :=
  JSString.replaceAll 39 (js "&#39;")
    (JSString.replaceAll 34 (js "&quot;")
      (JSString.replaceAll 62 (js "&gt;")
        (JSString.replaceAll 60 (js "&lt;")
          (JSString.replaceAll 38 (js "&amp;") value)))).

(** [valueOrNull] *)
Definition valueOrNull (value : option json) : option number :=
  match value with
  | Some (JNum n) => Some n
  | _ => None
  end.

(** [stringOrNull] *)
Definition stringOrNull (value : option json) : option jsstring :=
  match value with
  | Some (JStr (c :: s)) => Some (c :: s)
  | _ => None
  end.

(** [/^amend(\d+)-/.exec(id)]: the first group of the match, if any. *)
Definition execAmend (id : jsstring) : option jsstring :=
  match JSString.stripPrefix (js "amend") id with
  | Some rest =>
      match JSString.spanDigits rest with
      | ((_ :: _) as digits, c :: _) => if c =? 45 then Some digits else None
      | _ => None
      end
  | None => None
  end.

(** [getPart] *)
Definition getPart (id type : jsstring) : jsstring :=
  if bool_decide (type = js "preamble") then js "preamble"
  else if bool_decide (type = js "amendment") || bool_decide (is_Some (execAmend id))
  then js "amendment"
  else js "article".

Section WithPlatform.
Context `{Platform}.

(** [getAmendmentNumber] *)
Definition getAmendmentNumber (id : jsstring) : option number :=
  match execAmend id with
  | Some digits => Some (StringToNumber digits)
  | None => None
  end.

(** The pieces [buildTitle] pushes after the first one. *)
Definition locatorPieces (section clause subclause : option number) : list jsstring :=
  match section with Some n => [js "Section " ++ NumberToString n] | None => [] end ++
  match clause with Some n => [js "Clause " ++ NumberToString n] | None => [] end ++
  match subclause with Some n => [js "Subclause " ++ NumberToString n] | None => [] end.

(** [buildTitle] *)
Definition buildTitle (entry : NormalizedEntry) : jsstring :=
  if bool_decide (part entry = js "preamble") then js "Preamble"
  else
    JSString.join (js ", ")
      ((if bool_decide (part entry = js "article")
        then js "Article " ++ JSValue.showNullable (article entry)
        else js "Amendment " ++ JSValue.showNullable (amendmentNumber entry))
       :: locatorPieces (section entry) (clause entry) (subclause entry)).

(** [normalized.title = buildTitle(normalized)] and the assignment to
    [normalized.searchable] after it. *)
Definition setTitleAndSearchable (normalized : NormalizedEntry) : NormalizedEntry :=
  let title' := buildTitle normalized in
  {|
    id := id normalized;
    part := part normalized;
    type := type normalized;
    article := article normalized;
    section := section normalized;
    clause := clause normalized;
    subclause := subclause normalized;
    amendmentNumber := amendmentNumber normalized;
    isRepealed := isRepealed normalized;
    text := text normalized;
    searchTags := searchTags normalized;
    position := position normalized;
    title := title';
    ratifiedOn := ratifiedOn normalized;
    effectiveOn := effectiveOn normalized;
    proposedOn := proposedOn normalized;
    repealedOn := repealedOn normalized;
    searchable :=
      toLowerCase
        (JSString.join (js " ")
           ([text normalized; id normalized] ++ searchTags normalized ++ [title']));
  |}.

(** [entry.repealedOn !== null && entry.repealedOn !== undefined] *)
Definition isPresent (value : option json) : bool :=
  match value with
  | None | Some JNull => false
  | Some _ => true
  end.

(** The callback of [rawData.map] in [normalize]. *)
Definition normalizeEntry (entry : json) : result Error NormalizedEntry :=
  if JSValue.notAnObject entry then Throw InvalidRecord
  else
    let id' := JSValue.stringOrEmpty (JSValue.get entry (js "id")) in
    let type' := JSValue.stringOrEmpty (JSValue.get entry (js "type")) in
    let text' := JSValue.stringOrEmpty (JSValue.get entry (js "text")) in
    let searchTags' :=
      match JSValue.get entry (js "searchTags") with
      | Some (JArr tags) => map JSValue.toString tags
      | _ => []
      end in
    let position' := JSValue.toNumber (JSValue.get entry (js "position")) in
    if bool_decide (id' = []) || bool_decide (type' = []) || bool_decide (text' = [])
       || JSNumber.isNaN position'
    then Throw (MissingRequiredFields entry)
    else
      Ok (setTitleAndSearchable {|
        id := id';
        part := getPart id' type';
        type := type';
        article := valueOrNull (JSValue.get entry (js "article"));
        section := valueOrNull (JSValue.get entry (js "section"));
        clause := valueOrNull (JSValue.get entry (js "clause"));
        subclause := valueOrNull (JSValue.get entry (js "subclause"));
        amendmentNumber := getAmendmentNumber id';
        ratifiedOn := stringOrNull (JSValue.get entry (js "ratifiedOn"));
        effectiveOn := stringOrNull (JSValue.get entry (js "effectiveOn"));
        proposedOn := stringOrNull (JSValue.get entry (js "proposedOn"));
        repealedOn := stringOrNull (JSValue.get entry (js "repealedOn"));
        isRepealed := isPresent (JSValue.get entry (js "repealedOn"));
        text := text';
        searchTags := searchTags';
        position := position';
        title := [];
        searchable := [];
      |}).

(** [rawData.map(...)]: the records in order, up to the first one whose
    callback throws. *)
Fixpoint mapEntries (records : list json) : result Error (list NormalizedEntry) :=
  match records with
  | [] => Ok []
  | entry :: records' =>
      match normalizeEntry entry with
      | Throw e => Throw e
      | Ok normalized =>
          match mapEntries records' with
          | Throw e => Throw e
          | Ok rest => Ok (normalized :: rest)
          end
      end
  end.

(** [normalize] *)
Definition normalize (rawData : json) : result Error (list NormalizedEntry) :=
  match rawData with
  | JArr records =>
      match mapEntries records with
      | Throw e => Throw e
      | Ok entries =>
          Ok (JSArray.sort (λ a b, JSNumber.sub (position a) (position b)) entries)
      end
  | _ => Throw NotAnArray
  end.

(** *** The table of contents *)

(** What the first loop of [buildToc] leaves in [hasPreamble],
    [articleNumbers] and [amendmentNumbers]. *)
Definition tocScan (entries : list NormalizedEntry) : bool * list number * list number :=
  foldl
    (λ '(hasPreamble, articleNumbers, amendmentNumbers) entry,
       let hasPreamble :=
         if bool_decide (part entry = js "preamble") then true else hasPreamble in
       let articleNumbers :=
         match article entry with
         | Some n =>
             if bool_decide (part entry = js "article")
             then JSArray.setAdd articleNumbers n else articleNumbers
         | None => articleNumbers
         end in
       let amendmentNumbers :=
         match amendmentNumber entry with
         | Some n =>
             if bool_decide (part entry = js "amendment")
             then JSArray.setAdd amendmentNumbers n else amendmentNumbers
         | None => amendmentNumbers
         end in
       (hasPreamble, articleNumbers, amendmentNumbers))
    (false, [], []) entries.








(** *** The block of one entry *)

(** [formatPartLabel] *)
Definition formatPartLabel (entry : NormalizedEntry) : jsstring :=
  if bool_decide (part entry = js "preamble") then js "Preamble"
  else if bool_decide (part entry = js "article") then js "Article"
  else js "Amendment".

(** [buildDetailRows] *)
Definition buildDetailRows (entry : NormalizedEntry) : list (jsstring * jsstring) :=
  let number_row label (value : option number) :=
    match value with Some n => [(js label, NumberToString n)] | None => [] end in
  let string_row label (value : option jsstring) :=
    match value with Some (c :: s) => [(js label, c :: s)] | _ => [] end in
  [(js "Part", formatPartLabel entry)] ++
  number_row "Article"%string (article entry) ++
  number_row "Amendment"%string (amendmentNumber entry) ++
  number_row "Section"%string (section entry) ++
  number_row "Clause"%string (clause entry) ++
  number_row "Subclause"%string (subclause entry) ++
  (if bool_decide (0 < length (searchTags entry))%nat
   then [(js "Search tags", JSString.join (js ", ") (searchTags entry))] else []) ++
  string_row "Ratified"%string (ratifiedOn entry) ++
  string_row "Proposed"%string (proposedOn entry) ++
  string_row "Effective"%string (effectiveOn entry) ++
  string_row "Repealed"%string (repealedOn entry).

(** [buildDetailsHtml] *)
Definition buildDetailsHtml (entry : NormalizedEntry) (entryAnchorId : jsstring) : jsstring :=
  let itemsHtml :=
    JSString.join LF
      (map (λ '(label, value),
              html "      <div class='entry-detail-row'><dt>" ++ escapeHtml label ++
              js "</dt><dd>" ++ escapeHtml value ++ js "</dd></div>")
           (buildDetailRows entry)) in
  JSString.join LF [
    html "  <details class='entry-details'>";
    html "    <summary class='entry-details-toggle' aria-label='Entry details'>i</summary>";
    html "    <dl class='entry-details-list'>";
    html "      <div class='entry-detail-row entry-detail-row-link'><dt>Link</dt><dd><button type='button' class='copy-anchor-button' data-anchor-id='"
      ++ escapeHtml entryAnchorId ++
      html "'>Copy link</button> <a class='entry-anchor-link' href='#"
      ++ escapeHtml entryAnchorId ++ html "'>Open</a></dd></div>";
    itemsHtml;
    js "    </dl>";
    js "  </details>"
  ].

(** The text of an entry as [buildContent] puts it in the page. *)
Definition textHtml (entry : NormalizedEntry) : jsstring :=
  JSString.replaceAll 10 (js "<br>") (escapeHtml (text entry)).

(** What [buildContent] pushes on [blocks] for one entry, after the
    headings. *)
Definition entryBlock (entry : NormalizedEntry) : list jsstring :=
  let escapedId := escapeHtml (id entry) in
  let entryId := js "entry-" ++ escapedId in
  let articleValue :=
    match article entry with None => [] | Some n => NumberToString n end in
  let amendmentValue :=
    match amendmentNumber entry with None => [] | Some n => NumberToString n end in
  let repealedBadge :=
    if isRepealed entry then html "<span class='repealed-badge'>Repealed</span>" else [] in
  let detailsHtml := buildDetailsHtml entry entryId in
  [ html "<article class='entry' id='" ++ entryId ++
      html "' data-entry-id='" ++ escapedId ++
      html "' data-part='" ++ part entry ++
      html "' data-article='" ++ articleValue ++
      html "' data-amendment='" ++ amendmentValue ++
      html "' data-repealed='" ++ (if isRepealed entry then js "true" else js "false") ++
      html "'>";
    html "  <div class='entry-heading-row'>";
    html "    <h3 class='entry-title'><a href='#" ++ entryId ++ html "'>" ++
      escapeHtml (title entry) ++ js "</a>" ++ repealedBadge ++ js "</h3>";
    detailsHtml;
    js "  </div>";
    html "  <p class='entry-text'>" ++ textHtml entry ++ js "</p>";
    js "</article>" ].

(** *** The content of the page *)

(** [a !== b] on two values that are each a number or [null]. *)
Definition strictNe (a b : option number) : bool :=
  match a, b with
  | None, None => false
  | Some x, Some y => negb (JSNumber.strictEq x y)
  | _, _ => true
  end.

(** The variables of [buildContent]. *)
Record ContentState := {
  blocks : list jsstring;
  hasPreambleHeading : bool;
  hasArticlePartHeading : bool;
  hasAmendmentPartHeading : bool;
  currentArticle : option number;
  currentAmendment : option number;
  blockOpen : bool;
}.

Definition contentInitial : ContentState := {|
  blocks := [];
  hasPreambleHeading := false;
  hasArticlePartHeading := false;
  hasAmendmentPartHeading := false;
  currentArticle := None;
  currentAmendment := None;
  blockOpen := false;
|}.

(** [blocks.push(...lines)] *)
Definition pushBlocks (lines : list jsstring) (st : ContentState) : ContentState := {|
  blocks := blocks st ++ lines;
  hasPreambleHeading := hasPreambleHeading st;
  hasArticlePartHeading := hasArticlePartHeading st;
  hasAmendmentPartHeading := hasAmendmentPartHeading st;
  currentArticle := currentArticle st;
  currentAmendment := currentAmendment st;
  blockOpen := blockOpen st;
|}.

Definition setBlockOpen (open : bool) (st : ContentState) : ContentState := {|
  blocks := blocks st;
  hasPreambleHeading := hasPreambleHeading st;
  hasArticlePartHeading := hasArticlePartHeading st;
  hasAmendmentPartHeading := hasAmendmentPartHeading st;
  currentArticle := currentArticle st;
  currentAmendment := currentAmendment st;
  blockOpen := open;
|}.

(** [closePartBlock] *)
Definition closePartBlock (st : ContentState) : ContentState :=
  if negb (blockOpen st) then st
  else setBlockOpen false (pushBlocks [js "</section>"] st).

(** [openPartBlock] *)
Definition openPartBlock (attrs : jsstring) (headingHtml : list jsstring)
    (st : ContentState) : ContentState :=
  let st := closePartBlock st in
  let st := pushBlocks [html "<section class='part-block' " ++ attrs ++ js ">"] st in
  let st := pushBlocks headingHtml st in
  setBlockOpen true st.

Definition preambleHeading : list jsstring := [
  html "<section class='part-heading' id='part-preamble' data-part-heading='preamble'>";
  js "  <h2>Preamble</h2>";
  js "</section>"
].

Definition articlesHeading : list jsstring := [
  html "<section class='major-part-heading' id='part-articles' data-major-heading='articles'>";
  js "  <h2>Part: Articles</h2>";
  js "</section>"
].

Definition amendmentsHeading : list jsstring := [
  html "<section class='major-part-heading' id='part-amendments' data-major-heading='amendments'>";
  js "  <h2>Part: Amendments</h2>";
  js "</section>"
].

Definition articleHeading (currentArticle : option number) : list jsstring := [
  html "<section class='part-heading' id='part-article-" ++
    JSValue.showNullable currentArticle ++ html "' data-part-heading='article'>";
  js "  <h2>Article " ++ JSValue.showNullable currentArticle ++ js "</h2>";
  js "</section>"
].

Definition amendmentHeading (currentAmendment : option number) : list jsstring := [
  html "<section class='part-heading' id='part-amendment-" ++
    JSValue.showNullable currentAmendment ++ html "' data-part-heading='amendment'>";
  js "  <h2>Amendment " ++ JSValue.showNullable currentAmendment ++ js "</h2>";
  js "</section>"
].

(** The first [if] of the loop of [buildContent]. *)
Definition contentPreamble (entry : NormalizedEntry) (st : ContentState) : ContentState :=
  if bool_decide (part entry = js "preamble") && negb (hasPreambleHeading st) then
    let st := {|
      blocks := blocks st;
      hasPreambleHeading := true;
      hasArticlePartHeading := hasArticlePartHeading st;
      hasAmendmentPartHeading := hasAmendmentPartHeading st;
      currentArticle := currentArticle st;
      currentAmendment := currentAmendment st;
      blockOpen := blockOpen st;
    |} in
    openPartBlock (html "data-part-block='preamble'") preambleHeading st
  else st.

(** The second. *)
Definition contentArticle (entry : NormalizedEntry) (st : ContentState) : ContentState :=
  if bool_decide (part entry = js "article") && strictNe (article entry) (currentArticle st)
  then
    let st :=
      if negb (hasArticlePartHeading st) then
        let st := closePartBlock st in
        pushBlocks articlesHeading {|
          blocks := blocks st;
          hasPreambleHeading := hasPreambleHeading st;
          hasArticlePartHeading := true;
          hasAmendmentPartHeading := hasAmendmentPartHeading st;
          currentArticle := currentArticle st;
          currentAmendment := currentAmendment st;
          blockOpen := blockOpen st;
        |}
      else st in
    let st := {|
      blocks := blocks st;
      hasPreambleHeading := hasPreambleHeading st;
      hasArticlePartHeading := hasArticlePartHeading st;
      hasAmendmentPartHeading := hasAmendmentPartHeading st;
      currentArticle := article entry;
      currentAmendment := currentAmendment st;
      blockOpen := blockOpen st;
    |} in
    openPartBlock
      (html "data-part-block='article' data-part-block-number='" ++
       JSValue.showNullable (currentArticle st) ++ html "'")
      (articleHeading (currentArticle st)) st
  else st.

(** The third. *)
Definition contentAmendment (entry : NormalizedEntry) (st : ContentState) : ContentState :=
  if bool_decide (part entry = js "amendment")
     && strictNe (amendmentNumber entry) (currentAmendment st)
  then
    let st :=
      if negb (hasAmendmentPartHeading st) then
        let st := closePartBlock st in
        pushBlocks amendmentsHeading {|
          blocks := blocks st;
          hasPreambleHeading := hasPreambleHeading st;
          hasArticlePartHeading := hasArticlePartHeading st;
          hasAmendmentPartHeading := true;
          currentArticle := currentArticle st;
          currentAmendment := currentAmendment st;
          blockOpen := blockOpen st;
        |}
      else st in
    let st := {|
      blocks := blocks st;
      hasPreambleHeading := hasPreambleHeading st;
      hasArticlePartHeading := hasArticlePartHeading st;
      hasAmendmentPartHeading := hasAmendmentPartHeading st;
      currentArticle := currentArticle st;
      currentAmendment := amendmentNumber entry;
      blockOpen := blockOpen st;
    |} in
    openPartBlock
      (html "data-part-block='amendment' data-part-block-number='" ++
       JSValue.showNullable (currentAmendment st) ++ html "'")
      (amendmentHeading (currentAmendment st)) st
  else st.

(** One turn of the loop of [buildContent]. *)
Definition contentStep (st : ContentState) (entry : NormalizedEntry) : ContentState :=
  let st := contentPreamble entry st in
  let st := contentArticle entry st in
  let st := contentAmendment entry st in
  pushBlocks (entryBlock entry) st.

(** The array [blocks] when [buildContent] returns. *)
Definition contentBlocks (entries : list NormalizedEntry) : list jsstring :=
  blocks (closePartBlock (foldl contentStep contentInitial entries)).

(** [buildContent] *)
Definition buildContent (entries : list NormalizedEntry) : jsstring :=
  JSString.join LF (contentBlocks entries).

(** *** The export as text *)

(** [buildLlmHeading] *)
Definition buildLlmHeading (entry : NormalizedEntry) : jsstring :=
  if bool_decide (part entry = js "preamble") then js "Preamble"
  else
    JSString.join (js ", ")
      ((if bool_decide (part entry = js "article")
        then js "Article " ++ JSValue.showNullable (article entry)
        else js "Amendment " ++ JSValue.showNullable (amendmentNumber entry)) ::
       match section entry with Some n => [js "Section " ++ NumberToString n] | None => [] end ++
       (if bool_decide (part entry = js "article")
        then match clause entry with Some n => [js "Clause " ++ NumberToString n] | None => [] end
        else []) ++
       match subclause entry with
       | Some n => [js "Subclause " ++ NumberToString n]
       | None => []
       end).

(** The variables of [buildLlmMarkdown]. *)
Record LlmState := {
  lines : list jsstring;
  hasArticlesHeader : bool;
  hasAmendmentsHeader : bool;
  llmCurrentArticle : option number;
  llmCurrentAmendment : option number;
}.

Definition llmInitial : LlmState := {|
  lines := [
    js "# Constitution of the United States";
    [];
    js "Plain-text retrieval document for LLM use.";
    js "Generated from constitution.json by scripts/build-content.mjs.";
    []
  ];
  hasArticlesHeader := false;
  hasAmendmentsHeader := false;
  llmCurrentArticle := None;
  llmCurrentAmendment := None;
|}.

(** What the loop of [buildLlmMarkdown] pushes for the entry itself. *)
Definition llmEntryLines (entry : NormalizedEntry) : list jsstring :=
  [js "#### " ++ buildLlmHeading entry ++ js " [" ++ id entry ++ js "]"; text entry] ++
  (if isRepealed entry
   then match repealedOn entry with
        | Some (c :: s) => [js "[Repealed on " ++ c :: s ++ js "]"]
        | _ => []
        end
   else []) ++
  [[]].

(** One turn of the loop of [buildLlmMarkdown]. *)
Definition llmStep (st : LlmState) (entry : NormalizedEntry) : LlmState :=
  let lines1 :=
    if bool_decide (part entry = js "preamble") then
      (if bool_decide (last (lines st) ≠ Some []) then lines st ++ [[]] else lines st) ++
      [js "## Preamble"; []]
    else lines st in
  let newArticle :=
    bool_decide (part entry = js "article")
    && strictNe (article entry) (llmCurrentArticle st) in
  let lines2 :=
    if newArticle then
      lines1 ++
      (if negb (hasArticlesHeader st) then [js "## Articles"; []] else []) ++
      [js "### Article " ++ JSValue.showNullable (article entry); []]
    else lines1 in
  let newAmendment :=
    bool_decide (part entry = js "amendment")
    && strictNe (amendmentNumber entry) (llmCurrentAmendment st) in
  let lines3 :=
    if newAmendment then
      lines2 ++
      (if negb (hasAmendmentsHeader st) then [js "## Amendments"; []] else []) ++
      [js "### Amendment " ++ JSValue.showNullable (amendmentNumber entry); []]
    else lines2 in
  {|
    lines := lines3 ++ llmEntryLines entry;
    hasArticlesHeader := if newArticle then true else hasArticlesHeader st;
    hasAmendmentsHeader := if newAmendment then true else hasAmendmentsHeader st;
    llmCurrentArticle := if newArticle then article entry else llmCurrentArticle st;
    llmCurrentAmendment :=
      if newAmendment then amendmentNumber entry else llmCurrentAmendment st;
  |}.

(** [buildLlmMarkdown] *)
Definition buildLlmMarkdown (entries : list NormalizedEntry) : jsstring :=
  JSString.trimEnd (JSString.join LF (lines (foldl llmStep llmInitial entries))) ++ LF.

End WithPlatform.

(** *** Splicing into the page *)

(** The characters [escapeRegex] puts a backslash before. *)
Definition isSyntaxCharacter (c : N) : bool :=
  bool_decide (c ∈ js ".*+?^${}()|[]\").

(** [escapeRegex] *)
Fixpoint escapeRegex (value : jsstring) : jsstring :=
  match value with
  | [] => []
  | c :: value' =>
      (if isSyntaxCharacter c then [92; c] else [c]) ++ escapeRegex value'
  end.

(** The patterns [injectGenerated] can build: a sequence of single
    characters and of [[\s\S]*?], any text and as little of it as possible. *)
Inductive atom :=
| Char (c : N)
| AnyLazy.

(** [new RegExp(source, "m")] for the sources met here: a backslash before
    a syntax character stands for that character, [[\s\S]*?] for [AnyLazy],
    any other character that is not a syntax character for itself.  A
    source outside of this is refused.  Each step reads at least one
    character, so that [fuel] above the length of the source is enough. *)
Fixpoint parsePattern (fuel : nat) (source : jsstring) : option (list atom) :=
  match fuel with
  | O => None
  | S fuel' =>
      match source with
      | [] => Some []
      | c :: rest =>
          if c =? 92 then
            match rest with
            | d :: rest' =>
                if isSyntaxCharacter d then cons (Char d) <$> parsePattern fuel' rest'
                else None
            | [] => None
            end
          else
            match JSString.stripPrefix (js "[\s\S]*?") source with
            | Some rest' => cons AnyLazy <$> parsePattern fuel' rest'
            | None =>
                if isSyntaxCharacter c then None
                else cons (Char c) <$> parsePattern fuel' rest
            end
      end
  end.

Definition RegExp (source : jsstring) : option (list atom) :=
  parsePattern (S (length source)) source.

(** The match of a pattern at the head of [s], by backtracking: what
    follows the match. *)
Fixpoint matchHere (pattern : list atom) (s : jsstring) : option jsstring :=
  match pattern with
  | [] => Some s
  | Char c :: pattern' =>
      match s with
      | d :: s' => if bool_decide (c = d) then matchHere pattern' s' else None
      | [] => None
      end
  | AnyLazy :: pattern' =>
      (fix shortest (s : jsstring) : option jsstring :=
         match matchHere pattern' s with
         | Some rest => Some rest
         | None =>
             match s with
             | [] => None
             | _ :: s' => shortest s'
             end
         end) s
  end.

(** The leftmost match in [s]: what stands before it and what follows it. *)
Fixpoint search (pattern : list atom) (s : jsstring) : option (jsstring * jsstring) :=
  match matchHere pattern s with
  | Some rest => Some ([], rest)
  | None =>
      match s with
      | [] => None
      | c :: s' =>
          match search pattern s' with
          | Some (before, rest) => Some (c :: before, rest)
          | None => None
          end
      end
  end.

(** GetSubstitution for a pattern without groups: in the replacement text
    [$$] is a dollar, [$&] the match, [$`] what stands before the match and
    [$'] what follows it; a dollar before anything else stands for itself. *)
Fixpoint getSubstitution (matched before after template : jsstring) : jsstring :=
  match template with
  | [] => []
  | c :: template' =>
      if c =? 36 then
        match template' with
        | d :: template'' =>
            if d =? 36 then 36 :: getSubstitution matched before after template''
            else if d =? 38 then matched ++ getSubstitution matched before after template''
            else if d =? 96 then before ++ getSubstitution matched before after template''
            else if d =? 39 then after ++ getSubstitution matched before after template''
            else c :: getSubstitution matched before after template'
        | [] => [c]
        end
      else c :: getSubstitution matched before after template'
  end.

Inductive InjectError :=
| PatternSyntaxError
| MissingMarkerPair.

(** [injectGenerated] *)
Definition injectGenerated (sourceHtml startMarker endMarker content : jsstring)
  : result InjectError jsstring :=
  match RegExp (escapeRegex startMarker ++ js "[\s\S]*?" ++ escapeRegex endMarker) with
  | None => Throw PatternSyntaxError
  | Some pattern =>
      match search pattern sourceHtml with
      | None => Throw MissingMarkerPair
      | Some (before, after) =>
          let matched :=
            take (length sourceHtml - length before - length after)
              (drop (length before) sourceHtml) in
          Ok (before ++
              getSubstitution matched before after
                (startMarker ++ LF ++ content ++ LF ++ endMarker) ++
              after)
      end
  end.

End Build.

(** ** The URL interfaces of the browser

    [URLSearchParams] and the query of the document's URL, after the URL
    and Encoding standards.  The interfaces take and return strings of
    Unicode scalar values: a surrogate code unit without its partner enters
    as U+FFFD. *)

Module Web.

Definition isHighSurrogate (c : N) : bool := (55296 <=? c) && (c <=? 56319).
Definition isLowSurrogate (c : N) : bool := (56320 <=? c) && (c <=? 57343).

(** The scalar values of a string (the conversion to a USVString). *)
Fixpoint toScalarValues (s : jsstring) : list N :=
  match s with
  | [] => []
  | c :: s' =>
      if isHighSurrogate c then
        match s' with
        | d :: s'' =>
            if isLowSurrogate d
            then (65536 + (c - 55296) * 1024 + (d - 56320)) :: toScalarValues s''
            else 65533 :: toScalarValues s'
        | [] => [65533]
        end
      else if isLowSurrogate c then 65533 :: toScalarValues s'
      else c :: toScalarValues s'
  end.

(** The code units of a code point. *)
Definition fromCodePoint (cp : N) : jsstring :=
  if cp <? 65536 then [cp]
  else [55296 + (cp - 65536) / 1024; 56320 + (cp - 65536) mod 1024].

Definition fromScalarValues (cps : list N) : jsstring := cps ≫= fromCodePoint.

(** UTF-8 encode *)
Definition utf8EncodeOne (cp : N) : list N :=
  if cp <? 128 then [cp]
  else if cp <? 2048 then [192 + cp / 64; 128 + cp mod 64]
  else if cp <? 65536 then [224 + cp / 4096; 128 + (cp / 64) mod 64; 128 + cp mod 64]
  else [240 + cp / 262144; 128 + (cp / 4096) mod 64; 128 + (cp / 64) mod 64;
        128 + cp mod 64].

Definition utf8Encode (cps : list N) : list N := cps ≫= utf8EncodeOne.

(** The state of the UTF-8 decoder: the code point under construction, the
    number of bytes still needed for it, and the bounds on the next byte. *)
Record utf8State := {
  codePoint : N;
  bytesNeeded : N;
  lowerBoundary : N;
  upperBoundary : N;
}.

Definition utf8Initial : utf8State :=
  {| codePoint := 0; bytesNeeded := 0; lowerBoundary := 128; upperBoundary := 191 |}.

(** The decoder on a byte when no byte is needed.  The masks of the
    standard ([byte & 0x1F], [& 0xF], [& 0x7]) are subtractions on the
    ranges where they are taken. *)
Definition utf8Lead (b : N) : list N * utf8State :=
  if b <=? 127 then ([b], utf8Initial)
  else if (194 <=? b) && (b <=? 223) then
    ([], {| codePoint := b - 192; bytesNeeded := 1;
            lowerBoundary := 128; upperBoundary := 191 |})
  else if (224 <=? b) && (b <=? 239) then
    ([], {| codePoint := b - 224; bytesNeeded := 2;
            lowerBoundary := if b =? 224 then 160 else 128;
            upperBoundary := if b =? 237 then 159 else 191 |})
  else if (240 <=? b) && (b <=? 244) then
    ([], {| codePoint := b - 240; bytesNeeded := 3;
            lowerBoundary := if b =? 240 then 144 else 128;
            upperBoundary := if b =? 244 then 143 else 191 |})
  else ([65533], utf8Initial).

(** One byte through the decoder: the code points it emits (U+FFFD for an
    error) and the next state.  A byte out of the bounds ends the sequence
    in error and is read again as a first byte. *)
Definition utf8Step (st : utf8State) (b : N) : list N * utf8State :=
  if bytesNeeded st =? 0 then utf8Lead b
  else if (lowerBoundary st <=? b) && (b <=? upperBoundary st) then
    let cp := codePoint st * 64 + (b - 128) in
    if bytesNeeded st =? 1 then ([cp], utf8Initial)
    else ([], {| codePoint := cp; bytesNeeded := bytesNeeded st - 1;
                 lowerBoundary := 128; upperBoundary := 191 |})
  else let '(out, st') := utf8Lead b in (65533 :: out, st').

Fixpoint utf8DecodeFrom (st : utf8State) (bytes : list N) : list N :=
  match bytes with
  | [] => if bytesNeeded st =? 0 then [] else [65533]
  | b :: bytes' => let '(out, st') := utf8Step st b in out ++ utf8DecodeFrom st' bytes'
  end.

(** UTF-8 decode without BOM *)
Definition utf8Decode (bytes : list N) : list N := utf8DecodeFrom utf8Initial bytes.

(** *** Percent-encoding *)

Definition hexDigit (n : N) : N := if n <? 10 then 48 + n else 55 + n.

Definition hexValue (c : N) : option N :=
  if (48 <=? c) && (c <=? 57) then Some (c - 48)
  else if (65 <=? c) && (c <=? 70) then Some (c - 55)
  else if (97 <=? c) && (c <=? 102) then Some (c - 87)
  else None.

Definition percentEncodeByte (b : N) : jsstring :=
  [37; hexDigit (b / 16); hexDigit (b mod 16)].

Fixpoint percentDecode (bytes : list N) : list N :=
  match bytes with
  | [] => []
  | b :: bytes' =>
      if b =? 37 then
        match bytes' with
        | h :: l :: rest =>
            match hexValue h, hexValue l with
            | Some x, Some y => (16 * x + y) :: percentDecode rest
            | _, _ => b :: percentDecode bytes'
            end
        | _ => b :: percentDecode bytes'
        end
      else b :: percentDecode bytes'
  end.

Definition isAlphanumeric (c : N) : bool :=
  (48 <=? c) && (c <=? 57) || (65 <=? c) && (c <=? 90) || (97 <=? c) && (c <=? 122).

(** The bytes the application/x-www-form-urlencoded serializer leaves as
    they are: the alphanumerics and [*], [-], [.], [_]. *)
Definition isUrlencodedPlain (b : N) : bool :=
  isAlphanumeric b || (b =? 42) || (b =? 45) || (b =? 46) || (b =? 95).

Definition urlencodeByte (b : N) : jsstring :=
  if b =? 32 then [43]
  else if isUrlencodedPlain b then [b]
  else percentEncodeByte b.

(** Percent-encode after encoding, with space as plus. *)
Definition urlencode (s : jsstring) : jsstring :=
  utf8Encode (toScalarValues s) ≫= urlencodeByte.

(** The application/x-www-form-urlencoded serializer. *)
Definition urlencodedSerialize (tuples : list (jsstring * jsstring)) : jsstring :=
  JSString.join (js "&")
    (map (λ '(name, value), urlencode name ++ js "=" ++ urlencode value) tuples).

(** The pieces of [s] between the occurrences of [sep]. *)
Fixpoint splitOn (sep : N) (s : list N) : list (list N) :=
  match s with
  | [] => [[]]
  | c :: s' =>
      if c =? sep then [] :: splitOn sep s'
      else
        match splitOn sep s' with
        | piece :: pieces => (c :: piece) :: pieces
        | [] => [[c]]
        end
  end.

(** [s] up to the first [sep], and what follows that [sep] if there is one. *)
Fixpoint splitFirst (sep : N) (s : list N) : list N * option (list N) :=
  match s with
  | [] => ([], None)
  | c :: s' =>
      if c =? sep then ([], Some s')
      else let '(before, after) := splitFirst sep s' in (c :: before, after)
  end.

Definition urldecode (bytes : list N) : jsstring :=
  fromScalarValues
    (utf8Decode (percentDecode ((λ b, if b =? 43 then 32 else b) <$> bytes))).

(** The application/x-www-form-urlencoded parser, on bytes. *)
Definition urlencodedParse (input : list N) : list (jsstring * jsstring) :=
  omap
    (λ bytes,
       match bytes with
       | [] => None
       | _ :: _ =>
           let '(name, value) := splitFirst 61 bytes in
           Some (urldecode name, urldecode (default [] value))
       end)
    (splitOn 38 input).

(** *** URLSearchParams: the list of its name-value pairs *)

Module URLSearchParams.

(** [new URLSearchParams()] *)
Definition empty : list (jsstring * jsstring) := [].

(** [new URLSearchParams(init)] on a string *)
Definition ofString (init : jsstring) : list (jsstring * jsstring) :=
  let init :=
    match init with
    | 63 :: init' => init'
    | _ => init
    end in
  urlencodedParse (utf8Encode (toScalarValues init)).

(** [params.get(name)] *)
Fixpoint get (params : list (jsstring * jsstring)) (name : jsstring) : option jsstring :=
  match params with
  | [] => None
  | (n, v) :: params' =>
      if bool_decide (n = name) then Some v else get params' name
  end.

(** [params.set(name, value)]: the first pair of that name takes the value
    and the others of that name leave; without one, the pair is appended. *)
Definition set (params : list (jsstring * jsstring)) (name value : jsstring)
  : list (jsstring * jsstring) :=
  let name := fromScalarValues (toScalarValues name) in
  let value := fromScalarValues (toScalarValues value) in
  (fix go (seen : bool) (params : list (jsstring * jsstring)) :=
     match params with
     | [] => if seen then [] else [(name, value)]
     | (n, v) :: params' =>
         if bool_decide (n = name)
         then if seen then go true params' else (n, value) :: go true params'
         else (n, v) :: go seen params'
     end) false params.

(** [params.toString()] *)
Definition toString (params : list (jsstring * jsstring)) : jsstring :=
  urlencodedSerialize params.

End URLSearchParams.

(** *** The query of the document's URL *)

(** The characters that the URL parser percent-encodes in the query of a
    URL with a special scheme. *)
Definition inSpecialQuerySet (cp : N) : bool :=
  (cp <=? 32) || (126 <? cp) || (cp =? 34) || (cp =? 35) || (cp =? 39) ||
  (cp =? 60) || (cp =? 62).

Definition queryEncode (query : jsstring) : jsstring :=
  toScalarValues query ≫=
    (λ cp, if inSpecialQuerySet cp then utf8EncodeOne cp ≫= percentEncodeByte else [cp]).

(** [window.location.search] after [history.replaceState({}, "", url)],
    for a [url] that starts with the path of the document: the URL parser
    drops tabs and newlines, ends the query at the first [#], starts it
    after the first [?] and percent-encodes it; an empty query reads as the
    empty string. *)
Definition searchAfterReplaceState (url : jsstring) : jsstring :=
  let url := filter (λ c, c ∉ [9; 10; 13]) url in
  match (splitFirst 63 (splitFirst 35 url).1).2 with
  | Some (c :: query) => 63 :: queryEncode (c :: query)
  | _ => []
  end.

End Web.

(** ** [window.localStorage]

    The items of the storage, and whether the browser denies access to it:
    then every call throws.  (A storage that is full, where [setItem] alone
    throws, is left out.) *)

Module LocalStorage.

Record Storage := {
  items : gmap jsstring jsstring;
  denied : bool;
}.

Inductive StorageError := SecurityError.

(** [localStorage.getItem(key)]: the item, or [null]. *)
Definition getItem (storage : Storage) (key : jsstring)
  : result StorageError (option jsstring) :=
  if denied storage then Throw SecurityError else Ok (items storage !! key).

(** [localStorage.setItem(key, value)] *)
Definition setItem (storage : Storage) (key value : jsstring)
  : result StorageError Storage :=
  if denied storage then Throw SecurityError
  else Ok {| items := <[key := value]> (items storage); denied := false |}.

End LocalStorage.

(** ** The filter of the page, [src/app.js] *)

Module App.

Record State := {
  q : jsstring;
  part : jsstring;
  article : jsstring;
  amendment : jsstring;
  status : jsstring;
}.

Definition DEFAULTS : State := {|
  q := [];
  part := js "all";
  article := js "all";
  amendment := js "all";
  status := js "all";
|}.

(** The object given to [sanitizeState]: each of the five keys holds a
    string or is left out ([None], which also stands for a key that holds
    [undefined] or [null]: in each test of [sanitizeState] these behave as
    the default does). *)
Record RawState := {
  raw_q : option jsstring;
  raw_part : option jsstring;
  raw_article : option jsstring;
  raw_amendment : option jsstring;
  raw_status : option jsstring;
}.

(** A state, given back to [sanitizeState]. *)
Definition toRaw (state : State) : RawState := {|
  raw_q := Some (q state);
  raw_part := Some (part state);
  raw_article := Some (article state);
  raw_amendment := Some (amendment state);
  raw_status := Some (status state);
|}.

Definition allowedParts : list jsstring :=
  [js "all"; js "preamble"; js "article"; js "amendment"].

Definition allowedStatus : list jsstring :=
  [js "all"; js "active"; js "repealed"].

(** [sanitizeState]; the two [Set]s are the lists of their elements. *)
Definition sanitizeState (raw : RawState) (articleValues amendmentValues : list jsstring)
  : State :=
  (* const next = { ...DEFAULTS, ...raw } *)
  let next_q := default (q DEFAULTS) (raw_q raw) in
  let next_part := default (part DEFAULTS) (raw_part raw) in
  let next_article := default (article DEFAULTS) (raw_article raw) in
  let next_amendment := default (amendment DEFAULTS) (raw_amendment raw) in
  let next_status := default (status DEFAULTS) (raw_status raw) in
  {|
    part :=
      if bool_decide (next_part ∈ allowedParts) then next_part else part DEFAULTS;
    status :=
      if bool_decide (next_status ∈ allowedStatus) then next_status else status DEFAULTS;
    article :=
      if bool_decide (next_article ∈ articleValues) then next_article
      else article DEFAULTS;
    amendment :=
      if bool_decide (next_amendment ∈ amendmentValues) then next_amendment
      else amendment DEFAULTS;
    q := JSString.trim next_q;
  |}.

(** [value || fallback] on what [params.get] returns. *)
Definition orElse (value : option jsstring) (fallback : jsstring) : jsstring :=
  match value with
  | Some (c :: s) => c :: s
  | _ => fallback
  end.

(** [getStateFromParams]; [search] is [window.location.search]. *)
Definition getStateFromParams (search : jsstring)
    (articleValues amendmentValues : list jsstring) : State :=
  let params := Web.URLSearchParams.ofString search in
  sanitizeState
    {|
      raw_q := Some (orElse (Web.URLSearchParams.get params (js "q")) []);
      raw_part := Some (orElse (Web.URLSearchParams.get params (js "part")) (part DEFAULTS));
      raw_article :=
        Some (orElse (Web.URLSearchParams.get params (js "article")) (article DEFAULTS));
      raw_amendment :=
        Some (orElse (Web.URLSearchParams.get params (js "amendment")) (amendment DEFAULTS));
      raw_status :=
        Some (orElse (Web.URLSearchParams.get params (js "status")) (status DEFAULTS));
    |}
    articleValues amendmentValues.

(** The [params] of [writeStateToUrl] before [toString]. *)
Definition stateParams (state : State) : list (jsstring * jsstring) :=
  let params := Web.URLSearchParams.empty in
  let params :=
    if bool_decide (q state ≠ []) then Web.URLSearchParams.set params (js "q") (q state)
    else params in
  let params :=
    if bool_decide (part state ≠ js "all")
    then Web.URLSearchParams.set params (js "part") (part state) else params in
  let params :=
    if bool_decide (article state ≠ js "all")
    then Web.URLSearchParams.set params (js "article") (article state) else params in
  let params :=
    if bool_decide (amendment state ≠ js "all")
    then Web.URLSearchParams.set params (js "amendment") (amendment state) else params in
  let params :=
    if bool_decide (status state ≠ js "all")
    then Web.URLSearchParams.set params (js "status") (status state) else params in
  params.

(** The [query] of [writeStateToUrl]. *)
Definition stateQuery (state : State) : jsstring :=
  Web.URLSearchParams.toString (stateParams state).

(** [writeStateToUrl], as the [window.location.search] it leaves;
    [pathname] and [hash] are those of [window.location] at the call. *)
Definition writeStateToUrl (pathname hash : jsstring) (state : State) : jsstring :=
  let query := stateQuery state in
  let nextUrl :=
    pathname ++ (if bool_decide (query ≠ []) then js "?" ++ query else []) ++ hash in
  Web.searchAfterReplaceState nextUrl.

(** An entry of the search index. *)
Record IndexEntry := {
  entry_id : jsstring;
  entry_part : jsstring;
  entry_type : jsstring;
  entry_article : option number;
  entry_section : option number;
  entry_clause : option number;
  entry_subclause : option number;
  entry_amendmentNumber : option number;
  entry_isRepealed : bool;
  entry_searchable : jsstring;
}.

(** [value !== n] for [value] a number or [null]. *)
Definition differs (value : option number) (n : number) : bool :=
  match value with
  | Some m => negb (JSNumber.strictEq m n)
  | None => true
  end.

(** [isDefaultState] *)
Definition isDefaultState (state : State) : bool :=
  bool_decide (q state = q DEFAULTS) &&
  bool_decide (part state = part DEFAULTS) &&
  bool_decide (article state = article DEFAULTS) &&
  bool_decide (amendment state = amendment DEFAULTS) &&
  bool_decide (status state = status DEFAULTS).

(** [buildActiveFilterSummary] *)
Definition buildActiveFilterSummary (state : State) : jsstring :=
  let parts :=
    (if bool_decide (q state ≠ []) then [html "Search '" ++ q state ++ html "'"] else []) ++
    (if bool_decide (part state ≠ js "all") then [js "Part: " ++ part state] else []) ++
    (if bool_decide (article state ≠ js "all")
     then [js "Article: " ++ article state] else []) ++
    (if bool_decide (amendment state ≠ js "all")
     then [js "Amendment: " ++ amendment state] else []) ++
    (if bool_decide (status state ≠ js "all") then [js "Status: " ++ status state] else []) in
  if bool_decide (0 < length parts)%nat then JSString.join (js " | ") parts
  else js "No active filters.".

(** [/^prefix(\d+)$/.exec(headingId)] for a [prefix] of plain characters:
    the group of the match, if any. *)
Definition execHeading (prefix headingId : jsstring) : option jsstring :=
  match JSString.stripPrefix prefix headingId with
  | Some rest =>
      match JSString.spanDigits rest with
      | ((_ :: _) as digits, []) => Some digits
      | _ => None
      end
  | None => None
  end.

(** *** The view controls *)

Definition FONT_SCALE_STORAGE_KEY : jsstring := js "usconstitution-font-scale".
Definition ENTRY_HEADERS_STORAGE_KEY : jsstring := js "usconstitution-show-entry-headers".
Definition FONT_SCALE_DEFAULT : number := JSNumber.ofZ 1.
Definition FONT_SCALE_MIN : number := Finite (Q2Qc (85 # 100)).
Definition FONT_SCALE_MAX : number := Finite (Q2Qc (135 # 100)).






(** [clamp] *)
Definition clamp (value min max : number) : number :=
  JSMath.min max (JSMath.max min value).

(** [getStoredEntryHeadersVisible] *)
Definition getStoredEntryHeadersVisible (storage : LocalStorage.Storage) : bool :=
  match LocalStorage.getItem storage ENTRY_HEADERS_STORAGE_KEY with
  | Ok (Some raw) => if bool_decide (raw = js "false") then false else true
  | Ok None => true
  | Throw _ => true
  end.

(** [setStoredEntryHeadersVisible], as the storage it leaves. *)
Definition setStoredEntryHeadersVisible (isVisible : bool)
    (storage : LocalStorage.Storage) : LocalStorage.Storage :=
  match
    LocalStorage.setItem storage ENTRY_HEADERS_STORAGE_KEY
      (if isVisible then js "true" else js "false")
  with
  | Ok storage' => storage'
  | Throw _ => storage
  end.

Section WithPlatform.
Context `{Platform}.

(** [matchesEntry] *)
Definition matchesEntry (entry : IndexEntry) (state : State) : bool :=
  if bool_decide (part state ≠ js "all") && bool_decide (entry_part entry ≠ part state)
  then false
  else if bool_decide (article state ≠ js "all")
          && differs (entry_article entry) (StringToNumber (article state))
  then false
  else if bool_decide (amendment state ≠ js "all")
          && differs (entry_amendmentNumber entry) (StringToNumber (amendment state))
  then false
  else if bool_decide (status state = js "active") && entry_isRepealed entry
  then false
  else if bool_decide (status state = js "repealed") && negb (entry_isRepealed entry)
  then false
  else if bool_decide (q state ≠ [])
          && negb (JSString.includes (entry_searchable entry) (toLowerCase (q state)))
  then false
  else true.

(** The [articleValues] and [amendmentValues] that the page builds from the
    search index, and then hands to [getStateFromParams] and
    [sanitizeState]: each a [Set] that starts from ["all"]. *)
Definition valueSets (searchIndex : list IndexEntry) : list jsstring * list jsstring :=
  foldl
    (λ '(articleValues, amendmentValues) entry,
       (match entry_article entry with
        | Some n => JSArray.setAdd articleValues (NumberToString n)
        | None => articleValues
        end,
        match entry_amendmentNumber entry with
        | Some n => JSArray.setAdd amendmentValues (NumberToString n)
        | None => amendmentValues
        end))
    ([js "all"], [js "all"]) searchIndex.

(** [headingHasVisibleEntries], on the [id] of the heading ([heading.id || ""]). *)
Definition headingHasVisibleEntries (headingId : jsstring)
    (visibleEntries : list IndexEntry) : bool :=
  if bool_decide (headingId = js "part-preamble") then
    existsb (λ entry, bool_decide (entry_part entry = js "preamble")) visibleEntries
  else if bool_decide (headingId = js "part-articles") then
    existsb (λ entry, bool_decide (entry_part entry = js "article")) visibleEntries
  else if bool_decide (headingId = js "part-amendments") then
    existsb (λ entry, bool_decide (entry_part entry = js "amendment")) visibleEntries
  else
    match execHeading (js "part-article-") headingId with
    | Some digits =>
        let articleNumber := StringToNumber digits in
        existsb
          (λ entry, bool_decide (entry_part entry = js "article")
                    && negb (differs (entry_article entry) articleNumber))
          visibleEntries
    | None =>
        match execHeading (js "part-amendment-") headingId with
        | Some digits =>
            let amendmentNumber := StringToNumber digits in
            existsb
              (λ entry, bool_decide (entry_part entry = js "amendment")
                        && negb (differs (entry_amendmentNumber entry) amendmentNumber))
              visibleEntries
        | None => true
        end
    end.

(** [getStoredFontScale] *)
Definition getStoredFontScale (storage : LocalStorage.Storage) : number :=
  match LocalStorage.getItem storage FONT_SCALE_STORAGE_KEY with
  | Ok item =>
      (* Number(null) is 0 *)
      let raw := match item with Some s => StringToNumber s | None => JSNumber.zero end in
      if negb (JSNumber.isNaN raw) then clamp raw FONT_SCALE_MIN FONT_SCALE_MAX
      else FONT_SCALE_DEFAULT
  | Throw _ => FONT_SCALE_DEFAULT
  end.

(** [setStoredFontScale], as the storage it leaves. *)
Definition setStoredFontScale (value : number) (storage : LocalStorage.Storage)
  : LocalStorage.Storage :=
  match LocalStorage.setItem storage FONT_SCALE_STORAGE_KEY (NumberToString value) with
  | Ok storage' => storage'
  | Throw _ => storage
  end.



End WithPlatform.
End App.

(** ** A host for the examples

    A [Platform] that agrees with ECMAScript on the decimal integers, which
    is all that the examples below feed it: [Number] reads a run of decimal
    digits (and the empty string as zero), [String] writes an integer in
    decimal, and [toLowerCase] maps the letters A to Z. *)

Module Reference.

Definition parseDecimal (s : jsstring) : number :=
  if forallb JSString.isDigit s
  then JSNumber.ofZ (Z.of_N (foldl (λ acc c, 10 * acc + (c - 48)) 0 s))
  else NaN.

Definition showDecimal (n : number) : jsstring :=
  match n with
  | NaN => js "NaN"
  | PosInfinity => js "Infinity"
  | NegInfinity => js "-Infinity"
  | Finite q =>
      (if bool_decide (q < 0)%Qc then js "-" else []) ++
      js (DecimalString.NilZero.string_of_uint (N.to_uint (Z.abs_N (Qnum q / Zpos (Qden q)))))
  end.

Definition lowerAscii (s : jsstring) : jsstring :=
  (λ c, if (65 <=? c) && (c <=? 90) then c + 32 else c) <$> s.

Definition platform : Platform := {|
  StringToNumber := parseDecimal;
  NumberToString := showDecimal;
  toLowerCase := lowerAscii;
|}.

End Reference.

(** * The properties

    First the vocabulary in which they are stated, then the data of the
    examples, then the lemmas and theorems. *)

Set Warnings "-clear-no-such-hyp".

Module BuildSpec.
Import Build.

(** What [escapeHtml] writes for one character. *)
Definition escapeChar (c : N) : jsstring :=
  if bool_decide (c = 38) then js "&amp;"
  else if bool_decide (c = 60) then js "&lt;"
  else if bool_decide (c = 62) then js "&gt;"
  else if bool_decide (c = 34) then js "&quot;"
  else if bool_decide (c = 39) then js "&#39;"
  else [c].

Definition entities : list jsstring :=
  [js "&amp;"; js "&lt;"; js "&gt;"; js "&quot;"; js "&#39;"].

(** The five characters [escapeHtml] replaces. *)
Definition special (c : N) : Prop := c = 38 ∨ c = 60 ∨ c = 62 ∨ c = 34 ∨ c = 39.

Definition notNaN (n : number) : Prop := n ≠ NaN.

(** [/^amend(\d+)-/] matches [id] with [digits] as its group. *)
Definition matchesAmend (id digits : jsstring) : Prop :=
  digits ≠ [] ∧ Forall (λ c, JSString.isDigit c = true) digits ∧
  ∃ rest, id = js "amend" ++ digits ++ js "-" ++ rest.

Section WithPlatform.
Context `{Platform}.

(** What the callback of [normalize] reads in a record. *)
Definition rawId (record : json) : jsstring :=
  JSValue.stringOrEmpty (JSValue.get record (js "id")).
Definition rawType (record : json) : jsstring :=
  JSValue.stringOrEmpty (JSValue.get record (js "type")).
Definition rawText (record : json) : jsstring :=
  JSValue.stringOrEmpty (JSValue.get record (js "text")).
Definition rawPosition (record : json) : number :=
  JSValue.toNumber (JSValue.get record (js "position")).

(** The record is one that the callback of [normalize] throws on. *)
Definition rejected (record : json) : Prop :=
  JSValue.notAnObject record = true ∨ rawId record = [] ∨ rawType record = [] ∨
  rawText record = [] ∨ JSNumber.isNaN (rawPosition record) = true.

End WithPlatform.

(** An entry as [normalize] makes them: JSON has no NaN and [Number] of a
    run of digits is a number, so that neither locator is NaN. *)
Definition hasNoNaN (entry : NormalizedEntry) : Prop :=
  article entry ≠ Some NaN ∧ amendmentNumber entry ≠ Some NaN.

(** [s] holds [startMarker] and, after it, [endMarker]. *)
Definition hasMarkerPair (s startMarker endMarker : jsstring) : Prop :=
  ∃ before middle after, s = before ++ startMarker ++ middle ++ endMarker ++ after.

(** The pattern that [injectGenerated] means. *)
Definition markerPattern (startMarker endMarker : jsstring) : list atom :=
  (Char <$> startMarker) ++ AnyLazy :: (Char <$> endMarker).

(** [middle] is what stands before the first [endMarker] of [s]. *)
Definition nearestEnd (endMarker s middle after : jsstring) : Prop :=
  s = middle ++ endMarker ++ after ∧
  ∀ middle' after', s = middle' ++ endMarker ++ after' →
    (length middle ≤ length middle')%nat.

(** *** For the further properties of the generator *)

(** Literals of the source, evaluated. *)
Ltac js_eval :=
  repeat match goal with
         | |- context [js ?s] =>
             let v := eval vm_compute in (js s) in change (js s) with v
         | |- context [html ?s] =>
             let v := eval vm_compute in (html s) in change (html s) with v
         end.

(** What [buildContent] writes for one character of a text. *)
Definition textChar (c : N) : jsstring :=
  if bool_decide (c = 10) then js "<br>" else escapeChar c.

(** The place [injectGenerated] picks in a page: the first start marker
    that has an end marker after it, up to the nearest such end marker. *)
Definition markerSplit (s startMarker endMarker before middle after : jsstring) : Prop :=
  s = before ++ startMarker ++ middle ++ endMarker ++ after ∧
  nearestEnd endMarker (middle ++ endMarker ++ after) middle after ∧
  ∀ before' middle' after',
    s = before' ++ startMarker ++ middle' ++ endMarker ++ after' →
    (length before ≤ length before')%nat.

(** The lines that open and close a [section] among the blocks of
    [buildContent]. *)
Definition opensSection (line : jsstring) : bool :=
  JSString.startsWith (js "<section") line.

Definition closesSection (line : jsstring) : bool :=
  bool_decide (line = js "</section>").

(** The sections left open after [lines], [depth] of them being open
    before: nothing if a section is closed that was not open, or if a
    section is opened inside a section that is itself inside one. *)
Fixpoint sectionDepth (depth : nat) (lines : list jsstring) : option nat :=
  match lines with
  | [] => Some depth
  | line :: lines' =>
      if opensSection line then
        if bool_decide (depth < 2)%nat then sectionDepth (S depth) lines' else None
      else if closesSection line then
        match depth with
        | O => None
        | S depth' => sectionDepth depth' lines'
        end
      else sectionDepth depth lines'
  end.

(** A line of a heading: the tags of a section and the [h2] in it. *)
Definition isHeadingLine (line : jsstring) : bool :=
  opensSection line || closesSection line || JSString.startsWith (js "  <h2>") line.

(** The blocks hold the lines of [heading], one after the other. *)
Definition holdsHeading (blocks heading : list jsstring) : Prop :=
  ∃ before after, blocks = before ++ heading ++ after.

(** What the variables of [buildContent] say of its blocks: a heading that
    is marked as written is among the blocks, and so is the heading of the
    current article and of the current amendment. *)
Definition tocInv `{Platform} (st : ContentState) : Prop :=
  (hasPreambleHeading st = true → holdsHeading (blocks st) preambleHeading) ∧
  (hasArticlePartHeading st = true → holdsHeading (blocks st) articlesHeading) ∧
  (hasAmendmentPartHeading st = true → holdsHeading (blocks st) amendmentsHeading) ∧
  (∀ n, currentArticle st = Some n →
     hasArticlePartHeading st = true ∧
     holdsHeading (blocks st) (articleHeading (Some n))) ∧
  (∀ n, currentAmendment st = Some n →
     hasAmendmentPartHeading st = true ∧
     holdsHeading (blocks st) (amendmentHeading (Some n))).

(** A block that is no line of a heading. *)
Abbreviation otherLine := (λ line : jsstring, isHeadingLine line = false).

(** The sections that are open after the blocks of a state: the part
    block, if one is open. *)
Definition depthInv (st : ContentState) : Prop :=
  sectionDepth 0 (blocks st) = Some (if blockOpen st then 1 else 0)%nat.

(** The fields of a state of [buildContent], read. *)
Ltac state_simpl :=
  cbn [blocks hasPreambleHeading hasArticlePartHeading hasAmendmentPartHeading
       currentArticle currentAmendment blockOpen pushBlocks setBlockOpen] in *.

End BuildSpec.

Module AppSpec.
Import Web App.

(** Booleans on numbers, decided by case analysis and linear arithmetic. *)
Ltac bool_cases :=
  repeat match goal with
    | H : context [?a <=? ?b] |- _ => destruct (N.leb_spec a b)
    | H : context [?a <? ?b] |- _ => destruct (N.ltb_spec a b)
    | H : context [?a =? ?b] |- _ => destruct (N.eqb_spec a b)
    | |- context [?a <=? ?b] => destruct (N.leb_spec a b)
    | |- context [?a <? ?b] => destruct (N.ltb_spec a b)
    | |- context [?a =? ?b] => destruct (N.eqb_spec a b)
    end;
  simpl in *; try done; try lia.

(** [x / 64] and [x mod 64] as two numbers [d] and [m < 64] with
    [x = 64 * d + m]. *)
Ltac divmod64 x :=
  let q := fresh "d" in
  let r := fresh "m" in
  let Hx := fresh "Hx" in
  let Hr := fresh "Hr" in
  pose proof (N.div_mod x 64 ltac:(done)) as Hx;
  pose proof (N.mod_lt x 64 ltac:(done)) as Hr;
  set (q := x / 64) in *; set (r := x mod 64) in *; clearbody q r.

(** A string that [trim] leaves as it is: it neither starts nor ends with
    white space. *)
Definition trimmed (s : jsstring) : Prop :=
  match s with c :: _ => JSString.isWhiteSpace c = false | [] => True end ∧
  match reverse s with c :: _ => JSString.isWhiteSpace c = false | [] => True end.

(** [s.isWellFormed()]: no surrogate code unit stands without its partner. *)
Fixpoint isWellFormed (s : jsstring) : bool :=
  match s with
  | [] => true
  | c :: s' =>
      if isHighSurrogate c then
        match s' with
        | d :: s'' => isLowSurrogate d && isWellFormed s''
        | [] => false
        end
      else negb (isLowSurrogate c) && (c <? 65536) && isWellFormed s'
  end.

Definition isScalarValue (cp : N) : bool :=
  (cp <? 55296) || (57343 <? cp) && (cp <? 1114112).

(** The characters of a serialized name or value: the plain ones, [+]
    and [%]. *)
Definition isEncoded (c : N) : bool := isUrlencodedPlain c || (c =? 43) || (c =? 37).

Definition plusToSpace (b : N) : N := if b =? 43 then 32 else b.

(** A name and a value without an unpaired surrogate. *)
Definition wellFormedPair (tuple : jsstring * jsstring) : Prop :=
  isWellFormed tuple.1 = true ∧ isWellFormed tuple.2 = true.

(** What the serializer writes for one pair. *)
Definition serializePair (tuple : jsstring * jsstring) : jsstring :=
  urlencode tuple.1 ++ js "=" ++ urlencode tuple.2.

(** What the parser makes of one piece between two [&]. *)
Definition parsePair (bytes : list N) : option (jsstring * jsstring) :=
  match bytes with
  | [] => None
  | _ :: _ =>
      let '(name, value) := splitFirst 61 bytes in
      Some (urldecode name, urldecode (default [] value))
  end.

(** The characters of a serialized query. *)
Definition isQueryChar (c : N) : bool := isEncoded c || (c =? 61) || (c =? 38).

(** [pathname] and [hash] as [window.location] gives them: the pathname
    starts with one [/] and holds no [?], no [#], no tab and no newline; the
    hash holds no tab and no newline, and is empty or starts with [#]. *)
Definition locationParts (pathname hash : jsstring) : Prop :=
  (∃ rest, pathname = 47 :: rest ∧
     match rest with c :: _ => c ≠ 47 ∧ c ≠ 92 | [] => True end) ∧
  Forall (λ c, (c ∉ [9; 10; 13]) ∧ c ≠ 35 ∧ c ≠ 63) pathname ∧
  Forall (λ c, c ∉ [9; 10; 13]) hash ∧
  (hash = [] ∨ ∃ fragment, hash = 35 :: fragment).

(** [state] is as [sanitizeState] leaves a state. *)
Definition sanitized (state : State) (articleValues amendmentValues : list jsstring) : Prop :=
  part state ∈ allowedParts ∧ status state ∈ allowedStatus ∧
  article state ∈ articleValues ∧ amendment state ∈ amendmentValues ∧
  JSString.trim (q state) = q state.

(** What a URL can carry of a state: text without unpaired surrogates, and
    an article and an amendment that are not the empty string. *)
Definition urlSafe (state : State) : Prop :=
  isWellFormed (q state) = true ∧
  isWellFormed (article state) = true ∧ article state ≠ [] ∧
  isWellFormed (amendment state) = true ∧ amendment state ≠ [].

(** The pair that [writeStateToUrl] sets for a field off its default. *)
Definition param (name value fallback : jsstring) : list (jsstring * jsstring) :=
  if bool_decide (value ≠ fallback) then [(name, value)] else [].

Section WithPlatform.
Context `{Platform}.


End WithPlatform.

(** *** For the further properties of the page *)



(** Tests between two literals of the source, evaluated. *)
Ltac literal_tests :=
  repeat match goal with
         | |- context [bool_decide (js ?a = js ?b)] =>
             let v := eval vm_compute in (bool_decide (js a = js b)) in
             change (bool_decide (js a = js b)) with v
         | |- context [bool_decide (js ?a ≠ js ?b)] =>
             let v := eval vm_compute in (bool_decide (js a ≠ js b)) in
             change (bool_decide (js a ≠ js b)) with v
         | |- context [bool_decide (@nil N ≠ [])] =>
             change (bool_decide (@nil N ≠ [])) with false
         end.

End AppSpec.

(** ** Data for the examples *)

Module Sample.

Definition preamble : json := JObj [
  (js "id", JStr (js "preamble"));
  (js "type", JStr (js "preamble"));
  (js "text", JStr (js "We the People of the United States"));
  (js "position", JNum (JSNumber.ofZ 1))
].

Definition article1 : json := JObj [
  (js "id", JStr (js "a1-s1"));
  (js "type", JStr (js "section"));
  (js "article", JNum (JSNumber.ofZ 1));
  (js "section", JNum (JSNumber.ofZ 1));
  (js "text", JStr (js "All legislative Powers herein granted"));
  (js "searchTags", JArr [JStr (js "congress")]);
  (js "position", JStr (js "2"))
].

Definition amendment18 : json := JObj [
  (js "id", JStr (js "amend18-s1"));
  (js "type", JStr (js "section"));
  (js "section", JNum (JSNumber.ofZ 1));
  (js "text", JStr (js "After one year from the ratification of this article"));
  (js "ratifiedOn", JStr (js "1919-01-16"));
  (js "repealedOn", JStr (js "1933-12-05"));
  (js "position", JNum (JSNumber.ofZ 30))
].

(** A record whose repeal date is the empty string. *)
Definition amendment21 : json := JObj [
  (js "id", JStr (js "amend21-s1"));
  (js "type", JStr (js "amendment"));
  (js "text", JStr (js "The eighteenth article of amendment is hereby repealed"));
  (js "repealedOn", JStr []);
  (js "position", JNum (JSNumber.ofZ 40))
].

Definition data : list json := [amendment18; preamble; article1].

Definition entries : list Build.NormalizedEntry :=
  match Build.normalize (H := Reference.platform) (JArr data) with
  | Ok entries => entries
  | Throw _ => []
  end.

(** The entry of the search index for [amendment18]. *)
Definition indexEntry : App.IndexEntry := {|
  App.entry_id := js "amend18-s1";
  App.entry_part := js "amendment";
  App.entry_type := js "section";
  App.entry_article := None;
  App.entry_section := Some (JSNumber.ofZ 1);
  App.entry_clause := None;
  App.entry_subclause := None;
  App.entry_amendmentNumber := Some (JSNumber.ofZ 18);
  App.entry_isRepealed := true;
  App.entry_searchable := js "after one year amend18-s1 amendment 18";
|}.

(** The values of the article and amendment menus. *)
Definition values : list jsstring := [js "all"; js "1"; js "2"].

End Sample.

(** ** The generator *)

Module BuildFacts.
Import Build BuildSpec.

(** ** [escapeHtml] *)

Lemma replaceAll_app c repl s t :
  JSString.replaceAll c repl (s ++ t) =
  JSString.replaceAll c repl s ++ JSString.replaceAll c repl t.
Proof.
  induction s as [|d s IH]; simpl; [done|].
  by rewrite IH, (assoc_L (++)).
Qed.

Lemma replaceAll_other c repl d :
  d ≠ c → JSString.replaceAll c repl [d] = [d].
Proof. intros. simpl. by rewrite bool_decide_false. Qed.

Lemma escapeHtml_cons c s : escapeHtml (c :: s) = escapeChar c ++ escapeHtml s.
Proof.
  unfold escapeHtml, escapeChar. simpl JSString.replaceAll at 5.
  rewrite !replaceAll_app. f_equal.
  repeat case_bool_decide; subst; try done.
  by rewrite !replaceAll_other.
Qed.

Lemma escapeHtml_bind s : escapeHtml s = s ≫= escapeChar.
Proof.
  induction s as [|c s IH]; [done|].
  by rewrite escapeHtml_cons, IH.
Qed.

Lemma escapeChar_cases c :
  (special c ∧ escapeChar c ∈ entities) ∨ (¬ special c ∧ escapeChar c = [c]).
Proof.
  unfold escapeChar, special.
  repeat case_bool_decide; subst; [left; split; [tauto|compute_done]..|].
  right. split; [tauto|done].
Qed.






(** ** Numbers *)

Lemma Qc_zero_lt_minus (x y : Qc) : (Q2Qc (inject_Z 0) < x - y ↔ y < x)%Qc.
Proof.
  rewrite (Qclt_minus_iff y x). unfold Qcminus.
  replace (Q2Qc (inject_Z 0)) with 0%Qc; [done|].
  by apply Qc_is_canon.
Qed.

Lemma sub_positive a b :
  notNaN a → notNaN b →
  JSNumber.ltb JSNumber.zero (JSNumber.sub a b) = JSNumber.ltb b a.
Proof.
  unfold notNaN, JSNumber.zero, JSNumber.ofZ.
  destruct a, b; intros; try done.
  simpl. apply bool_decide_ext, Qc_zero_lt_minus.
Qed.

Lemma ltb_false_leb a b :
  notNaN a → notNaN b → JSNumber.ltb b a = false → JSNumber.leb a b = true.
Proof.
  unfold notNaN, JSNumber.leb.
  destruct a as [| |x|], b as [| |y|]; intros ?? Hlt; try done.
  simpl in *. apply bool_decide_eq_false in Hlt.
  apply Qcnot_lt_le, Qcle_lt_or_eq in Hlt as [?| ->].
  - by rewrite bool_decide_true.
  - rewrite (bool_decide_true (_ = _)) by done. by rewrite orb_true_r.
Qed.

Lemma ltb_leb a b : JSNumber.ltb a b = true → JSNumber.leb a b = true.
Proof. unfold JSNumber.leb. by intros ->. Qed.

Lemma ltb_irrefl a : JSNumber.ltb a a = false.
Proof.
  destruct a; try done. simpl. apply bool_decide_eq_false.
  intros Hlt. by apply Qclt_not_eq in Hlt.
Qed.

Lemma leb_ne_ltb a b : JSNumber.leb a b = true → a ≠ b → JSNumber.ltb a b = true.
Proof.
  unfold JSNumber.leb. intros [?|Heq]%orb_true_iff ?; [done|].
  destruct a, b; try done; simpl in Heq; by apply bool_decide_eq_true in Heq.
Qed.


(** ** [Array.prototype.sort] *)

Section Sort.
Context {A : Type} (key : A → number).

Let comparefn (a b : A) : number := JSNumber.sub (key a) (key b).
Let le (a b : A) : Prop := JSNumber.leb (key a) (key b) = true.

Lemma insert_Permutation (cmp : A → A → number) x l :
  JSArray.insert cmp x l ≡ₚ x :: l.
Proof.
  induction l as [|y l IH]; cbn [JSArray.insert]; [done|].
  case_match; [|done]. rewrite IH. apply Permutation_swap.
Qed.

Lemma sort_Permutation (cmp : A → A → number) l : JSArray.sort cmp l ≡ₚ l.
Proof.
  induction l as [|x l IH]; simpl; [done|].
  by rewrite insert_Permutation, IH.
Qed.

Lemma insert_Sorted x l :
  notNaN (key x) → Forall (λ y, notNaN (key y)) l →
  Sorted le l → Sorted le (JSArray.insert comparefn x l).
Proof.
  intros Hx Hl Hsorted. induction Hsorted as [|y l Hsorted IH Hhd].
  { repeat constructor. }
  apply Forall_cons in Hl as [Hy Hl].
  cbn [JSArray.insert]. unfold comparefn at 1.
  rewrite sub_positive by done.
  destruct (JSNumber.ltb (key y) (key x)) eqn:Hlt.
  - constructor; [by apply IH|].
    destruct Hhd as [|z l Hyz]; cbn [JSArray.insert].
    { constructor. by apply ltb_leb. }
    case_match; constructor; [done|by apply ltb_leb].
  - constructor; [by constructor|].
    constructor. by apply ltb_false_leb.
Qed.

Lemma sort_Sorted l :
  Forall (λ y, notNaN (key y)) l → Sorted le (JSArray.sort comparefn l).
Proof.
  induction 1 as [|x l Hx Hl IH]; simpl; [constructor|].
  apply insert_Sorted; [done| |done].
  by rewrite sort_Permutation.
Qed.

End Sort.

(** ** [normalize] *)

Section Normalize.
Context `{Platform}.

Lemma stripPrefix_Some p s rest :
  JSString.stripPrefix p s = Some rest ↔ s = p ++ rest.
Proof.
  revert s. induction p as [|c p IH]; intros s.
  { destruct s; cbn [JSString.stripPrefix app]; split; congruence. }
  destruct s as [|d s]; cbn [JSString.stripPrefix app]; [by split|].
  case_bool_decide as Hcd; [subst d|].
  - rewrite IH. split; [by intros ->|by intros [= ->]].
  - split; [done|]. by intros [= -> ?].
Qed.

Lemma spanDigits_spec s :
  let '(digits, rest) := JSString.spanDigits s in
  s = digits ++ rest ∧ Forall (λ c, JSString.isDigit c = true) digits ∧
  match rest with c :: _ => JSString.isDigit c = false | [] => True end.
Proof.
  induction s as [|c s IH]; simpl; [by repeat split|].
  destruct (JSString.isDigit c) eqn:Hc.
  - destruct (JSString.spanDigits s) as [digits rest].
    destruct IH as (-> & ? & ?). repeat split; [by constructor|done].
  - by repeat split.
Qed.

Lemma spanDigits_app digits c rest :
  Forall (λ c, JSString.isDigit c = true) digits → JSString.isDigit c = false →
  JSString.spanDigits (digits ++ c :: rest) = (digits, c :: rest).
Proof.
  induction 1 as [|d digits Hd _ IH]; intros Hc; simpl.
  - by rewrite Hc.
  - by rewrite Hd, IH.
Qed.

Lemma execAmend_Some id digits :
  execAmend id = Some digits ↔ matchesAmend id digits.
Proof.
  unfold execAmend, matchesAmend. split.
  - destruct (JSString.stripPrefix _ id) as [rest|] eqn:Hid; [|done].
    apply stripPrefix_Some in Hid as ->.
    pose proof (spanDigits_spec rest) as Hspan.
    destruct (JSString.spanDigits rest) as [[|d ds] [|c rest']]; try done.
    destruct Hspan as (-> & Hds & _).
    destruct (N.eqb_spec c 45) as [->|]; [|done].
    intros [= <-]. repeat split; [done..|]. by exists rest'.
  - intros (Hne & Hds & rest & ->).
    replace (JSString.stripPrefix (js "amend") (js "amend" ++ digits ++ js "-" ++ rest))
      with (Some (digits ++ js "-" ++ rest)) by (symmetry; by apply stripPrefix_Some).
    change (js "-" ++ rest) with (45 :: rest).
    rewrite spanDigits_app by done. by destruct digits.
Qed.

Lemma execAmend_None id :
  execAmend id = None ↔ ¬ ∃ digits, matchesAmend id digits.
Proof.
  split.
  - intros Hnone (digits & Hd%execAmend_Some). congruence.
  - intros Hno. destruct (execAmend id) as [digits|] eqn:Hid; [|done].
    destruct Hno. exists digits. by apply execAmend_Some.
Qed.

Lemma normalizeEntry_Ok record entry :
  normalizeEntry record = Ok entry →
  ¬ rejected record ∧
  id entry = rawId record ∧ type entry = rawType record ∧
  text entry = rawText record ∧ position entry = rawPosition record ∧
  part entry = getPart (rawId record) (rawType record) ∧
  amendmentNumber entry = getAmendmentNumber (rawId record) ∧
  isRepealed entry = isPresent (JSValue.get record (js "repealedOn")) ∧
  repealedOn entry = stringOrNull (JSValue.get record (js "repealedOn")).
Proof.
  unfold normalizeEntry, rejected, rawId, rawType, rawText, rawPosition.
  destruct (JSValue.notAnObject record); [done|].
  destruct (_ || _) eqn:Hcheck; [done|].
  intros [= <-]. split; [|done].
  apply orb_false_iff in Hcheck as [[[?%bool_decide_eq_false ?%bool_decide_eq_false]%orb_false_iff
    ?%bool_decide_eq_false]%orb_false_iff ?].
  intros [?|[?|[?|[?|?]]]]; congruence.
Qed.


Lemma mapEntries_Ok records entries :
  mapEntries records = Ok entries ↔
  Forall2 (λ record entry, normalizeEntry record = Ok entry) records entries.
Proof.
  revert entries. induction records as [|record records IH]; intros entries; simpl.
  - split; [intros [= <-]; constructor|by inversion 1].
  - destruct (normalizeEntry record) as [entry|e] eqn:Hrecord.
    + destruct (mapEntries records) as [rest|e] eqn:Hrest.
      * split.
        -- intros [= <-]. constructor; [done|]. by apply IH.
        -- inversion 1 as [|???? Hentry Hrest']; subst.
           apply IH in Hrest'. congruence.
      * split; [done|]. inversion 1 as [|???? _ Hrest']; subst.
        by apply IH in Hrest'.
    + split; [done|]. inversion 1; congruence.
Qed.


Lemma normalize_Ok rawData entries :
  normalize rawData = Ok entries →
  ∃ records normalized, rawData = JArr records ∧
    Forall2 (λ record entry, normalizeEntry record = Ok entry) records normalized ∧
    entries = JSArray.sort (λ a b, JSNumber.sub (position a) (position b)) normalized.
Proof.
  unfold normalize. destruct rawData as [| | | |records|]; try done.
  destruct (mapEntries records) as [normalized|] eqn:Hmap; [|done].
  intros [= <-]. exists records, normalized. by rewrite <-mapEntries_Ok.
Qed.

Lemma normalize_record records entries record :
  normalize (JArr records) = Ok entries → record ∈ records →
  ∃ entry, entry ∈ entries ∧ normalizeEntry record = Ok entry.
Proof.
  intros (? & normalized & [= <-] & Hall & ->)%normalize_Ok Hrecord.
  apply list_elem_of_lookup in Hrecord as [i Hi].
  destruct (Forall2_lookup_l _ _ _ _ _ Hall Hi) as (entry & Hentry & ?).
  exists entry. split; [|done].
  rewrite sort_Permutation. by eapply list_elem_of_lookup_2.
Qed.

(** The entries that [normalize] makes of data read as JSON hold no NaN
    among their article and amendment numbers: JSON has no literal for NaN,
    and [Number] reads a run of digits as a number. *)
Lemma normalize_hasNoNaN records entries :
  (∀ record, record ∈ records → JSValue.get record (js "article") ≠ Some (JNum NaN)) →
  (∀ digits, digits ≠ [] → Forall (λ c, JSString.isDigit c = true) digits →
     StringToNumber digits ≠ NaN) →
  normalize (JArr records) = Ok entries → Forall hasNoNaN entries.
Proof.
  intros Hjson Hdigits (? & normalized & [= <-] & Hall & ->)%normalize_Ok.
  rewrite sort_Permutation. apply Forall_forall. intros entry Hentry.
  apply list_elem_of_lookup in Hentry as [i Hi].
  destruct (Forall2_lookup_r _ _ _ _ _ Hall Hi) as (record & Hrecord & Hok).
  apply list_elem_of_lookup_2, Hjson in Hrecord.
  pose proof Hok as (_ & _ & _ & _ & _ & _ & Hnum & _)%normalizeEntry_Ok.
  split.
  - unfold normalizeEntry in Hok.
    destruct (JSValue.notAnObject record); [done|].
    destruct (_ || _); [done|]. injection Hok as <-. cbn [article setTitleAndSearchable].
    destruct (JSValue.get record (js "article")) as [[]|]; cbn [valueOrNull]; congruence.
  - rewrite Hnum. unfold getAmendmentNumber.
    destruct (execAmend (rawId record)) as [digits|] eqn:Hexec; [|done].
    apply execAmend_Some in Hexec as (? & ? & _).
    intros [= Hnan]. by apply (Hdigits digits).
Qed.


(** C2: in what [normalize] returns, an entry's position is at most the
    position of the entry after it. *)
Theorem normalize_sorted_by_position (rawData : json) (entries : list NormalizedEntry) :
  normalize rawData = Ok entries →
  ∀ i a b, entries !! i = Some a → entries !! S i = Some b →
    JSNumber.leb (position a) (position b) = true.
Proof.
  intros (records & normalized & -> & Hall & ->)%normalize_Ok.
  assert (Forall (λ entry, notNaN (position entry)) normalized) as Hpos.
  { clear -Hall. induction Hall as [|record entry ?? Hentry _ IH]; constructor; [|done].
    apply normalizeEntry_Ok in Hentry as (Hok & _ & _ & _ & -> & _).
    unfold notNaN. intros Hnan. apply Hok. unfold rejected.
    rewrite Hnan. tauto. }
  apply (sort_Sorted position) in Hpos. revert Hpos.
  generalize (JSArray.sort (λ a b, JSNumber.sub (position a) (position b)) normalized).
  intros sorted Hsorted. induction Hsorted as [|x l _ IH Hhd]; intros i a b; [done|].
  destruct i as [|i]; simpl.
  - intros [= ->] Hb. destruct Hhd as [|y l Hxy]; [done|]. by injection Hb as ->.
  - apply IH.
Qed.

(** C6: for a record of an array that [normalize] accepts, the part is one
    of ["preamble"], ["article"] and ["amendment"]: ["preamble"] when the
    type is; else ["amendment"] when the type is or the id matches
    [/^amend\d+-/]; else ["article"].  The amendment number is not null
    exactly when the id matches [/^amend(\d+)-/] and is then the number of
    the group. *)
Theorem normalize_part_and_amendmentNumber (records : list json)
    (entries : list NormalizedEntry) (record : json) :
  normalize (JArr records) = Ok entries → record ∈ records →
  ∃ entry, entry ∈ entries ∧ normalizeEntry record = Ok entry ∧
    let id' := JSValue.stringOrEmpty (JSValue.get record (js "id")) in
    let type' := JSValue.stringOrEmpty (JSValue.get record (js "type")) in
    id entry = id' ∧ type entry = type' ∧
    part entry ∈ [js "preamble"; js "article"; js "amendment"] ∧
    (type' = js "preamble" → part entry = js "preamble") ∧
    (type' ≠ js "preamble" →
       type' = js "amendment" ∨ (∃ digits, matchesAmend id' digits) →
       part entry = js "amendment") ∧
    (type' ≠ js "preamble" → type' ≠ js "amendment" →
       (¬ ∃ digits, matchesAmend id' digits) → part entry = js "article") ∧
    (∀ digits, matchesAmend id' digits →
       amendmentNumber entry = Some (StringToNumber digits)) ∧
    (amendmentNumber entry ≠ None ↔ ∃ digits, matchesAmend id' digits).
Proof.
  intros Hnormalize Hrecord.
  destruct (normalize_record _ _ _ Hnormalize Hrecord) as (entry & ? & Hentry).
  exists entry. do 2 (split; [done|]).
  apply normalizeEntry_Ok in Hentry as (_ & Hid & Htype & _ & _ & Hpart & Hnum & _).
  unfold rawId, rawType in *.
  set (id' := JSValue.stringOrEmpty (JSValue.get record (js "id"))) in *.
  set (type' := JSValue.stringOrEmpty (JSValue.get record (js "type"))) in *.
  rewrite Hpart, Hnum. unfold getPart, getAmendmentNumber.
  do 2 (split; [done|]).
  destruct (execAmend id') as [digits|] eqn:Hexec.
  - apply execAmend_Some in Hexec as Hmatches.
    assert (bool_decide (is_Some (Some digits)) = true) as -> by by apply bool_decide_eq_true.
    rewrite orb_true_r. split_and!.
    + case_bool_decide; compute_done.
    + by intros ->.
    + intros Hne _. by rewrite bool_decide_false.
    + intros _ _ []. by exists digits.
    + intros digits' Hd%execAmend_Some. congruence.
    + split; [by exists digits|done].
  - apply execAmend_None in Hexec as Hno.
    assert (bool_decide (is_Some (@None jsstring)) = false) as ->.
    { apply bool_decide_eq_false. by intros [? [=]]. }
    rewrite orb_false_r. split_and!.
    + repeat case_bool_decide; compute_done.
    + by intros ->.
    + intros Hne [->|?]; [|done]. by rewrite bool_decide_false.
    + intros ???. by rewrite !bool_decide_false.
    + intros digits ?. destruct Hno. by exists digits.
    + split; [done|]. intros ?. by destruct Hno.
Qed.

(** C4, amended: for a record of an array that [normalize] accepts,
    [isRepealed] is true exactly when the raw [repealedOn] is neither
    undefined nor null; the normalized [repealedOn] is not null exactly when
    the raw one is a string that is not empty, and then [isRepealed] is
    true. *)
Theorem normalize_isRepealed_from_raw_field (records : list json)
    (entries : list NormalizedEntry) (record : json) :
  normalize (JArr records) = Ok entries → record ∈ records →
  ∃ entry, entry ∈ entries ∧ normalizeEntry record = Ok entry ∧
    (isRepealed entry = true ↔
       JSValue.get record (js "repealedOn") ≠ None ∧
       JSValue.get record (js "repealedOn") ≠ Some JNull) ∧
    (repealedOn entry ≠ None ↔
       ∃ c s, JSValue.get record (js "repealedOn") = Some (JStr (c :: s))) ∧
    (repealedOn entry ≠ None → isRepealed entry = true).
Proof.
  intros Hnormalize Hrecord.
  destruct (normalize_record _ _ _ Hnormalize Hrecord) as (entry & ? & Hentry).
  exists entry. do 2 (split; [done|]).
  apply normalizeEntry_Ok in Hentry as (_ & _ & _ & _ & _ & _ & _ & -> & ->).
  destruct (JSValue.get record (js "repealedOn")) as [[| | |[|c s]| |]|]; simpl;
    split_and!; try done; split; try done; try (by intros []);
    try (by intros (? & ? & [=])); eauto.
Qed.

End Normalize.


(** ** [buildToc] *)

Lemma elem_of_setAdd {A} `{EqDecision A} (s : list A) x y :
  y ∈ JSArray.setAdd s x ↔ y ∈ s ∨ y = x.
Proof.
  unfold JSArray.setAdd. case_bool_decide.
  - split; [by left|]. by intros [?| ->].
  - by rewrite elem_of_app, list_elem_of_singleton.
Qed.

Lemma NoDup_setAdd {A} `{EqDecision A} (s : list A) x :
  NoDup s → NoDup (JSArray.setAdd s x).
Proof.
  unfold JSArray.setAdd. case_bool_decide; [done|].
  intros. apply NoDup_app. split_and!; [done| |apply NoDup_singleton].
  by intros y ? ->%list_elem_of_singleton.
Qed.

Section Toc.
Context `{Platform}.

Lemma tocScan_snoc entries entry :
  tocScan (entries ++ [entry]) =
  let '(hasPreamble, articleNumbers, amendmentNumbers) := tocScan entries in
  (if bool_decide (part entry = js "preamble") then true else hasPreamble,
   match article entry with
   | Some n =>
       if bool_decide (part entry = js "article")
       then JSArray.setAdd articleNumbers n else articleNumbers
   | None => articleNumbers
   end,
   match amendmentNumber entry with
   | Some n =>
       if bool_decide (part entry = js "amendment")
       then JSArray.setAdd amendmentNumbers n else amendmentNumbers
   | None => amendmentNumbers
   end).
Proof.
  unfold tocScan. rewrite foldl_snoc.
  by destruct (foldl _ _ entries) as [[??]?].
Qed.

Lemma tocScan_spec entries :
  let '(hasPreamble, articleNumbers, amendmentNumbers) := tocScan entries in
  (hasPreamble = true ↔ ∃ e, e ∈ entries ∧ part e = js "preamble") ∧
  NoDup articleNumbers ∧
  (∀ n, n ∈ articleNumbers ↔
        ∃ e, e ∈ entries ∧ part e = js "article" ∧ article e = Some n) ∧
  NoDup amendmentNumbers ∧
  (∀ n, n ∈ amendmentNumbers ↔
        ∃ e, e ∈ entries ∧ part e = js "amendment" ∧ amendmentNumber e = Some n).
Proof.
  induction entries as [|entry entries IH] using rev_ind.
  { simpl. split_and!; try apply NoDup_nil_2.
    - split; [done|]. by intros (? & ?%elem_of_nil & _).
    - intros n. split; [by intros ?%elem_of_nil|]. by intros (? & ?%elem_of_nil & _).
    - intros n. split; [by intros ?%elem_of_nil|]. by intros (? & ?%elem_of_nil & _). }
  rewrite tocScan_snoc.
  destruct (tocScan entries) as [[hasPreamble articleNumbers] amendmentNumbers].
  destruct IH as (Hpre & Hnodup1 & Harts & Hnodup2 & Hamds).
  assert (∀ P : NormalizedEntry → Prop,
    (∃ e, e ∈ entries ++ [entry] ∧ P e) ↔ (∃ e, e ∈ entries ∧ P e) ∨ P entry) as Hsnoc.
  { intros P. split.
    - intros (e & [?| ->%list_elem_of_singleton]%elem_of_app & ?); eauto.
    - intros [(e & ? & ?)|?]; [exists e|exists entry]; rewrite elem_of_app;
        (split; [|done]); [by left|right; by apply list_elem_of_singleton]. }
  split_and!.
  - rewrite Hsnoc, <-Hpre. case_bool_decide; naive_solver.
  - destruct (article entry); [case_bool_decide|]; try done. by apply NoDup_setAdd.
  - intros n. rewrite Hsnoc, <-Harts.
    destruct (article entry) as [m|]; [case_bool_decide|];
      rewrite ?elem_of_setAdd; naive_solver.
  - destruct (amendmentNumber entry); [case_bool_decide|]; try done. by apply NoDup_setAdd.
  - intros n. rewrite Hsnoc, <-Hamds.
    destruct (amendmentNumber entry) as [m|]; [case_bool_decide|];
      rewrite ?elem_of_setAdd; naive_solver.
Qed.




End Toc.


(** ** [injectGenerated] *)

Lemma parsePattern_more fuel fuel' source atoms :
  parsePattern fuel source = Some atoms → (fuel ≤ fuel')%nat →
  parsePattern fuel' source = Some atoms.
Proof.
  revert fuel' source atoms. induction fuel as [|fuel IH]; intros fuel' source atoms; [done|].
  destruct fuel' as [|fuel']; [lia|]. intros Hparse Hle.
  assert (fuel ≤ fuel')%nat as Hle' by lia. clear Hle.
  cbn [parsePattern] in *. destruct source as [|c rest]; [done|].
  destruct (c =? 92).
  - destruct rest as [|d rest']; [done|]. destruct (isSyntaxCharacter d); [|done].
    destruct (parsePattern fuel rest') as [atoms'|] eqn:Hrest; [|done].
    by rewrite (IH _ _ _ Hrest Hle').
  - destruct (JSString.stripPrefix _ _) as [rest'|].
    + destruct (parsePattern fuel rest') as [atoms'|] eqn:Hrest; [|done].
      by rewrite (IH _ _ _ Hrest Hle').
    + destruct (isSyntaxCharacter c); [done|].
      destruct (parsePattern fuel rest) as [atoms'|] eqn:Hrest; [|done].
      by rewrite (IH _ _ _ Hrest Hle').
Qed.

Lemma stripPrefix_lazy_None c rest :
  isSyntaxCharacter c = false →
  JSString.stripPrefix (js "[\s\S]*?") (c :: rest) = None.
Proof.
  intros Hc. change (js "[\s\S]*?") with (91 :: js "\s\S]*?").
  cbn [JSString.stripPrefix]. case_bool_decide as H91; [|done].
  subst c. by vm_compute in Hc.
Qed.

Lemma parsePattern_escapeRegex value tail atoms fuel :
  parsePattern fuel tail = Some atoms →
  ∃ fuel', parsePattern fuel' (escapeRegex value ++ tail) = Some ((Char <$> value) ++ atoms).
Proof.
  intros Htail. induction value as [|c value [fuel' IH]]; [by exists fuel|].
  exists (S fuel'). cbn [escapeRegex fmap list_fmap app].
  destruct (isSyntaxCharacter c) eqn:Hc; cbn [parsePattern app].
  - by rewrite Hc, IH.
  - destruct (N.eqb_spec c 92) as [->|_]; [by vm_compute in Hc|].
    by rewrite stripPrefix_lazy_None, Hc, IH.
Qed.

Lemma parsePattern_enough fuel source atoms :
  parsePattern fuel source = Some atoms →
  parsePattern (S (length source)) source = Some atoms.
Proof.
  revert source atoms. induction fuel as [|fuel IH]; intros source atoms; [done|].
  cbn [parsePattern]. destruct source as [|c rest]; [done|].
  destruct (c =? 92).
  - destruct rest as [|d rest']; [done|]. destruct (isSyntaxCharacter d); [|done].
    destruct (parsePattern fuel rest') as [atoms'|] eqn:Hrest; [|done].
    apply IH in Hrest. intros [= <-].
    erewrite parsePattern_more; [done|done|]. simpl. lia.
  - destruct (JSString.stripPrefix _ _) as [rest'|] eqn:Hstrip.
    + destruct (parsePattern fuel rest') as [atoms'|] eqn:Hrest; [|done].
      apply IH in Hrest. intros [= <-].
      apply stripPrefix_Some in Hstrip.
      erewrite parsePattern_more; [done|done|].
      rewrite Hstrip, length_app. simpl. lia.
    + destruct (isSyntaxCharacter c); [done|].
      destruct (parsePattern fuel rest) as [atoms'|] eqn:Hrest; [|done].
      apply IH in Hrest. intros [= <-].
      erewrite parsePattern_more; [done|done|]. simpl. lia.
Qed.

Lemma RegExp_markers startMarker endMarker :
  RegExp (escapeRegex startMarker ++ js "[\s\S]*?" ++ escapeRegex endMarker) =
  Some (markerPattern startMarker endMarker).
Proof.
  unfold RegExp, markerPattern.
  destruct (parsePattern_escapeRegex endMarker [] [] 1 eq_refl) as [fuel1 H1].
  rewrite !(right_id_L [] (++)) in H1.
  assert (parsePattern (S fuel1) (js "[\s\S]*?" ++ escapeRegex endMarker)
          = Some (AnyLazy :: (Char <$> endMarker))) as H2.
  { change (js "[\s\S]*?" ++ escapeRegex endMarker)
      with (91 :: js "\s\S]*?" ++ escapeRegex endMarker).
    cbn [parsePattern]. change (91 =? 92) with false. cbv iota.
    replace (JSString.stripPrefix _ _) with (Some (escapeRegex endMarker)); [by rewrite H1|].
    symmetry. by apply stripPrefix_Some. }
  destruct (parsePattern_escapeRegex startMarker _ _ _ H2) as [fuel2 H3].
  by apply (parsePattern_enough fuel2).
Qed.

Lemma matchHere_chars s atoms str :
  matchHere ((Char <$> s) ++ atoms) str = JSString.stripPrefix s str ≫= matchHere atoms.
Proof.
  revert str. induction s as [|c s IH]; intros str.
  { by destruct str. }
  destruct str as [|d str]; cbn [fmap list_fmap app matchHere JSString.stripPrefix]; [done|].
  by case_bool_decide.
Qed.

Lemma matchHere_lazy atoms str :
  matchHere (AnyLazy :: atoms) str =
  match matchHere atoms str with
  | Some rest => Some rest
  | None =>
      match str with
      | [] => None
      | _ :: str' => matchHere (AnyLazy :: atoms) str'
      end
  end.
Proof. by destruct str. Qed.

Lemma matchHere_only_chars s str :
  matchHere (Char <$> s) str = JSString.stripPrefix s str.
Proof.
  rewrite <-(right_id_L [] (++) (Char <$> s)), matchHere_chars.
  by destruct (JSString.stripPrefix s str).
Qed.

Lemma matchHere_lazy_end endMarker s :
  match matchHere (AnyLazy :: (Char <$> endMarker)) s with
  | Some after => ∃ middle, nearestEnd endMarker s middle after
  | None => ∀ middle after, s ≠ middle ++ endMarker ++ after
  end.
Proof.
  unfold nearestEnd.
  induction s as [|c s IH]; rewrite matchHere_lazy, matchHere_only_chars;
    destruct (JSString.stripPrefix endMarker _) as [after|] eqn:Hhead.
  - apply stripPrefix_Some in Hhead. exists []. split; [done|]. simpl. lia.
  - intros middle after Heq. symmetry in Heq.
    apply app_eq_nil in Heq as [-> Heq]. simpl in Heq.
    assert (JSString.stripPrefix endMarker [] = Some after) by by apply stripPrefix_Some.
    congruence.
  - apply stripPrefix_Some in Hhead. exists []. split; [done|]. simpl. lia.
  - assert (∀ middle after, c :: s = middle ++ endMarker ++ after →
              ∃ middle', middle = c :: middle' ∧ s = middle' ++ endMarker ++ after) as Hcons.
    { intros [|c' middle'] after Heq; simpl in Heq.
      - assert (JSString.stripPrefix endMarker (c :: s) = Some after)
          by by apply stripPrefix_Some.
        congruence.
      - injection Heq as <- ->. by eexists. }
    destruct (matchHere _ s) as [after|]; cbv beta iota in IH.
    + destruct IH as (middle & -> & Hmin). exists (c :: middle). split; [done|].
      intros middle' after' (middle'' & -> & Heq)%Hcons. simpl.
      apply Hmin in Heq. lia.
    + intros middle after (middle' & -> & Heq)%Hcons. by apply IH in Heq.
Qed.

Lemma search_markers startMarker endMarker s :
  match search (markerPattern startMarker endMarker) s with
  | Some (before, after) =>
      ∃ middle, s = before ++ startMarker ++ middle ++ endMarker ++ after ∧
        nearestEnd endMarker (middle ++ endMarker ++ after) middle after ∧
        ∀ before' middle' after',
          s = before' ++ startMarker ++ middle' ++ endMarker ++ after' →
          (length before ≤ length before')%nat
  | None => ¬ hasMarkerPair s startMarker endMarker
  end.
Proof.
  unfold markerPattern.
  assert (∀ s,
    match matchHere ((Char <$> startMarker) ++ AnyLazy :: (Char <$> endMarker)) s with
    | Some after =>
        ∃ middle, s = startMarker ++ middle ++ endMarker ++ after ∧
          nearestEnd endMarker (middle ++ endMarker ++ after) middle after
    | None => ∀ middle after, s ≠ startMarker ++ middle ++ endMarker ++ after
    end) as Hhead.
  { clear s. intros s. rewrite matchHere_chars.
    destruct (JSString.stripPrefix startMarker s) as [rest|] eqn:Hstart;
      cbn [mbind option_bind].
    - apply stripPrefix_Some in Hstart as ->.
      pose proof (matchHere_lazy_end endMarker rest) as Hend.
      destruct (matchHere _ rest) as [after|]; cbv beta iota in Hend.
      + destruct Hend as (middle & Hnear). exists middle.
        pose proof Hnear as [-> _]. by split.
      + intros middle after ?%(inj (app startMarker)). by eapply Hend.
    - intros middle after ->.
      assert (JSString.stripPrefix startMarker
                (startMarker ++ middle ++ endMarker ++ after) = Some (middle ++ endMarker ++ after))
        by by apply stripPrefix_Some.
      congruence. }
  induction s as [|c s IH]; cbn [search]; specialize (Hhead) as Hhere.
  - specialize (Hhere []). destruct (matchHere _ []) as [after|]; cbv beta iota in Hhere.
    + destruct Hhere as (middle & ? & ?). exists middle. split_and!; [done..|].
      simpl. lia.
    + intros (before & middle & after & Heq). symmetry in Heq.
      apply app_eq_nil in Heq as [-> Heq]. by eapply Hhere.
  - specialize (Hhere (c :: s)).
    destruct (matchHere _ (c :: s)) as [after|]; cbv beta iota in Hhere.
    + destruct Hhere as (middle & ? & ?). exists middle. split_and!; [done..|].
      simpl. lia.
    + assert (∀ before middle after,
        c :: s = before ++ startMarker ++ middle ++ endMarker ++ after →
        ∃ before', before = c :: before' ∧
          s = before' ++ startMarker ++ middle ++ endMarker ++ after) as Hcons.
      { intros [|c' before'] middle after Heq; simpl in Heq.
        - by apply Hhere in Heq.
        - injection Heq as <- ->. by eexists. }
      destruct (search _ s) as [[before after]|]; cbv beta iota in IH.
      * destruct IH as (middle & -> & Hnear & Hleft). exists middle.
        split_and!; [done..|].
        intros before' middle' after' (before'' & -> & Heq)%Hcons. simpl.
        apply Hleft in Heq. lia.
      * intros (before & middle & after & (before' & -> & Heq)%Hcons).
        apply IH. by exists before', middle, after.
Qed.

Lemma getSubstitution_plain matched before after template :
  36 ∉ template → getSubstitution matched before after template = template.
Proof.
  induction template as [|c template IH]; [done|].
  intros [Hc Htemplate]%not_elem_of_cons. cbn [getSubstitution].
  destruct (N.eqb_spec c 36); [done|]. by rewrite IH.
Qed.

(** What [injectGenerated] does, [$] in the replacement text included. *)
Lemma injectGenerated_spec sourceHtml startMarker endMarker content :
  match injectGenerated sourceHtml startMarker endMarker content with
  | Throw PatternSyntaxError => False
  | Throw MissingMarkerPair => ¬ hasMarkerPair sourceHtml startMarker endMarker
  | Ok result =>
      ∃ before middle after,
        sourceHtml = before ++ startMarker ++ middle ++ endMarker ++ after ∧
        nearestEnd endMarker (middle ++ endMarker ++ after) middle after ∧
        (∀ before' middle' after',
           sourceHtml = before' ++ startMarker ++ middle' ++ endMarker ++ after' →
           (length before ≤ length before')%nat) ∧
        result =
          before ++
          getSubstitution (startMarker ++ middle ++ endMarker) before after
            (startMarker ++ LF ++ content ++ LF ++ endMarker) ++
          after
  end.
Proof.
  unfold injectGenerated. rewrite RegExp_markers.
  pose proof (search_markers startMarker endMarker sourceHtml) as Hsearch.
  destruct (search _ sourceHtml) as [[before after]|]; [|done].
  destruct Hsearch as (middle & -> & Hnear & Hleft).
  exists before, middle, after. split_and!; [done..|].
  do 3 f_equal.
  rewrite drop_app_length.
  replace (length (before ++ _) - length before - length after)%nat
    with (length (startMarker ++ middle ++ endMarker)).
  - by rewrite !(assoc_L (++)), take_app_length.
  - rewrite !length_app. lia.
Qed.

(** Where the replacement text holds no dollar, the region between the
    markers is replaced by the markers around [content]. *)
Lemma injectGenerated_without_dollar sourceHtml startMarker endMarker content result :
  36 ∉ startMarker ++ LF ++ content ++ LF ++ endMarker →
  injectGenerated sourceHtml startMarker endMarker content = Ok result →
  ∃ before middle after,
    sourceHtml = before ++ startMarker ++ middle ++ endMarker ++ after ∧
    nearestEnd endMarker (middle ++ endMarker ++ after) middle after ∧
    (∀ before' middle' after',
       sourceHtml = before' ++ startMarker ++ middle' ++ endMarker ++ after' →
       (length before ≤ length before')%nat) ∧
    result = before ++ (startMarker ++ LF ++ content ++ LF ++ endMarker) ++ after.
Proof.
  intros Hplain Hresult.
  pose proof (injectGenerated_spec sourceHtml startMarker endMarker content) as Hspec.
  rewrite Hresult in Hspec. destruct Hspec as (before & middle & after & ? & ? & ? & ->).
  exists before, middle, after. by rewrite getSubstitution_plain.
Qed.

(** C5: [injectGenerated] on a content that holds [$&], here what
    [escapeHtml] leaves of the text [Fee: $& up]: the text between the
    markers is not replaced by the content, the [$&] of the content becomes
    the whole region that was matched. *)
Theorem injectGenerated_expands_dollar_patterns :
  let contentStart := js "<!-- GENERATED_CONTENT_START -->" in
  let contentEnd := js "<!-- GENERATED_CONTENT_END -->" in
  let sourceHtml := js "<main>" ++ contentStart ++ js "old" ++ contentEnd ++ js "</main>" in
  let content := js "<p>" ++ escapeHtml (js "Fee: $& up") ++ js "</p>" in
  content = js "<p>Fee: $&amp; up</p>" ∧
  injectGenerated sourceHtml contentStart contentEnd content =
    Ok (js "<main>" ++ contentStart ++ LF ++
        js "<p>Fee: " ++ (contentStart ++ js "old" ++ contentEnd) ++ js "amp; up</p>" ++
        LF ++ contentEnd ++ js "</main>") ∧
  injectGenerated sourceHtml contentStart contentEnd content ≠
    Ok (js "<main>" ++ contentStart ++ LF ++ content ++ LF ++ contentEnd ++ js "</main>").
Proof. split_and!; [by vm_compute..|]. vm_compute. by intros [=]. Qed.


(** ** Examples *)

Lemma sample_normalized :
  normalize (H := Reference.platform) (JArr Sample.data) = Ok Sample.entries.
Proof. by vm_compute. Qed.

(** C2, witness. *)
Lemma normalize_sorted_by_position_witness :
  normalize (H := Reference.platform) (JArr Sample.data) = Ok Sample.entries ∧
  ∃ a b, Sample.entries !! 0%nat = Some a ∧ Sample.entries !! 1%nat = Some b ∧
         JSNumber.leb (position a) (position b) = true.
Proof.
  assert (normalize (H := Reference.platform) (JArr Sample.data) = Ok Sample.entries)
    as Hnormalize by (vm_compute; reflexivity).
  split; [exact Hnormalize|].
  eexists _, _. split; [reflexivity|]. split; [reflexivity|].
  exact (normalize_sorted_by_position (H := Reference.platform) _ _ Hnormalize 0%nat _ _
           eq_refl eq_refl).
Defined.

(** C6, witness. *)
Lemma normalize_part_and_amendmentNumber_witness :
  normalize (H := Reference.platform) (JArr Sample.data) = Ok Sample.entries ∧
  Sample.amendment18 ∈ Sample.data ∧
  ∃ entry, entry ∈ Sample.entries ∧
    part entry = js "amendment" ∧
    amendmentNumber entry = Some (StringToNumber (Platform := Reference.platform) (js "18")).
Proof.
  assert (normalize (H := Reference.platform) (JArr Sample.data) = Ok Sample.entries)
    as Hnormalize by (vm_compute; reflexivity).
  assert (Sample.amendment18 ∈ Sample.data) as Hrecord by constructor.
  split; [exact Hnormalize|]. split; [exact Hrecord|].
  destruct (normalize_part_and_amendmentNumber (H := Reference.platform) _ _ _
              Hnormalize Hrecord)
    as (entry & Hentry & _ & _ & _ & _ & _ & Hamendment & _ & Hnumber & _).
  exists entry. split; [exact Hentry|]. split.
  - apply Hamendment; [by vm_compute|]. right. exists (js "18").
    split_and!; [by vm_compute|repeat constructor|by exists (js "s1")].
  - apply Hnumber. split_and!; [by vm_compute|repeat constructor|by exists (js "s1")].
Defined.

(** C4, counterexample: a record whose [repealedOn] is the empty string
    is normalized to an entry with [isRepealed] true and [repealedOn]
    null. *)
Lemma isRepealed_without_repeal_date :
  ∃ entry,
    normalize (H := Reference.platform) (JArr [Sample.amendment21]) = Ok [entry] ∧
    isRepealed entry = true ∧ repealedOn entry = None ∧
    ¬ (isRepealed entry = true ↔ repealedOn entry ≠ None).
Proof.
  eexists. split; [by vm_compute|]. cbn [isRepealed repealedOn].
  split_and!; [done..|]. by intros [Hrepealed _]; destruct (Hrepealed eq_refl).
Qed.

(** C4, witness. *)
Lemma normalize_isRepealed_from_raw_field_witness :
  normalize (H := Reference.platform) (JArr Sample.data) = Ok Sample.entries ∧
  Sample.amendment18 ∈ Sample.data ∧
  ∃ entry, entry ∈ Sample.entries ∧ isRepealed entry = true.
Proof.
  assert (normalize (H := Reference.platform) (JArr Sample.data) = Ok Sample.entries)
    as Hnormalize by (vm_compute; reflexivity).
  assert (Sample.amendment18 ∈ Sample.data) as Hrecord by constructor.
  split; [exact Hnormalize|]. split; [exact Hrecord|].
  destruct (normalize_isRepealed_from_raw_field (H := Reference.platform) _ _ _
              Hnormalize Hrecord) as (entry & Hentry & _ & Hrepealed & _).
  exists entry. split; [exact Hentry|]. apply Hrepealed. by vm_compute.
Defined.


End BuildFacts.

(** ** The filter *)

Module AppFacts.
Import Web App AppSpec.

(** ** [matchesEntry] *)



Section Matches.
Context `{Platform}.

Lemma differs_false value n :
  differs value n = false ↔ ∃ m, value = Some m ∧ JSNumber.strictEq m n = true.
Proof.
  destruct value as [m|]; simpl.
  - rewrite negb_false_iff. split; [by exists m|by intros (? & [= <-] & ?)].
  - split; [done|by intros (? & [=] & _)].
Qed.




End Matches.



(** ** [sanitizeState] *)

Lemma trimStart_head s :
  match JSString.trimStart s with
  | c :: _ => JSString.isWhiteSpace c = false
  | [] => True
  end.
Proof.
  induction s as [|c s IH]; cbn [JSString.trimStart]; [done|].
  destruct (JSString.isWhiteSpace c) eqn:Hc; [done|]. exact Hc.
Qed.

Lemma trimStart_id s :
  match s with c :: _ => JSString.isWhiteSpace c = false | [] => True end →
  JSString.trimStart s = s.
Proof. destruct s as [|c s]; [done|]. cbn [JSString.trimStart]. by intros ->. Qed.

Lemma trimStart_suffix s : JSString.trimStart s `suffix_of` s.
Proof.
  induction s as [|c s IH]; cbn [JSString.trimStart]; [done|].
  destruct (JSString.isWhiteSpace c); [by apply suffix_cons_r|done].
Qed.

Lemma trim_trimmed s : trimmed (JSString.trim s).
Proof.
  unfold trimmed, JSString.trim, JSString.trimEnd. rewrite reverse_involutive.
  split; [|apply trimStart_head].
  pose proof (trimStart_head s) as Hhead.
  destruct (trimStart_suffix (reverse (JSString.trimStart s))) as [ws Hws].
  apply (f_equal reverse) in Hws. rewrite reverse_involutive, reverse_app in Hws.
  destruct (reverse (JSString.trimStart (reverse (JSString.trimStart s)))) as [|c u]; [done|].
  rewrite Hws in Hhead. exact Hhead.
Qed.

Lemma trimmed_trim s : trimmed s → JSString.trim s = s.
Proof.
  intros [Hhead Hlast]. unfold JSString.trim, JSString.trimEnd.
  rewrite (trimStart_id s Hhead), (trimStart_id (reverse s) Hlast).
  apply reverse_involutive.
Qed.

Lemma trim_idemp s : JSString.trim (JSString.trim s) = JSString.trim s.
Proof. apply trimmed_trim, trim_trimmed. Qed.



(** The sets that the page builds hold ["all"], whatever the index: there
    the article and the amendment of a sanitized state are members. *)
Lemma valueSets_all `{Platform} (searchIndex : list IndexEntry) :
  js "all" ∈ (valueSets searchIndex).1 ∧ js "all" ∈ (valueSets searchIndex).2.
Proof.
  unfold valueSets.
  match goal with |- context [foldl ?f _ _] => set (add := f) end.
  enough (∀ articleValues amendmentValues,
            js "all" ∈ articleValues → js "all" ∈ amendmentValues →
            js "all" ∈ (foldl add (articleValues, amendmentValues) searchIndex).1 ∧
            js "all" ∈ (foldl add (articleValues, amendmentValues) searchIndex).2)
    as Hfold by (apply Hfold; constructor).
  induction searchIndex as [|entry searchIndex IH]; intros; [done|].
  cbn [foldl]. subst add. cbv beta iota. apply IH.
  - destruct (entry_article entry); [|done].
    apply BuildFacts.elem_of_setAdd. by left.
  - destruct (entry_amendmentNumber entry); [|done].
    apply BuildFacts.elem_of_setAdd. by left.
Qed.

Lemma sanitizeState_within_valueSets `{Platform} (searchIndex : list IndexEntry)
    (raw : RawState) :
  let '(articleValues, amendmentValues) := valueSets searchIndex in
  let state := sanitizeState raw articleValues amendmentValues in
  article state ∈ articleValues ∧ amendment state ∈ amendmentValues.
Proof.
  destruct (valueSets_all searchIndex) as [Harticle Hamendment].
  destruct (valueSets searchIndex) as [articleValues amendmentValues].
  unfold sanitizeState. cbn [article amendment fst snd DEFAULTS] in *.
  split; by case_bool_decide.
Qed.


(** ** Strings through a URL *)

Lemma toScalarValues_wellFormed s :
  isWellFormed s = true →
  Forall (λ cp, isScalarValue cp = true) (toScalarValues s) ∧
  fromScalarValues (toScalarValues s) = s.
Proof.
  remember (length s) as n eqn:Hn. revert s Hn.
  induction (lt_wf n) as [n _ IH]. intros s -> Hwf.
  destruct s as [|c s]; [by split|].
  cbn [isWellFormed toScalarValues] in *.
  destruct (isHighSurrogate c) eqn:Hhigh.
  - destruct s as [|d s]; [done|].
    apply andb_true_iff in Hwf as [Hlow Hwf]. rewrite Hlow.
    destruct (IH (length s)) with (s := s) as [Hall Heq]; [simpl; lia|done|done|].
    unfold fromScalarValues in *. rewrite bind_cons, Heq. clear Heq IH.
    unfold isHighSurrogate, isLowSurrogate in *.
    apply andb_true_iff in Hhigh as [?%N.leb_le ?%N.leb_le].
    apply andb_true_iff in Hlow as [?%N.leb_le ?%N.leb_le].
    split.
    + constructor; [|done]. unfold isScalarValue. bool_cases.
    + unfold fromCodePoint.
      assert (65536 + (c - 55296) * 1024 + (d - 56320) - 65536
              = (c - 55296) * 1024 + (d - 56320)) as -> by lia.
      destruct (N.ltb_spec (65536 + (c - 55296) * 1024 + (d - 56320)) 65536); [lia|].
      rewrite <-(N.div_unique _ 1024 (c - 55296) (d - 56320)) by lia.
      rewrite <-(N.mod_unique _ 1024 (c - 55296) (d - 56320)) by lia.
      simpl. do 2 f_equal; lia.
  - apply andb_true_iff in Hwf as [[Hlow%negb_true_iff ?%N.ltb_lt]%andb_true_iff Hwf].
    rewrite Hlow.
    destruct (IH (length s)) with (s := s) as [Hall Heq]; [simpl; lia|done|done|].
    unfold fromScalarValues in *. rewrite bind_cons, Heq. clear Heq IH.
    unfold isHighSurrogate, isLowSurrogate in *.
    split.
    + constructor; [|done]. unfold isScalarValue. bool_cases.
    + unfold fromCodePoint. by destruct (N.ltb_spec c 65536); [|lia].
Qed.

Lemma utf8EncodeOne_nested cp :
  utf8EncodeOne cp =
  if cp <? 128 then [cp]
  else if cp <? 2048 then [192 + cp / 64; 128 + cp mod 64]
  else if cp <? 65536 then
    [224 + cp / 64 / 64; 128 + (cp / 64) mod 64; 128 + cp mod 64]
  else [240 + cp / 64 / 64 / 64; 128 + (cp / 64 / 64) mod 64; 128 + (cp / 64) mod 64;
        128 + cp mod 64].
Proof. unfold utf8EncodeOne. by rewrite !N.Div0.div_div. Qed.

Lemma utf8_roundtrip_one cp rest :
  isScalarValue cp = true →
  utf8DecodeFrom utf8Initial (utf8EncodeOne cp ++ rest) =
  cp :: utf8DecodeFrom utf8Initial rest.
Proof.
  intros Hcp. rewrite utf8EncodeOne_nested. unfold isScalarValue in Hcp.
  destruct (N.ltb_spec cp 128).
  { cbn [app utf8DecodeFrom]. unfold utf8Step, utf8Lead. cbn [bytesNeeded utf8Initial].
    change (0 =? 0) with true. cbv iota.
    by destruct (N.leb_spec cp 127); [|lia]. }
  divmod64 cp. destruct (N.ltb_spec cp 2048).
  { cbn [app utf8DecodeFrom]. unfold utf8Step at 1, utf8Lead. cbn [bytesNeeded utf8Initial].
    change (0 =? 0) with true. cbv iota.
    destruct (N.leb_spec (192 + d) 127); [lia|].
    destruct (N.leb_spec 194 (192 + d)); [|lia].
    destruct (N.leb_spec (192 + d) 223); [|lia]. cbn [andb app].
    unfold utf8Step at 1.
    cbn [bytesNeeded lowerBoundary upperBoundary codePoint].
    change (1 =? 0) with false. change (1 =? 1) with true. cbv iota.
    destruct (N.leb_spec 128 (128 + m)); [|lia].
    destruct (N.leb_spec (128 + m) 191); [|lia]. cbn [andb app].
    f_equal. lia. }
  divmod64 d. destruct (N.ltb_spec cp 65536).
  { cbn [app utf8DecodeFrom]. unfold utf8Step at 1, utf8Lead. cbn [bytesNeeded utf8Initial].
    change (0 =? 0) with true. cbv iota.
    destruct (N.leb_spec (224 + d0) 127); [lia|].
    destruct (N.leb_spec 194 (224 + d0)); [|lia].
    destruct (N.leb_spec (224 + d0) 223); [lia|].
    destruct (N.leb_spec 224 (224 + d0)); [|lia].
    destruct (N.leb_spec (224 + d0) 239); [|lia]. cbn [andb app].
    unfold utf8Step at 1.
    cbn [bytesNeeded lowerBoundary upperBoundary codePoint].
    change (2 =? 0) with false. change (2 =? 1) with false. cbv iota.
    assert (((if 224 + d0 =? 224 then 160 else 128) <=? 128 + m0) = true) as ->.
    { bool_cases. }
    assert ((128 + m0 <=? (if 224 + d0 =? 237 then 159 else 191)) = true) as ->.
    { revert Hcp. bool_cases. }
    cbn [andb app]. unfold utf8Step at 1.
    cbn [bytesNeeded lowerBoundary upperBoundary codePoint].
    change (2 - 1 =? 0) with false. change (2 - 1 =? 1) with true. cbv iota.
    destruct (N.leb_spec 128 (128 + m)); [|lia].
    destruct (N.leb_spec (128 + m) 191); [|lia]. cbn [andb app].
    f_equal. lia. }
  divmod64 d0.
  assert (cp < 1114112) by (revert Hcp; bool_cases).
  cbn [app utf8DecodeFrom]. unfold utf8Step at 1, utf8Lead. cbn [bytesNeeded utf8Initial].
  change (0 =? 0) with true. cbv iota.
  destruct (N.leb_spec (240 + d1) 127); [lia|].
  destruct (N.leb_spec 194 (240 + d1)); [|lia].
  destruct (N.leb_spec (240 + d1) 223); [lia|].
  destruct (N.leb_spec 224 (240 + d1)); [|lia].
  destruct (N.leb_spec (240 + d1) 239); [lia|].
  destruct (N.leb_spec 240 (240 + d1)); [|lia].
  destruct (N.leb_spec (240 + d1) 244); [|lia]. cbn [andb app].
  unfold utf8Step at 1.
  cbn [bytesNeeded lowerBoundary upperBoundary codePoint].
  change (3 =? 0) with false. change (3 =? 1) with false. cbv iota.
  assert (((if 240 + d1 =? 240 then 144 else 128) <=? 128 + m1) = true) as ->.
  { bool_cases. }
  assert ((128 + m1 <=? (if 240 + d1 =? 244 then 143 else 191)) = true) as ->.
  { bool_cases. }
  cbn [andb app]. unfold utf8Step at 1.
  cbn [bytesNeeded lowerBoundary upperBoundary codePoint].
  change (3 - 1 =? 0) with false. change (3 - 1 =? 1) with false. cbv iota.
  destruct (N.leb_spec 128 (128 + m0)); [|lia].
  destruct (N.leb_spec (128 + m0) 191); [|lia]. cbn [andb app].
  unfold utf8Step at 1.
  cbn [bytesNeeded lowerBoundary upperBoundary codePoint].
  change (3 - 1 - 1 =? 0) with false. change (3 - 1 - 1 =? 1) with true. cbv iota.
  destruct (N.leb_spec 128 (128 + m)); [|lia].
  destruct (N.leb_spec (128 + m) 191); [|lia]. cbn [andb app].
  f_equal. lia.
Qed.

Lemma utf8_roundtrip cps :
  Forall (λ cp, isScalarValue cp = true) cps → utf8Decode (utf8Encode cps) = cps.
Proof.
  unfold utf8Decode, utf8Encode. induction 1 as [|cp cps Hcp _ IH]; [done|].
  by rewrite bind_cons, utf8_roundtrip_one, IH.
Qed.

Lemma utf8EncodeOne_bytes cp :
  isScalarValue cp = true → Forall (λ b, b < 256) (utf8EncodeOne cp).
Proof.
  intros Hcp. rewrite utf8EncodeOne_nested. unfold isScalarValue in Hcp.
  assert (cp < 1114112) by (revert Hcp; bool_cases).
  divmod64 cp. divmod64 d. divmod64 d0.
  repeat case_match; repeat constructor; bool_cases.
Qed.

Lemma utf8Encode_bytes cps :
  Forall (λ cp, isScalarValue cp = true) cps → Forall (λ b, b < 256) (utf8Encode cps).
Proof.
  unfold utf8Encode. induction 1 as [|cp cps Hcp _ IH]; [constructor|].
  rewrite bind_cons. apply Forall_app. split; [by apply utf8EncodeOne_bytes|done].
Qed.

Lemma hexValue_hexDigit n : n < 16 → hexValue (hexDigit n) = Some n.
Proof.
  intros. unfold hexValue, hexDigit.
  destruct (N.ltb_spec n 10).
  - destruct (N.leb_spec 48 (48 + n)); [|lia].
    destruct (N.leb_spec (48 + n) 57); [|lia]. simpl. f_equal. lia.
  - destruct (N.leb_spec 48 (55 + n)); [|lia].
    destruct (N.leb_spec (55 + n) 57); [lia|].
    destruct (N.leb_spec 65 (55 + n)); [|lia].
    destruct (N.leb_spec (55 + n) 70); [|lia]. simpl. f_equal. lia.
Qed.

Lemma hexDigit_encoded n : n < 16 → isEncoded (hexDigit n) = true ∧ hexDigit n ≠ 43.
Proof.
  intros. unfold hexDigit, isEncoded, isUrlencodedPlain, isAlphanumeric.
  destruct (N.ltb_spec n 10); split; try lia; bool_cases.
Qed.

Lemma urlencodeByte_encoded b :
  b < 256 → Forall (λ c, isEncoded c = true) (urlencodeByte b).
Proof.
  intros Hb. unfold urlencodeByte.
  destruct (N.eqb_spec b 32); [by repeat constructor|].
  destruct (isUrlencodedPlain b) eqn:Hplain.
  { repeat constructor. unfold isEncoded. by rewrite Hplain. }
  unfold percentEncodeByte.
  assert (b / 16 < 16) by (apply N.Div0.div_lt_upper_bound; lia).
  assert (b mod 16 < 16) by by apply N.mod_lt.
  repeat constructor; by apply hexDigit_encoded.
Qed.

Lemma percentDecode_urlencodeByte b rest :
  b < 256 →
  percentDecode (plusToSpace <$> (urlencodeByte b ++ rest)) =
  b :: percentDecode (plusToSpace <$> rest).
Proof.
  intros Hb. unfold urlencodeByte.
  destruct (N.eqb_spec b 32) as [->|]; [done|].
  destruct (isUrlencodedPlain b) eqn:Hplain.
  { assert (b ≠ 43) by (intros ->; by vm_compute in Hplain).
    assert (b ≠ 37) by (intros ->; by vm_compute in Hplain).
    cbn [app fmap list_fmap].
    assert (plusToSpace b = b) as ->
      by (unfold plusToSpace; by destruct (N.eqb_spec b 43)).
    cbn [percentDecode]. by destruct (N.eqb_spec b 37). }
  unfold percentEncodeByte.
  assert (b / 16 < 16) as Hhi by (apply N.Div0.div_lt_upper_bound; lia).
  assert (b mod 16 < 16) as Hlo by by apply N.mod_lt.
  cbn [app fmap list_fmap].
  destruct (hexDigit_encoded _ Hhi) as [_ ?], (hexDigit_encoded _ Hlo) as [_ ?].
  assert (∀ c, c ≠ 43 → plusToSpace c = c) as Hkeep.
  { intros c ?. unfold plusToSpace. by destruct (N.eqb_spec c 43). }
  rewrite !Hkeep by done.
  cbn [percentDecode]. change (37 =? 37) with true. cbv iota.
  rewrite !hexValue_hexDigit by done. f_equal.
  pose proof (N.div_mod b 16). lia.
Qed.

Lemma percentDecode_urlencode bytes :
  Forall (λ b, b < 256) bytes →
  percentDecode (plusToSpace <$> (bytes ≫= urlencodeByte)) = bytes.
Proof.
  induction 1 as [|b bytes Hb _ IH]; [done|].
  by rewrite bind_cons, percentDecode_urlencodeByte, IH.
Qed.

Lemma urlencode_encoded s :
  Forall (λ b, b < 256) (utf8Encode (toScalarValues s)) →
  Forall (λ c, isEncoded c = true) (urlencode s).
Proof.
  unfold urlencode. induction 1 as [|b bytes Hb _ IH]; [constructor|].
  rewrite bind_cons. apply Forall_app. split; [by apply urlencodeByte_encoded|done].
Qed.

(** A well-formed string comes back from its serialization. *)
Lemma urldecode_urlencode s :
  isWellFormed s = true →
  urldecode (urlencode s) = s ∧ Forall (λ c, isEncoded c = true) (urlencode s).
Proof.
  intros [Hscalar Heq]%toScalarValues_wellFormed.
  pose proof (utf8Encode_bytes _ Hscalar) as Hbytes.
  split; [|by apply urlencode_encoded].
  unfold urldecode, urlencode. fold plusToSpace.
  change (λ b, if b =? 43 then 32 else b) with plusToSpace.
  by rewrite percentDecode_urlencode, utf8_roundtrip.
Qed.

Lemma splitFirst_app sep a b :
  sep ∉ a → splitFirst sep (a ++ sep :: b) = (a, Some b).
Proof.
  induction a as [|c a IH]; intros Ha; cbn [app splitFirst].
  - by rewrite N.eqb_refl.
  - apply not_elem_of_cons in Ha as [Hc Ha].
    destruct (N.eqb_spec c sep); [done|]. by rewrite IH.
Qed.

Lemma splitFirst_none sep a :
  sep ∉ a → splitFirst sep a = (a, None).
Proof.
  induction a as [|c a IH]; intros Ha; cbn [splitFirst]; [done|].
  apply not_elem_of_cons in Ha as [Hc Ha].
  destruct (N.eqb_spec c sep); [done|]. by rewrite IH.
Qed.

Lemma splitOn_none sep a : sep ∉ a → splitOn sep a = [a].
Proof.
  induction a as [|c a IH]; intros Ha; cbn [splitOn]; [done|].
  apply not_elem_of_cons in Ha as [Hc Ha].
  destruct (N.eqb_spec c sep); [done|]. by rewrite IH.
Qed.

Lemma splitOn_app sep a b :
  sep ∉ a → splitOn sep (a ++ sep :: b) = a :: splitOn sep b.
Proof.
  induction a as [|c a IH]; intros Ha; cbn [app splitOn].
  - by rewrite N.eqb_refl.
  - apply not_elem_of_cons in Ha as [Hc Ha].
    destruct (N.eqb_spec c sep); [done|]. by rewrite IH.
Qed.

Lemma splitOn_join sep pieces :
  pieces ≠ [] → Forall (λ piece, sep ∉ piece) pieces →
  splitOn sep (JSString.join [sep] pieces) = pieces.
Proof.
  intros Hne Hall. induction Hall as [|piece pieces Hpiece Hall IH]; [done|].
  destruct pieces as [|piece' pieces].
  - by apply splitOn_none.
  - cbn [JSString.join] in *. change ([sep] ++ ?x) with (sep :: x).
    rewrite splitOn_app by done. by rewrite IH.
Qed.

Lemma encoded_not_separator s c :
  Forall (λ c, isEncoded c = true) s → isEncoded c = false → c ∉ s.
Proof.
  intros Hall Hc Hin. rewrite Forall_forall in Hall. apply Hall in Hin. congruence.
Qed.

Lemma serializePair_chars tuple :
  wellFormedPair tuple →
  Forall (λ c, isEncoded c = true ∨ c = 61) (serializePair tuple) ∧ serializePair tuple ≠ [].
Proof.
  intros [[_ Hname]%urldecode_urlencode [_ Hvalue]%urldecode_urlencode].
  unfold serializePair. change (js "=") with [61]. split; [|by destruct (urlencode _)].
  rewrite !Forall_app, Forall_singleton. split_and!.
  - eapply Forall_impl; [exact Hname|]. by left.
  - by right.
  - eapply Forall_impl; [exact Hvalue|]. by left.
Qed.

Lemma parsePair_serializePair tuple :
  wellFormedPair tuple → parsePair (serializePair tuple) = Some tuple.
Proof.
  intros Hpair. pose proof (serializePair_chars tuple Hpair) as [_ Hne].
  destruct tuple as [name value], Hpair as [Hname Hvalue]. cbn [fst snd] in *.
  unfold parsePair.
  destruct (serializePair (name, value)) as [|c piece] eqn:Hpiece; [done|].
  rewrite <-Hpiece. unfold serializePair. cbn [fst snd].
  change (js "=" ++ ?x) with (61 :: x).
  apply urldecode_urlencode in Hname as [Hname Hchars].
  apply urldecode_urlencode in Hvalue as [Hvalue _].
  rewrite splitFirst_app by by apply (encoded_not_separator _ _ Hchars).
  cbn -[urldecode urlencode]. by rewrite Hname, Hvalue.
Qed.

Lemma urlencodedParse_serialize tuples :
  Forall wellFormedPair tuples →
  urlencodedParse (urlencodedSerialize tuples) = tuples.
Proof.
  intros Hall. unfold urlencodedParse, urlencodedSerialize.
  replace (map (λ '(name, value), urlencode name ++ js "=" ++ urlencode value) tuples)
    with (serializePair <$> tuples).
  2: { apply list_fmap_ext. by intros _ [??] _. }
  fold parsePair.
  destruct (decide (tuples = [])) as [->|Hne]; [done|].
  change (js "&") with [38].
  rewrite splitOn_join.
  - induction Hall as [|tuple rest Hpair _ IH]; [done|].
    cbn [fmap list_fmap omap list_omap]. rewrite parsePair_serializePair by done.
    f_equal. destruct rest; [done|]. by apply IH.
  - by destruct tuples.
  - clear -Hall. induction Hall as [|pair rest Hpair _ IH]; constructor; [|done].
    apply serializePair_chars in Hpair as [Hchars _].
    intros Hin. rewrite Forall_forall in Hchars. by destruct (Hchars _ Hin).
Qed.

Lemma isQueryChar_range c :
  isQueryChar c = true →
  48 ≤ c ≤ 57 ∨ 65 ≤ c ≤ 90 ∨ 97 ≤ c ≤ 122 ∨
  c = 42 ∨ c = 45 ∨ c = 46 ∨ c = 95 ∨ c = 43 ∨ c = 37 ∨ c = 61 ∨ c = 38.
Proof.
  unfold isQueryChar, isEncoded, isUrlencodedPlain, isAlphanumeric.
  rewrite !orb_true_iff, !andb_true_iff, !N.leb_le, !N.eqb_eq. tauto.
Qed.

Lemma isQueryChar_facts c :
  isQueryChar c = true →
  c < 128 ∧ inSpecialQuerySet c = false ∧ (c ∉ [9; 10; 13]) ∧ c ≠ 35 ∧ c ≠ 63.
Proof.
  intros Hc%isQueryChar_range. split_and!; try lia.
  - unfold inSpecialQuerySet.
    rewrite !orb_false_iff, N.leb_gt, N.ltb_ge, !N.eqb_neq. lia.
  - rewrite !not_elem_of_cons, elem_of_nil. lia.
Qed.

Lemma urlencodedSerialize_chars tuples :
  Forall wellFormedPair tuples →
  Forall (λ c, isQueryChar c = true) (urlencodedSerialize tuples).
Proof.
  intros Hall. unfold urlencodedSerialize.
  replace (map (λ '(name, value), urlencode name ++ js "=" ++ urlencode value) tuples)
    with (serializePair <$> tuples).
  2: { apply list_fmap_ext. by intros _ [??] _. }
  assert (∀ tuple, wellFormedPair tuple →
            Forall (λ c, isQueryChar c = true) (serializePair tuple)) as Hpair.
  { intros tuple [Hchars _]%serializePair_chars. eapply Forall_impl; [exact Hchars|].
    intros c [Hc| ->]; [|done]. unfold isQueryChar. by rewrite Hc. }
  induction Hall as [|tuple rest Htuple Hrest IH]; [constructor|].
  destruct rest as [|tuple' rest]; [by apply Hpair|].
  cbn [fmap list_fmap JSString.join] in *. rewrite !Forall_app. split_and!.
  - by apply Hpair.
  - by repeat constructor.
  - apply IH.
Qed.

Lemma toScalarValues_ascii s :
  Forall (λ c, c < 128) s → toScalarValues s = s ∧ utf8Encode s = s.
Proof.
  unfold utf8Encode. induction 1 as [|c s Hc _ [IH1 IH2]]; [done|].
  cbn [toScalarValues]. rewrite bind_cons, IH1, IH2.
  unfold isHighSurrogate, isLowSurrogate, utf8EncodeOne.
  destruct (N.leb_spec 55296 c); [lia|]. destruct (N.leb_spec 56320 c); [lia|].
  by destruct (N.ltb_spec c 128); [|lia].
Qed.

Lemma queryEncode_id query :
  Forall (λ c, isQueryChar c = true) query → queryEncode query = query.
Proof.
  intros Hall. unfold queryEncode.
  destruct (toScalarValues_ascii query) as [-> _].
  { eapply Forall_impl; [exact Hall|]. by intros c (? & _)%isQueryChar_facts. }
  induction Hall as [|c query Hc _ IH]; [done|].
  rewrite bind_cons, IH. by destruct (isQueryChar_facts c Hc) as (_ & -> & _).
Qed.

Lemma filter_all {A} (P : A → Prop) `{∀ x, Decision (P x)} (l : list A) :
  Forall P l → filter P l = l.
Proof.
  induction 1 as [|x l Hx _ IH]; [done|].
  by rewrite filter_cons_True, IH.
Qed.

Lemma searchAfterReplaceState_query pathname hash query :
  locationParts pathname hash →
  Forall (λ c, isQueryChar c = true) query →
  searchAfterReplaceState
    (pathname ++ (if bool_decide (query ≠ []) then js "?" ++ query else []) ++ hash) =
  if bool_decide (query ≠ []) then js "?" ++ query else [].
Proof.
  intros (_ & Hpath & Hhash & Hfragment) Hquery. unfold searchAfterReplaceState.
  set (search := if bool_decide (query ≠ []) then js "?" ++ query else []).
  assert (Forall (λ c, (c ∉ [9; 10; 13]) ∧ c ≠ 35) search) as Hsearch.
  { subst search. case_bool_decide; [|constructor].
    constructor; [split; compute_done|].
    eapply Forall_impl; [exact Hquery|]. by intros c (_ & _ & ? & ? & _)%isQueryChar_facts. }
  rewrite filter_all.
  2: { rewrite !Forall_app. split_and!; [| |done].
       - eapply Forall_impl; [exact Hpath|]. by intros c [? _].
       - eapply Forall_impl; [exact Hsearch|]. by intros c [? _]. }
  assert ((splitFirst 35 (pathname ++ search ++ hash)).1 = pathname ++ search) as ->.
  { assert (35 ∉ pathname ++ search) as Hno.
    { rewrite elem_of_app. intros [Hin|Hin].
      - rewrite Forall_forall in Hpath. by destruct (Hpath _ Hin) as (_ & ? & _).
      - rewrite Forall_forall in Hsearch. by destruct (Hsearch _ Hin) as [_ ?]. }
    rewrite (assoc_L (++)). destruct Hfragment as [->|[fragment ->]].
    - by rewrite (right_id_L [] (++)), splitFirst_none.
    - by rewrite splitFirst_app. }
  assert (63 ∉ pathname) as Hno.
  { intros Hin. rewrite Forall_forall in Hpath. by destruct (Hpath _ Hin) as (_ & _ & ?). }
  subst search. case_bool_decide as Hne.
  - change (js "?" ++ query) with (63 :: query). rewrite splitFirst_app by done.
    cbn [snd]. destruct query as [|c query]; [done|]. by rewrite queryEncode_id.
  - by rewrite (right_id_L [] (++)), splitFirst_none.
Qed.

Lemma ofString_question query :
  URLSearchParams.ofString (63 :: query) =
  urlencodedParse (utf8Encode (toScalarValues query)).
Proof. done. Qed.

Lemma ofString_serialized tuples :
  Forall wellFormedPair tuples →
  let query := URLSearchParams.toString tuples in
  URLSearchParams.ofString (if bool_decide (query ≠ []) then js "?" ++ query else []) =
  tuples.
Proof.
  intros Hall query. subst query. unfold URLSearchParams.toString.
  pose proof (urlencodedSerialize_chars tuples Hall) as Hchars.
  pose proof (urlencodedParse_serialize tuples Hall) as Hparse.
  destruct (toScalarValues_ascii (urlencodedSerialize tuples)) as [Hscalar Hutf8].
  { eapply Forall_impl; [exact Hchars|]. by intros c (? & _)%isQueryChar_facts. }
  case_bool_decide as Hne.
  - change (js "?" ++ ?x) with (63 :: x).
    by rewrite ofString_question, Hscalar, Hutf8.
  - rewrite Hne in Hparse. by rewrite <-Hparse.
Qed.

(** ** The filter state through the URL *)

Lemma set_fresh params name value :
  isWellFormed name = true → isWellFormed value = true → name ∉ params.*1 →
  URLSearchParams.set params name value = params ++ [(name, value)].
Proof.
  intros [_ Hname]%toScalarValues_wellFormed [_ Hvalue]%toScalarValues_wellFormed Hfresh.
  unfold URLSearchParams.set. rewrite Hname, Hvalue.
  induction params as [|[n v] params IH]; [done|].
  cbn [fmap list_fmap fst] in Hfresh. apply not_elem_of_cons in Hfresh as [Hn Hfresh].
  rewrite bool_decide_false by done. cbn [app]. f_equal. by apply IH.
Qed.

Lemma allowedParts_wellFormed value :
  value ∈ allowedParts → isWellFormed value = true ∧ value ≠ [].
Proof.
  unfold allowedParts. rewrite !elem_of_cons, elem_of_nil.
  intros [->|[->|[->|[->|[]]]]]; by vm_compute.
Qed.

Lemma allowedStatus_wellFormed value :
  value ∈ allowedStatus → isWellFormed value = true ∧ value ≠ [].
Proof.
  unfold allowedStatus. rewrite !elem_of_cons, elem_of_nil.
  intros [->|[->|[->|[]]]]; by vm_compute.
Qed.

Lemma stateParams_eq state articleValues amendmentValues :
  sanitized state articleValues amendmentValues → urlSafe state →
  stateParams state =
    param (js "q") (q state) [] ++ param (js "part") (part state) (js "all") ++
    param (js "article") (article state) (js "all") ++
    param (js "amendment") (amendment state) (js "all") ++
    param (js "status") (status state) (js "all") ∧
  Forall wellFormedPair (stateParams state).
Proof.
  intros ([Hpart _]%allowedParts_wellFormed & [Hstatus _]%allowedStatus_wellFormed & _)
    (Hq & Harticle & _ & Hamendment & _).
  unfold stateParams, param, URLSearchParams.empty.
  repeat case_bool_decide;
    repeat (rewrite set_fresh; [|done|done|cbn [fmap list_fmap fst]; compute_done]);
    (split; [done|]); repeat (constructor; [by split|]); constructor.
Qed.

Lemma get_stateParams (vq vpart varticle vamendment vstatus : jsstring) :
  let params :=
    param (js "q") vq [] ++ param (js "part") vpart (js "all") ++
    param (js "article") varticle (js "all") ++
    param (js "amendment") vamendment (js "all") ++
    param (js "status") vstatus (js "all") in
  URLSearchParams.get params (js "q") = (if bool_decide (vq ≠ []) then Some vq else None) ∧
  URLSearchParams.get params (js "part") =
    (if bool_decide (vpart ≠ js "all") then Some vpart else None) ∧
  URLSearchParams.get params (js "article") =
    (if bool_decide (varticle ≠ js "all") then Some varticle else None) ∧
  URLSearchParams.get params (js "amendment") =
    (if bool_decide (vamendment ≠ js "all") then Some vamendment else None) ∧
  URLSearchParams.get params (js "status") =
    (if bool_decide (vstatus ≠ js "all") then Some vstatus else None).
Proof.
  unfold param. repeat case_bool_decide; try done; cbn [app]; split_and!; reflexivity.
Qed.

Lemma orElse_get (value fallback : jsstring) :
  value ≠ [] →
  orElse (if bool_decide (value ≠ fallback) then Some value else None) fallback = value.
Proof.
  intros Hne. case_bool_decide as Hdefault.
  - by destruct value.
  - by subst.
Qed.

(** C3, amended: a sanitized state whose [q], article and amendment have
    no unpaired surrogate, and whose article and amendment are not the
    empty string, is read back by [getStateFromParams] from the URL that
    [writeStateToUrl] leaves; a field at its default has no parameter in
    that URL. *)
Theorem state_survives_the_url (pathname hash : jsstring) (state : State)
    (articleValues amendmentValues : list jsstring) :
  locationParts pathname hash →
  sanitized state articleValues amendmentValues →
  urlSafe state →
  let search := writeStateToUrl pathname hash state in
  let params := URLSearchParams.ofString search in
  getStateFromParams search articleValues amendmentValues = state ∧
  (q state = [] → URLSearchParams.get params (js "q") = None) ∧
  (part state = js "all" → URLSearchParams.get params (js "part") = None) ∧
  (article state = js "all" → URLSearchParams.get params (js "article") = None) ∧
  (amendment state = js "all" → URLSearchParams.get params (js "amendment") = None) ∧
  (status state = js "all" → URLSearchParams.get params (js "status") = None).
Proof.
  intros Hlocation Hsanitized Hsafe search params.
  destruct (stateParams_eq _ _ _ Hsanitized Hsafe) as [Hparams Hpairs].
  assert (params = stateParams state) as Hread.
  { subst params search. unfold writeStateToUrl, stateQuery.
    rewrite searchAfterReplaceState_query;
      [|done|by apply urlencodedSerialize_chars].
    by apply ofString_serialized. }
  unfold getStateFromParams. fold search. fold params.
  rewrite Hread, Hparams. clear Hread Hparams Hpairs params search.
  destruct (get_stateParams (q state) (part state) (article state) (amendment state)
              (status state)) as (-> & -> & -> & -> & ->).
  destruct Hsanitized as (Hpart & Hstatus & Harticle & Hamendment & Htrim).
  destruct Hsafe as (_ & _ & ? & _ & ?).
  apply allowedParts_wellFormed in Hpart as Hpart'. destruct Hpart' as [_ ?].
  apply allowedStatus_wellFormed in Hstatus as Hstatus'. destruct Hstatus' as [_ ?].
  split_and!.
  - rewrite !orElse_get by done.
    assert (orElse (if bool_decide (q state ≠ []) then Some (q state) else None) []
            = q state) as ->.
    { case_bool_decide as Hq; [by destruct (q state)|]. by rewrite Hq. }
    unfold sanitizeState. cbn [raw_q raw_part raw_article raw_amendment raw_status
      default from_option id].
    rewrite !bool_decide_true by done. rewrite Htrim. by destruct state.
  - intros ->. by rewrite bool_decide_false by (by intros []).
  - intros ->. by rewrite bool_decide_false by (by intros []).
  - intros ->. by rewrite bool_decide_false by (by intros []).
  - intros ->. by rewrite bool_decide_false by (by intros []).
  - intros ->. by rewrite bool_decide_false by (by intros []).
Qed.


(** C3, counterexample: a sanitized state with an unpaired surrogate in
    [q] comes back with U+FFFD in its place, and one whose article is the
    empty string (a member of [articleValues] here) comes back with
    ["all"]. *)
Lemma state_lost_in_the_url :
  let values := [js "all"; js "1"; js "2"] in
  let surrogate := {|
    q := [55357]; part := js "all"; article := js "1"; amendment := js "all";
    status := js "all";
  |} in
  let empty := {|
    q := []; part := js "all"; article := []; amendment := js "all"; status := js "all";
  |} in
  (sanitized surrogate values values ∧
   q (getStateFromParams (writeStateToUrl (js "/") [] surrogate) values values) = [65533] ∧
   getStateFromParams (writeStateToUrl (js "/") [] surrogate) values values ≠ surrogate) ∧
  (sanitized empty ([] :: values) values ∧
   article (getStateFromParams (writeStateToUrl (js "/") [] empty) ([] :: values) values)
     = js "all" ∧
   getStateFromParams (writeStateToUrl (js "/") [] empty) ([] :: values) values ≠ empty).
Proof.
  intros values surrogate empty. split.
  - split_and!.
    + unfold sanitized. split_and!; [compute_done..|by vm_compute].
    + by vm_compute.
    + intros Heq. apply (f_equal q) in Heq. by vm_compute in Heq.
  - split_and!.
    + unfold sanitized. split_and!; [compute_done..|by vm_compute].
    + by vm_compute.
    + intros Heq. apply (f_equal article) in Heq. by vm_compute in Heq.
Qed.

(** C3, witness. *)
Lemma state_survives_the_url_witness :
  let values := [js "all"; js "1"; js "2"] in
  let state := {|
    q := js "life & liberty = 100%" ++ [233; 55357; 56832]; part := js "article";
    article := js "2"; amendment := js "all"; status := js "active";
  |} in
  locationParts (js "/") (js "#part-article-2") ∧
  sanitized state values values ∧
  urlSafe state ∧
  getStateFromParams (writeStateToUrl (js "/") (js "#part-article-2") state) values values
    = state.
Proof.
  intros values state.
  assert (locationParts (js "/") (js "#part-article-2")) as Hlocation.
  { unfold locationParts. split_and!; [by exists []|compute_done..|].
    right. by exists (js "part-article-2"). }
  assert (sanitized state values values) as Hsanitized.
  { unfold sanitized. split_and!; [compute_done..|by vm_compute]. }
  assert (urlSafe state) as Hsafe.
  { unfold urlSafe. split_and!; by vm_compute. }
  split; [exact Hlocation|]. split; [exact Hsanitized|]. split; [exact Hsafe|].
  exact (proj1 (state_survives_the_url _ _ _ _ _ Hlocation Hsanitized Hsafe)).
Defined.

End AppFacts.

(** * Further properties

    Properties of the code around the places above: the other functions of
    the generator and of the page, the functions they call and the callers
    that use them. *)

(** ** The generator *)

Module BuildExtras.
Import Build BuildSpec BuildFacts.

(** ** [escapeHtml], character by character *)

Lemma escapeChar_inj c d s t :
  escapeChar c ++ s = escapeChar d ++ t → c = d ∧ s = t.
Proof.
  unfold escapeChar.
  repeat case_bool_decide; subst; js_eval; cbn [app]; intros [=]; by simplify_eq.
Qed.

(** X1: [escapeHtml] loses nothing: two texts with the same escaped form are
    the same text. *)
Theorem escapeHtml_injective (a b : jsstring) :
  escapeHtml a = escapeHtml b → a = b.
Proof.
  revert b. induction a as [|c a IH]; intros [|d b]; rewrite ?escapeHtml_cons.
  - done.
  - unfold escapeChar. repeat case_bool_decide; by js_eval.
  - unfold escapeChar. repeat case_bool_decide; by js_eval.
  - intros [-> ?%IH]%escapeChar_inj. by subst.
Qed.

(** X1, witness. *)
Lemma escapeHtml_injective_witness :
  escapeHtml (js "a" ++ js "<b") = escapeHtml (js "a<b") ∧ js "a" ++ js "<b" = js "a<b".
Proof.
  assert (escapeHtml (js "a" ++ js "<b") = escapeHtml (js "a<b")) as Hsame by reflexivity.
  split; [exact Hsame|]. exact (escapeHtml_injective _ _ Hsame).
Defined.

Lemma escapeChar_length c :
  (special c ∧ 1 < length (escapeChar c))%nat ∨ (¬ special c ∧ escapeChar c = [c]).
Proof.
  unfold escapeChar, special.
  repeat case_bool_decide; subst; [left; split; [tauto|vm_compute; lia]..|].
  right. split; [tauto|done].
Qed.

Lemma escapeHtml_length s : (length s ≤ length (escapeHtml s))%nat.
Proof.
  induction s as [|c s IH]; [done|].
  rewrite escapeHtml_cons, length_app. cbn [length].
  destruct (escapeChar_length c) as [[_ ?]|[_ ->]]; cbn [length]; lia.
Qed.

(** X2: [escapeHtml] of a text in two pieces is the two escaped pieces, one
    after the other; it never shortens a text. *)
Theorem escapeHtml_app (a b : jsstring) :
  escapeHtml (a ++ b) = escapeHtml a ++ escapeHtml b ∧
  (length a ≤ length (escapeHtml a))%nat.
Proof.
  split; [by rewrite !escapeHtml_bind, bind_app|apply escapeHtml_length].
Qed.

(** X3: [escapeHtml] gives a text back unchanged exactly when the text holds
    none of the five characters [&], [<], [>], the double quote and the
    single quote. *)
Theorem escapeHtml_unchanged_iff_plain (value : jsstring) :
  escapeHtml value = value ↔ Forall (λ c, ¬ special c) value.
Proof.
  split.
  - intros Heq. induction value as [|c value IH]; [constructor|].
    rewrite escapeHtml_cons in Heq.
    destruct (escapeChar_length c) as [[_ Hlen]|[Hc Hchar]].
    + apply (f_equal length) in Heq. rewrite length_app in Heq. cbn [length] in Heq.
      pose proof (escapeHtml_length value). lia.
    + rewrite Hchar in Heq. injection Heq as Heq. constructor; [done|by apply IH].
  - induction 1 as [|c value Hc _ IH]; [done|].
    rewrite escapeHtml_cons, IH.
    by destruct (escapeChar_length c) as [[? _]|[_ ->]].
Qed.

(** ** The text of an entry in the page *)

Lemma bind_marker (g : N → jsstring) (s before after : jsstring) :
  (∀ c, g c = js "<br>" ∨ 60 ∉ g c) →
  s ≫= g = before ++ 60 :: after → js "br>" `prefix_of` after.
Proof.
  intros Hg. revert before. induction s as [|c s IH]; intros before; cbn [mbind list_bind].
  { by destruct before. }
  fold (s ≫= g). intros Heq.
  destruct (Hg c) as [Hbr|Hfree].
  - rewrite Hbr in Heq. change (js "<br>") with [60; 98; 114; 62] in Heq.
    destruct before as [|b0 [|b1 [|b2 [|b3 before]]]]; simplify_eq/=.
    + by eexists.
    + by eapply IH.
  - apply app_eq_inv in Heq as [(k & Hk & Hrest)|(k & -> & Hrest)].
    + destruct k as [|d k].
      * rewrite app_nil_l in Hrest. by apply (IH []).
      * injection Hrest as <- _. destruct Hfree. rewrite Hk.
        apply elem_of_app. right. constructor.
    + by eapply IH.
Qed.

Lemma textChar_cases c :
  (c = 10 ∧ textChar c = js "<br>") ∨
  (c ≠ 10 ∧ special c ∧ textChar c ∈ entities) ∨
  (c ≠ 10 ∧ ¬ special c ∧ textChar c = [c]).
Proof.
  unfold textChar. case_bool_decide as Hc; [by left|right].
  destruct (escapeChar_cases c) as [[??]|[??]]; [by left|by right].
Qed.

Lemma textHtml_bind `{Platform} entry : textHtml entry = text entry ≫= textChar.
Proof.
  unfold textHtml. induction (text entry) as [|c s IH]; [done|].
  rewrite escapeHtml_cons, replaceAll_app, IH. cbn [mbind list_bind]. f_equal.
  unfold textChar, escapeChar. repeat case_bool_decide; subst; try done.
  cbn [JSString.replaceAll]. by rewrite bool_decide_false.
Qed.

(** X4: in the text of an entry as the page shows it, each [<] starts a
    [<br>], and there is one for each line feed of the text; no line feed,
    no double quote and no single quote is left. *)
Theorem textHtml_markup_is_br `{Platform} (entry : NormalizedEntry) :
  (∀ before after, textHtml entry = before ++ 60 :: after → js "br>" `prefix_of` after) ∧
  (∀ c, c ∈ textHtml entry → c ≠ 10 ∧ c ≠ 34 ∧ c ≠ 39) ∧
  length (filter (λ c, c = 60) (textHtml entry)) =
    length (filter (λ c, c = 10) (text entry)).
Proof.
  rewrite textHtml_bind. split_and!.
  - intros before after. apply bind_marker. intros c.
    destruct (textChar_cases c) as [[_ ->]|[(_ & _ & Hent)|(_ & Hc & ->)]]; [by left|right..].
    + revert Hent. generalize (textChar c). unfold entities. intros ent.
      rewrite !elem_of_cons, elem_of_nil.
      intros [->|[->|[->|[->|[->|[]]]]]]; compute_done.
    + rewrite list_elem_of_singleton. unfold special in Hc. lia.
  - intros c (d & Hc & _)%list_elem_of_bind.
    destruct (textChar_cases d) as [[_ Hd]|[(_ & _ & Hent)|(? & Hd & Heq)]].
    + rewrite Hd in Hc. revert Hc. js_eval. rewrite !elem_of_cons, elem_of_nil. lia.
    + revert Hent Hc. generalize (textChar d). unfold entities. intros ent.
      rewrite !elem_of_cons, elem_of_nil.
      intros [->|[->|[->|[->|[->|[]]]]]]; js_eval; rewrite !elem_of_cons, elem_of_nil; lia.
    + rewrite Heq in Hc. apply list_elem_of_singleton in Hc as ->.
      unfold special in Hd. lia.
  - induction (text entry) as [|c s IH]; [done|].
    cbn [mbind list_bind]. rewrite filter_app, length_app, filter_cons, IH.
    f_equal || idtac.
    destruct (textChar_cases c) as [[-> ->]|[(Hc & _ & Hent)|(Hc & Hs & ->)]].
    + rewrite decide_True by done. done.
    + rewrite decide_False by done.
      revert Hent. generalize (textChar c). unfold entities. intros ent.
      rewrite !elem_of_cons, elem_of_nil.
      by intros [->|[->|[->|[->|[->|[]]]]]].
    + rewrite decide_False by done. rewrite filter_cons, decide_False; [done|].
      unfold special in Hs. lia.
Qed.

(** ** [escapeRegex] and [injectGenerated] *)

(** X5: the pattern that [new RegExp] reads in [escapeRegex(value)] matches
    the text [value] itself and nothing else, whatever characters [value]
    holds. *)
Theorem escapeRegex_matches_literally (value : jsstring) :
  ∃ pattern, RegExp (escapeRegex value) = Some pattern ∧
    ∀ s rest, matchHere pattern s = Some rest ↔ s = value ++ rest.
Proof.
  exists (Char <$> value). split.
  - destruct (parsePattern_escapeRegex value [] [] 1 eq_refl) as [fuel Hparse].
    rewrite !(right_id_L [] (++)) in Hparse.
    by apply (parsePattern_enough fuel).
  - intros s rest. rewrite matchHere_only_chars. apply stripPrefix_Some.
Qed.

(** X6: [injectGenerated] throws exactly when the page does not hold the start
    marker with the end marker somewhere after it, and then with the
    message of the missing pair: the pattern it builds is never refused. *)
Theorem injectGenerated_throws_iff_no_marker_pair
    (sourceHtml startMarker endMarker content : jsstring) :
  (injectGenerated sourceHtml startMarker endMarker content = Throw MissingMarkerPair ↔
   ¬ hasMarkerPair sourceHtml startMarker endMarker) ∧
  ((∃ result, injectGenerated sourceHtml startMarker endMarker content = Ok result) ↔
   hasMarkerPair sourceHtml startMarker endMarker) ∧
  injectGenerated sourceHtml startMarker endMarker content ≠ Throw PatternSyntaxError.
Proof.
  pose proof (injectGenerated_spec sourceHtml startMarker endMarker content) as Hspec.
  destruct (injectGenerated _ _ _ _) as [result|[]]; [|done|].
  - destruct Hspec as (before & middle & after & Hsource & _).
    assert (hasMarkerPair sourceHtml startMarker endMarker) by by exists before, middle, after.
    split_and!; [split; [done|tauto]|split; [done|by eexists]|done].
  - split_and!; [done|split; [by intros [? [=]]|done]|done].
Qed.

(** X7: where the replacement text holds no [$], [injectGenerated] gives the
    page with its region replaced by the start marker, a line feed, the
    content, a line feed and the end marker: the region from the first start
    marker that has an end marker after it to the nearest such end marker;
    what stands before and after the region is kept. *)
Theorem injectGenerated_replaces_region
    (sourceHtml startMarker endMarker content result : jsstring) :
  36 ∉ startMarker ++ LF ++ content ++ LF ++ endMarker →
  injectGenerated sourceHtml startMarker endMarker content = Ok result →
  ∃ before middle after,
    markerSplit sourceHtml startMarker endMarker before middle after ∧
    result = before ++ (startMarker ++ LF ++ content ++ LF ++ endMarker) ++ after.
Proof.
  intros Hplain Hresult.
  pose proof (injectGenerated_spec sourceHtml startMarker endMarker content) as Hspec.
  rewrite Hresult in Hspec. destruct Hspec as (before & middle & after & ? & ? & ? & ->).
  exists before, middle, after. by rewrite getSubstitution_plain.
Qed.

(** X7, witness. *)
Lemma injectGenerated_replaces_region_witness :
  let tocStart := js "<!-- GENERATED_TOC_START -->" in
  let tocEnd := js "<!-- GENERATED_TOC_END -->" in
  let sourceHtml :=
    js "<nav>" ++ tocStart ++ js "old" ++ tocEnd ++ js "</nav>" ++ tocEnd in
  let result :=
    js "<nav>" ++ tocStart ++ LF ++ js "<ol></ol>" ++ LF ++ tocEnd ++ js "</nav>" ++ tocEnd in
  (36 ∉ tocStart ++ LF ++ js "<ol></ol>" ++ LF ++ tocEnd) ∧
  injectGenerated sourceHtml tocStart tocEnd (js "<ol></ol>") = Ok result ∧
  ∃ before middle after,
    markerSplit sourceHtml tocStart tocEnd before middle after ∧
    result = before ++ (tocStart ++ LF ++ js "<ol></ol>" ++ LF ++ tocEnd) ++ after.
Proof.
  intros tocStart tocEnd sourceHtml result.
  assert (36 ∉ tocStart ++ LF ++ js "<ol></ol>" ++ LF ++ tocEnd) as Hplain by compute_done.
  assert (injectGenerated sourceHtml tocStart tocEnd (js "<ol></ol>") = Ok result) as Hresult
    by (vm_compute; reflexivity).
  split_and!; [exact Hplain|exact Hresult|].
  exact (injectGenerated_replaces_region _ _ _ _ _ Hplain Hresult).
Defined.

(** Two strings that start the same text, the shorter first. *)
Lemma app_eq_shorter {A} (a b x y : list A) :
  a ++ x = b ++ y → (length b ≤ length a)%nat → ∃ z, a = b ++ z ∧ y = z ++ x.
Proof.
  intros [(k & -> & ->)|(k & -> & ->)]%app_eq_inv Hlen; [by exists k|].
  rewrite length_app in Hlen. destruct k; [|simpl in Hlen; lia].
  exists []. by rewrite !(right_id_L [] (++)).
Qed.

Lemma markerSplit_unique s startMarker endMarker b1 m1 a1 b2 m2 a2 :
  markerSplit s startMarker endMarker b1 m1 a1 →
  markerSplit s startMarker endMarker b2 m2 a2 →
  b1 = b2 ∧ m1 = m2 ∧ a1 = a2.
Proof.
  intros (Hs1 & [_ Hnear1] & Hleft1) (Hs2 & [_ Hnear2] & Hleft2).
  pose proof (Hleft1 _ _ _ Hs2). pose proof (Hleft2 _ _ _ Hs1).
  rewrite Hs1 in Hs2.
  apply app_inj_1 in Hs2 as [-> Hs2]; [|lia].
  apply (inj (app startMarker)) in Hs2.
  pose proof (Hnear1 _ _ Hs2). symmetry in Hs2. pose proof (Hnear2 _ _ Hs2).
  apply app_inj_1 in Hs2 as [-> Hs2]; [|lia].
  by apply (inj (app endMarker)) in Hs2 as ->.
Qed.

Lemma injectGenerated_markerSplit sourceHtml startMarker endMarker content before middle after :
  36 ∉ startMarker ++ LF ++ content ++ LF ++ endMarker →
  markerSplit sourceHtml startMarker endMarker before middle after →
  injectGenerated sourceHtml startMarker endMarker content =
    Ok (before ++ (startMarker ++ LF ++ content ++ LF ++ endMarker) ++ after).
Proof.
  intros Hplain Hsplit.
  pose proof (injectGenerated_spec sourceHtml startMarker endMarker content) as Hspec.
  destruct (injectGenerated _ _ _ _) as [result|[]]; [|done|].
  - destruct Hspec as (b & m & a & Hs & Hnear & Hleft & ->).
    destruct (markerSplit_unique sourceHtml startMarker endMarker b m a before middle after)
      as (-> & -> & ->); [done|done|].
    by rewrite getSubstitution_plain.
  - destruct Hspec. destruct Hsplit as [-> _]. by exists before, middle, after.
Qed.

(** Where the page was written by a call of [injectGenerated], the split of
    a second call is around what the first call wrote. *)
Lemma markerSplit_rewritten sourceHtml startMarker endMarker before middle after content :
  (∀ middle' after',
     LF ++ content ++ LF ++ endMarker = middle' ++ endMarker ++ after' → after' = []) →
  markerSplit sourceHtml startMarker endMarker before middle after →
  markerSplit (before ++ (startMarker ++ LF ++ content ++ LF ++ endMarker) ++ after)
    startMarker endMarker before (LF ++ content ++ LF) after.
Proof.
  intros Hend (Hsource & _ & Hleft). split_and!.
  - by rewrite <-!(assoc_L (++)).
  - split; [done|]. intros middle' after' Heq.
    destruct (decide (length (LF ++ content ++ LF) ≤ length middle')%nat) as [|Hlt]; [done|].
    exfalso. rewrite !(assoc_L (++) _ endMarker) in Heq.
    apply app_eq_shorter in Heq as (z & Hz & _); [|rewrite !length_app in *; lia].
    rewrite <-!(assoc_L (++)) in Hz. pose proof (Hend _ _ Hz) as ->.
    apply (f_equal length) in Hz. rewrite !length_app in *. simpl in *. lia.
  - intros before' middle' after' Heq.
    destruct (decide (length before ≤ length before')%nat) as [|Hlt]; [done|].
    exfalso. rewrite <-!(assoc_L (++)) in Heq.
    rewrite !(assoc_L (++) _ startMarker) in Heq.
    apply app_eq_shorter in Heq as (z & Hz & _); [|rewrite !length_app in *; lia].
    apply Hlt, (Hleft before' (z ++ middle) after).
    rewrite Hsource, (assoc_L (++) before), Hz. by rewrite <-!(assoc_L (++)).
Qed.

(** A text where the search for the end marker stops at the end of the text
    holds the end marker nowhere before. *)
Lemma end_marker_last endMarker s :
  matchHere (AnyLazy :: (Char <$> endMarker)) s = Some [] →
  ∀ middle after, s = middle ++ endMarker ++ after → after = [].
Proof.
  intros Hmatch middle after Heq.
  pose proof (matchHere_lazy_end endMarker s) as Hnear. rewrite Hmatch in Hnear.
  destruct Hnear as (middle0 & Hs & Hmin). specialize (Hmin _ _ Heq).
  rewrite Hs in Heq. apply (f_equal length) in Heq. rewrite !length_app in Heq.
  apply length_zero_iff_nil. simpl in Heq. lia.
Qed.

(** X8: a second call of [injectGenerated] replaces what the first call wrote:
    the page is the one that the second call alone gives.  (Neither
    replacement text holds a [$], and the first content, between its line
    feeds, does not bring the end marker forward.) *)
Theorem injectGenerated_overwrites
    (sourceHtml startMarker endMarker content content' once : jsstring) :
  36 ∉ startMarker ++ LF ++ content ++ LF ++ endMarker →
  36 ∉ startMarker ++ LF ++ content' ++ LF ++ endMarker →
  (∀ middle after,
     LF ++ content ++ LF ++ endMarker = middle ++ endMarker ++ after → after = []) →
  injectGenerated sourceHtml startMarker endMarker content = Ok once →
  injectGenerated once startMarker endMarker content' =
    injectGenerated sourceHtml startMarker endMarker content' ∧
  injectGenerated once startMarker endMarker content = Ok once.
Proof.
  intros Hplain Hplain' Hend Honce.
  pose proof (injectGenerated_spec sourceHtml startMarker endMarker content) as Hspec.
  rewrite Honce in Hspec. destruct Hspec as (before & middle & after & Hs & Hnear & Hleft & ->).
  rewrite getSubstitution_plain by done.
  assert (markerSplit sourceHtml startMarker endMarker before middle after) as Hsplit by done.
  pose proof (markerSplit_rewritten _ _ _ _ _ _ content Hend Hsplit) as Hsplit'.
  split.
  - rewrite (injectGenerated_markerSplit _ _ _ content' _ _ _ Hplain' Hsplit).
    by rewrite (injectGenerated_markerSplit _ _ _ content' _ _ _ Hplain' Hsplit').
  - by rewrite (injectGenerated_markerSplit _ _ _ content _ _ _ Hplain Hsplit').
Qed.

(** X8, witness. *)
Lemma injectGenerated_overwrites_witness :
  let tocStart := js "<!-- GENERATED_TOC_START -->" in
  let tocEnd := js "<!-- GENERATED_TOC_END -->" in
  let sourceHtml := js "<nav>" ++ tocStart ++ tocEnd ++ js "</nav>" in
  let once := js "<nav>" ++ tocStart ++ LF ++ js "<ol>1</ol>" ++ LF ++ tocEnd ++ js "</nav>" in
  injectGenerated sourceHtml tocStart tocEnd (js "<ol>1</ol>") = Ok once ∧
  injectGenerated once tocStart tocEnd (js "<ol>2</ol>") =
    injectGenerated sourceHtml tocStart tocEnd (js "<ol>2</ol>") ∧
  injectGenerated once tocStart tocEnd (js "<ol>1</ol>") = Ok once.
Proof.
  intros tocStart tocEnd sourceHtml once.
  assert (injectGenerated sourceHtml tocStart tocEnd (js "<ol>1</ol>") = Ok once) as Honce
    by (vm_compute; reflexivity).
  split; [exact Honce|].
  apply (injectGenerated_overwrites sourceHtml tocStart tocEnd (js "<ol>1</ol>")
           (js "<ol>2</ol>") once); [compute_done|compute_done| |exact Honce].
  apply end_marker_last. by vm_compute.
Defined.

(** ** [normalize]: the order of ties and the error that is thrown *)

Lemma sub_self_not_positive a : JSNumber.ltb JSNumber.zero (JSNumber.sub a a) = false.
Proof.
  destruct a as [| |x|]; try done.
  unfold JSNumber.sub, JSNumber.ltb, JSNumber.zero, JSNumber.ofZ.
  apply bool_decide_eq_false. rewrite Qc_zero_lt_minus.
  intros Hlt. by apply Qclt_not_eq in Hlt.
Qed.

Section Stable.
Context {A : Type} (key : A → number).

Lemma insert_stable x l p :
  filter (λ y, key y = p) (JSArray.insert (λ a b, JSNumber.sub (key a) (key b)) x l) =
  filter (λ y, key y = p) (x :: l).
Proof.
  induction l as [|y l IH]; cbn [JSArray.insert]; [done|].
  destruct (JSNumber.ltb _ _) eqn:Hlt; [|done].
  assert (key x ≠ key y) as Hne.
  { intros Heq. rewrite Heq, sub_self_not_positive in Hlt. done. }
  rewrite filter_cons, IH, !filter_cons.
  repeat case_decide; congruence.
Qed.

Lemma sort_stable l p :
  filter (λ y, key y = p) (JSArray.sort (λ a b, JSNumber.sub (key a) (key b)) l) =
  filter (λ y, key y = p) l.
Proof.
  induction l as [|x l IH]; cbn [JSArray.sort]; [done|].
  by rewrite insert_stable, !filter_cons, IH.
Qed.

End Stable.

Section Normalize.
Context `{Platform}.

(** X9: records with the same position stay in the order that the input has
    them in: for each position, the entries of [normalize] with it are those
    of the records with it, in the order of the records. *)
Theorem normalize_keeps_order_of_ties (records : list json)
    (normalized : list NormalizedEntry) :
  mapEntries records = Ok normalized →
  ∃ entries, normalize (JArr records) = Ok entries ∧
    ∀ p, filter (λ entry, position entry = p) entries =
         filter (λ entry, position entry = p) normalized.
Proof.
  intros Hmap. unfold normalize. rewrite Hmap. eexists. split; [done|].
  intros p. apply (sort_stable position).
Qed.


End Normalize.

(** X9, witness. *)
Lemma normalize_keeps_order_of_ties_witness :
  let first := JObj [(js "id", JStr (js "a1-s1")); (js "type", JStr (js "section"));
                     (js "text", JStr (js "one")); (js "position", JNum (JSNumber.ofZ 2))] in
  let second := JObj [(js "id", JStr (js "a1-s2")); (js "type", JStr (js "section"));
                      (js "text", JStr (js "two")); (js "position", JNum (JSNumber.ofZ 2))] in
  ∃ normalized entries,
    mapEntries (H := Reference.platform) [Sample.amendment18; first; Sample.preamble; second]
      = Ok normalized ∧
    normalize (H := Reference.platform)
      (JArr [Sample.amendment18; first; Sample.preamble; second]) = Ok entries ∧
    id <$> filter (λ entry, position entry = JSNumber.ofZ 2) entries = [js "a1-s1"; js "a1-s2"].
Proof.
  intros first second.
  destruct (mapEntries (H := Reference.platform)
              [Sample.amendment18; first; Sample.preamble; second]) as [normalized|] eqn:Hmap;
    [|by vm_compute in Hmap].
  destruct (normalize_keeps_order_of_ties (H := Reference.platform) _ _ Hmap)
    as (entries & Hentries & Hties).
  exists normalized, entries. split_and!; [done|done|].
  rewrite Hties. vm_compute in Hmap. injection Hmap as <-. by vm_compute.
Defined.


(** ** [buildContent] *)

Section Content.
Context `{Platform}.

Lemma sectionDepth_app depth lines more :
  sectionDepth depth (lines ++ more) =
  sectionDepth depth lines ≫= λ depth', sectionDepth depth' more.
Proof.
  revert depth. induction lines as [|line lines IH]; intros depth; [done|].
  cbn [app sectionDepth]. destruct (opensSection line).
  - case_bool_decide; [apply IH|done].
  - destruct (closesSection line); [|apply IH]. destruct depth; [done|apply IH].
Qed.

Lemma sectionDepth_heading line1 line2 depth :
  opensSection line1 = true → opensSection line2 = false → closesSection line2 = false →
  (depth < 2)%nat → sectionDepth depth [line1; line2; js "</section>"] = Some depth.
Proof.
  intros H1 H2 H2' Hdepth. cbn [sectionDepth]. rewrite H1, H2, H2'.
  rewrite bool_decide_true by done.
  change (opensSection (js "</section>")) with false.
  change (closesSection (js "</section>")) with true. done.
Qed.

Lemma preambleHeading_depth depth :
  (depth < 2)%nat → sectionDepth depth preambleHeading = Some depth.
Proof. intros. apply sectionDepth_heading; [by vm_compute..|done]. Qed.

Lemma articlesHeading_depth depth :
  (depth < 2)%nat → sectionDepth depth articlesHeading = Some depth.
Proof. intros. apply sectionDepth_heading; [by vm_compute..|done]. Qed.

Lemma amendmentsHeading_depth depth :
  (depth < 2)%nat → sectionDepth depth amendmentsHeading = Some depth.
Proof. intros. apply sectionDepth_heading; [by vm_compute..|done]. Qed.

Lemma articleHeading_depth n depth :
  (depth < 2)%nat → sectionDepth depth (articleHeading n) = Some depth.
Proof. intros. apply sectionDepth_heading; [by vm_compute..|done]. Qed.

Lemma amendmentHeading_depth n depth :
  (depth < 2)%nat → sectionDepth depth (amendmentHeading n) = Some depth.
Proof. intros. apply sectionDepth_heading; [by vm_compute..|done]. Qed.

Lemma entryBlock_lines entry :
  Forall (λ line, isHeadingLine line = false) (entryBlock entry).
Proof. unfold entryBlock. repeat constructor; by vm_compute. Qed.

Lemma sectionDepth_other depth lines :
  Forall (λ line, isHeadingLine line = false) lines → sectionDepth depth lines = Some depth.
Proof.
  induction 1 as [|line lines Hline _ IH]; [done|]. cbn [sectionDepth].
  unfold isHeadingLine in Hline.
  apply orb_false_iff in Hline as [[-> ->]%orb_false_iff _]. done.
Qed.

Lemma closePartBlock_depth st :
  depthInv st → sectionDepth 0 (blocks (closePartBlock st)) = Some 0%nat ∧
                blockOpen (closePartBlock st) = false.
Proof.
  unfold depthInv, closePartBlock. destruct (blockOpen st) eqn:Hopen; cbn [negb]; state_simpl.
  - intros Hinv. by rewrite sectionDepth_app, Hinv.
  - by rewrite Hopen.
Qed.

Lemma openPartBlock_depth attrs headingHtml st :
  sectionDepth 1 headingHtml = Some 1%nat →
  depthInv st → depthInv (openPartBlock attrs headingHtml st).
Proof.
  intros Hheading [Hclosed _]%closePartBlock_depth.
  unfold depthInv, openPartBlock. state_simpl.
  rewrite !sectionDepth_app, Hclosed. cbn [mbind option_bind sectionDepth].
  replace (opensSection _) with true by by vm_compute.
  by rewrite bool_decide_true by lia.
Qed.

Lemma contentStep_depth st entry : depthInv st → depthInv (contentStep st entry).
Proof.
  intros Hinv. unfold contentStep.
  assert (depthInv (contentPreamble entry st)) as Hinv1.
  { unfold contentPreamble. case_match; [|done]. apply openPartBlock_depth; [|done].
    apply preambleHeading_depth. lia. }
  assert (depthInv (contentArticle entry (contentPreamble entry st))) as Hinv2.
  { revert Hinv1. generalize (contentPreamble entry st). clear. intros st Hinv.
    unfold contentArticle. case_match; [|done].
    apply openPartBlock_depth; [apply articleHeading_depth; lia|].
    destruct (hasArticlePartHeading st); cbn [negb]; [done|].
    apply closePartBlock_depth in Hinv as [Hclosed Hopen].
    unfold depthInv. state_simpl. rewrite Hopen, sectionDepth_app, Hclosed.
    apply articlesHeading_depth. lia. }
  assert (depthInv (contentAmendment entry
                      (contentArticle entry (contentPreamble entry st)))) as Hinv3.
  { revert Hinv2. generalize (contentArticle entry (contentPreamble entry st)).
    clear. intros st Hinv.
    unfold contentAmendment. case_match; [|done].
    apply openPartBlock_depth; [apply amendmentHeading_depth; lia|].
    destruct (hasAmendmentPartHeading st); cbn [negb]; [done|].
    apply closePartBlock_depth in Hinv as [Hclosed Hopen].
    unfold depthInv. state_simpl. rewrite Hopen, sectionDepth_app, Hclosed.
    apply amendmentsHeading_depth. lia. }
  revert Hinv3. generalize (contentAmendment entry
                      (contentArticle entry (contentPreamble entry st))).
  clear. intros st Hinv. unfold depthInv in *. state_simpl.
  rewrite sectionDepth_app, Hinv. cbn [mbind option_bind].
  apply sectionDepth_other, entryBlock_lines.
Qed.

(** X11: in the blocks of [buildContent] the sections are well nested: none
    is closed that was not open, none is left open at the end, and none is
    more than two deep (a part block and the heading in it). *)
Theorem contentBlocks_sections_nested (entries : list NormalizedEntry) :
  sectionDepth 0 (contentBlocks entries) = Some 0%nat.
Proof.
  unfold contentBlocks.
  enough (depthInv (foldl contentStep contentInitial entries)) as Hinv
    by by apply closePartBlock_depth in Hinv as [? _].
  induction entries as [|entry entries IH] using rev_ind; [done|].
  rewrite foldl_snoc. by apply contentStep_depth.
Qed.

(** *** The entries among the blocks *)

Lemma filter_heading_lines lines :
  Forall (λ line, isHeadingLine line = true) lines → filter otherLine lines = [].
Proof.
  induction 1 as [|line lines Hline _ IH]; [done|].
  rewrite filter_cons, decide_False; [done|]. by rewrite Hline.
Qed.

Lemma filter_other_lines lines :
  Forall otherLine lines → filter otherLine lines = lines.
Proof.
  induction 1 as [|line lines Hline _ IH]; [done|].
  by rewrite filter_cons, decide_True, IH.
Qed.

Lemma preambleHeading_lines :
  Forall (λ line, isHeadingLine line = true) preambleHeading.
Proof. repeat constructor. Qed.

Lemma articlesHeading_lines :
  Forall (λ line, isHeadingLine line = true) articlesHeading.
Proof. repeat constructor. Qed.

Lemma amendmentsHeading_lines :
  Forall (λ line, isHeadingLine line = true) amendmentsHeading.
Proof. repeat constructor. Qed.

Lemma articleHeading_lines n :
  Forall (λ line, isHeadingLine line = true) (articleHeading n).
Proof. unfold articleHeading. repeat constructor; by vm_compute. Qed.

Lemma amendmentHeading_lines n :
  Forall (λ line, isHeadingLine line = true) (amendmentHeading n).
Proof. unfold amendmentHeading. repeat constructor; by vm_compute. Qed.

Lemma closePartBlock_other st :
  filter otherLine (blocks (closePartBlock st)) = filter otherLine (blocks st).
Proof.
  unfold closePartBlock. destruct (blockOpen st); cbn [negb]; state_simpl; [|done].
  rewrite filter_app, (filter_heading_lines [js "</section>"]) by by repeat constructor.
  by rewrite (right_id_L [] (++)).
Qed.

Lemma openPartBlock_other attrs headingHtml st :
  Forall (λ line, isHeadingLine line = true) headingHtml →
  filter otherLine (blocks (openPartBlock attrs headingHtml st)) = filter otherLine (blocks st).
Proof.
  intros Hheading. unfold openPartBlock. state_simpl.
  rewrite !filter_app, closePartBlock_other, (filter_heading_lines headingHtml) by done.
  rewrite (filter_heading_lines [_]); [by rewrite !(right_id_L [] (++))|].
  repeat constructor; by vm_compute.
Qed.

Lemma contentStep_other st entry :
  filter otherLine (blocks (contentStep st entry)) = filter otherLine (blocks st) ++ entryBlock entry.
Proof.
  unfold contentStep. state_simpl.
  rewrite filter_app, (filter_other_lines (entryBlock entry)) by apply entryBlock_lines.
  f_equal.
  transitivity (filter otherLine (blocks (contentArticle entry (contentPreamble entry st)))).
  { generalize (contentArticle entry (contentPreamble entry st)). intros st'.
    unfold contentAmendment. case_match; [|done].
    rewrite openPartBlock_other by apply amendmentHeading_lines. state_simpl.
    destruct (hasAmendmentPartHeading st'); cbn [negb]; state_simpl; [done|].
    rewrite filter_app, closePartBlock_other.
    rewrite (filter_heading_lines amendmentsHeading) by apply amendmentsHeading_lines.
    by rewrite (right_id_L [] (++)). }
  transitivity (filter otherLine (blocks (contentPreamble entry st))).
  { generalize (contentPreamble entry st). intros st'.
    unfold contentArticle. case_match; [|done].
    rewrite openPartBlock_other by apply articleHeading_lines. state_simpl.
    destruct (hasArticlePartHeading st'); cbn [negb]; state_simpl; [done|].
    rewrite filter_app, closePartBlock_other.
    rewrite (filter_heading_lines articlesHeading) by apply articlesHeading_lines.
    by rewrite (right_id_L [] (++)). }
  unfold contentPreamble. case_match; [|done].
  by rewrite openPartBlock_other by apply preambleHeading_lines.
Qed.

(** X12: the blocks of [buildContent], the lines of the headings left out, are
    the blocks of the entries, each entry once and in the order given. *)
Theorem contentBlocks_entries_in_order (entries : list NormalizedEntry) :
  filter (λ line, isHeadingLine line = false) (contentBlocks entries) =
  entries ≫= entryBlock.
Proof.
  unfold contentBlocks. rewrite closePartBlock_other.
  induction entries as [|entry entries IH] using rev_ind; [done|].
  rewrite foldl_snoc, contentStep_other, IH, bind_app.
  change ([entry] ≫= entryBlock) with (entryBlock entry ++ []).
  by rewrite (right_id_L [] (++)).
Qed.

(** *** The headings that the table of contents points to *)

Lemma holdsHeading_prefix blocks blocks' heading :
  holdsHeading blocks heading → blocks `prefix_of` blocks' → holdsHeading blocks' heading.
Proof.
  intros (before & after & ->) [more ->]. exists before, (after ++ more).
  by rewrite <-!(assoc_L (++)).
Qed.

Lemma holdsHeading_end blocks heading : holdsHeading (blocks ++ heading) heading.
Proof. exists blocks, []. by rewrite (right_id_L [] (++)). Qed.

Lemma tocInv_intro st st' :
  tocInv st → blocks st `prefix_of` blocks st' →
  (hasPreambleHeading st' = true →
     hasPreambleHeading st = true ∨ holdsHeading (blocks st') preambleHeading) →
  (hasArticlePartHeading st' = true →
     hasArticlePartHeading st = true ∨ holdsHeading (blocks st') articlesHeading) →
  (hasAmendmentPartHeading st' = true →
     hasAmendmentPartHeading st = true ∨ holdsHeading (blocks st') amendmentsHeading) →
  (∀ n, currentArticle st' = Some n →
     hasArticlePartHeading st' = true ∧
     (currentArticle st = Some n ∨
      holdsHeading (blocks st') (articleHeading (Some n)))) →
  (∀ n, currentAmendment st' = Some n →
     hasAmendmentPartHeading st' = true ∧
     (currentAmendment st = Some n ∨
      holdsHeading (blocks st') (amendmentHeading (Some n)))) →
  tocInv st'.
Proof.
  intros (Hpre & Harts & Hamds & Hart & Hamd) Hprefix Hpre' Harts' Hamds' Hart' Hamd'.
  split_and!.
  - intros [?|?]%Hpre'; [|done]. eapply holdsHeading_prefix; eauto.
  - intros [?|?]%Harts'; [|done]. eapply holdsHeading_prefix; eauto.
  - intros [?|?]%Hamds'; [|done]. eapply holdsHeading_prefix; eauto.
  - intros n [? [Hn|?]]%Hart'; [|done]. split; [done|].
    eapply holdsHeading_prefix; [by apply Hart|done].
  - intros n [? [Hn|?]]%Hamd'; [|done]. split; [done|].
    eapply holdsHeading_prefix; [by apply Hamd|done].
Qed.

Lemma closePartBlock_prefix st : blocks st `prefix_of` blocks (closePartBlock st).
Proof.
  unfold closePartBlock. destruct (blockOpen st); cbn [negb]; state_simpl; [|done].
  by apply prefix_app_r.
Qed.

Lemma openPartBlock_blocks attrs headingHtml st :
  blocks st `prefix_of` blocks (openPartBlock attrs headingHtml st) ∧
  holdsHeading (blocks (openPartBlock attrs headingHtml st)) headingHtml.
Proof.
  unfold openPartBlock. state_simpl. split.
  - etrans; [apply closePartBlock_prefix|]. rewrite <-(assoc_L (++)). by apply prefix_app_r.
  - apply holdsHeading_end.
Qed.

Lemma openPartBlock_vars attrs headingHtml st :
  let st' := openPartBlock attrs headingHtml st in
  hasPreambleHeading st' = hasPreambleHeading st ∧
  hasArticlePartHeading st' = hasArticlePartHeading st ∧
  hasAmendmentPartHeading st' = hasAmendmentPartHeading st ∧
  currentArticle st' = currentArticle st ∧
  currentAmendment st' = currentAmendment st.
Proof. unfold openPartBlock, closePartBlock. by destruct (blockOpen st). Qed.

Lemma closePartBlock_vars st :
  let st' := closePartBlock st in
  hasPreambleHeading st' = hasPreambleHeading st ∧
  hasArticlePartHeading st' = hasArticlePartHeading st ∧
  hasAmendmentPartHeading st' = hasAmendmentPartHeading st ∧
  currentArticle st' = currentArticle st ∧
  currentAmendment st' = currentAmendment st.
Proof. unfold closePartBlock. by destruct (blockOpen st). Qed.

Lemma strictNe_false a n :
  strictNe (Some n) a = false → a = Some n.
Proof.
  destruct a as [m|]; [|done]. cbn [strictNe]. intros Heq%negb_false_iff.
  destruct n, m; try done; by apply bool_decide_eq_true in Heq as <-.
Qed.

Lemma contentPreamble_toc entry st :
  tocInv st →
  tocInv (contentPreamble entry st) ∧
  blocks st `prefix_of` blocks (contentPreamble entry st) ∧
  (part entry = js "preamble" → hasPreambleHeading (contentPreamble entry st) = true).
Proof.
  intros Hinv. unfold contentPreamble.
  destruct (bool_decide (part entry = js "preamble")) eqn:Hpart; cbn [andb].
  2: { split_and!; [done|done|]. intros ?. by apply bool_decide_eq_false in Hpart. }
  destruct (hasPreambleHeading st) eqn:Hhas; cbn [negb]; [done|].
  match goal with |- context [openPartBlock ?a ?h ?s] =>
    destruct (openPartBlock_blocks a h s) as [Hprefix Hholds];
    destruct (openPartBlock_vars a h s) as (Hv1 & Hv2 & Hv3 & Hv4 & Hv5);
    set (st' := openPartBlock a h s) in * end.
  state_simpl. split_and!; [|done|done].
  destruct Hinv as (Hpre & Harts & Hamds & Hart & Hamd).
  eapply tocInv_intro; [done|done|..].
  - by right.
  - rewrite Hv2. by left.
  - rewrite Hv3. by left.
  - intros n Hn. rewrite Hv2, Hv4 in *. split; [by eapply Hart|by left].
  - intros n Hn. rewrite Hv3, Hv5 in *. split; [by eapply Hamd|by left].
Qed.

Lemma contentArticle_toc entry st :
  tocInv st →
  tocInv (contentArticle entry st) ∧
  blocks st `prefix_of` blocks (contentArticle entry st) ∧
  hasPreambleHeading (contentArticle entry st) = hasPreambleHeading st ∧
  (part entry = js "article" → ∀ n, article entry = Some n →
     currentArticle (contentArticle entry st) = Some n).
Proof.
  intros Hinv. unfold contentArticle.
  destruct (bool_decide (part entry = js "article")) eqn:Hpart; cbn [andb].
  2: { split_and!; [done..|]. intros ?. by apply bool_decide_eq_false in Hpart. }
  destruct (strictNe (article entry) (currentArticle st)) eqn:Hne.
  2: { split_and!; [done..|]. intros _ n Hn. rewrite Hn in Hne.
       by apply strictNe_false in Hne. }
  match goal with |- context [openPartBlock ?a ?h ?s] =>
    destruct (openPartBlock_blocks a h s) as [Hprefix Hholds];
    destruct (openPartBlock_vars a h s) as (Hv1 & Hv2 & Hv3 & Hv4 & Hv5);
    set (st' := openPartBlock a h s) in * end.
  assert (blocks st `prefix_of` blocks st' ∧
          (hasArticlePartHeading st = true ∨ holdsHeading (blocks st') articlesHeading) ∧
          hasPreambleHeading st' = hasPreambleHeading st ∧
          hasArticlePartHeading st' = true ∧
          hasAmendmentPartHeading st' = hasAmendmentPartHeading st ∧
          currentAmendment st' = currentAmendment st)
    as (Hprefix' & Harts' & Hw1 & Hw2 & Hw3 & Hw5).
  { clearbody st'. revert Hprefix Hv1 Hv2 Hv3 Hv5.
    destruct (closePartBlock_vars st) as (Hc1 & Hc2 & Hc3 & Hc4 & Hc5).
    destruct (hasArticlePartHeading st) eqn:Hhas; cbn [negb]; state_simpl.
    - intros ? -> -> -> ->. split_and!; [done|by left|done..].
    - intros Hprefix -> -> -> ->. split_and!; [|right|done..].
      + etrans; [apply closePartBlock_prefix|]. etrans; [|exact Hprefix].
        by apply prefix_app_r.
      + eapply holdsHeading_prefix; [apply holdsHeading_end|done]. }
  state_simpl.
  split_and!; [|done|done|by intros _ n <-].
  destruct Hinv as (Hpre & Harts & Hamds & Hart & Hamd).
  eapply tocInv_intro; [done|done|..].
  - rewrite Hw1. by left.
  - done.
  - rewrite Hw3. by left.
  - intros n Hn. split; [done|right].
    rewrite Hv4 in Hn. by rewrite Hn in Hholds.
  - intros n Hn. rewrite Hw3, Hw5 in *. split; [by eapply Hamd|by left].
Qed.

Lemma contentAmendment_toc entry st :
  tocInv st →
  tocInv (contentAmendment entry st) ∧
  blocks st `prefix_of` blocks (contentAmendment entry st) ∧
  hasPreambleHeading (contentAmendment entry st) = hasPreambleHeading st ∧
  currentArticle (contentAmendment entry st) = currentArticle st ∧
  (part entry = js "amendment" → ∀ n, amendmentNumber entry = Some n →
     currentAmendment (contentAmendment entry st) = Some n).
Proof.
  intros Hinv. unfold contentAmendment.
  destruct (bool_decide (part entry = js "amendment")) eqn:Hpart; cbn [andb].
  2: { split_and!; [done..|]. intros ?. by apply bool_decide_eq_false in Hpart. }
  destruct (strictNe (amendmentNumber entry) (currentAmendment st)) eqn:Hne.
  2: { split_and!; [done..|]. intros _ n Hn. rewrite Hn in Hne.
       by apply strictNe_false in Hne. }
  match goal with |- context [openPartBlock ?a ?h ?s] =>
    destruct (openPartBlock_blocks a h s) as [Hprefix Hholds];
    destruct (openPartBlock_vars a h s) as (Hv1 & Hv2 & Hv3 & Hv4 & Hv5);
    set (st' := openPartBlock a h s) in * end.
  assert (blocks st `prefix_of` blocks st' ∧
          (hasAmendmentPartHeading st = true ∨
           holdsHeading (blocks st') amendmentsHeading) ∧
          hasPreambleHeading st' = hasPreambleHeading st ∧
          hasArticlePartHeading st' = hasArticlePartHeading st ∧
          hasAmendmentPartHeading st' = true ∧
          currentArticle st' = currentArticle st)
    as (Hprefix' & Hamds' & Hw1 & Hw2 & Hw3 & Hw4).
  { clearbody st'. revert Hprefix Hv1 Hv2 Hv3 Hv4.
    destruct (closePartBlock_vars st) as (Hc1 & Hc2 & Hc3 & Hc4 & Hc5).
    destruct (hasAmendmentPartHeading st) eqn:Hhas; cbn [negb]; state_simpl.
    - intros ? -> -> -> ->. split_and!; [done|by left|done..].
    - intros Hprefix -> -> -> ->. split_and!; [|right|done..].
      + etrans; [apply closePartBlock_prefix|]. etrans; [|exact Hprefix].
        by apply prefix_app_r.
      + eapply holdsHeading_prefix; [apply holdsHeading_end|done]. }
  state_simpl.
  split_and!; [|done|done|done|by intros _ n <-].
  destruct Hinv as (Hpre & Harts & Hamds & Hart & Hamd).
  eapply tocInv_intro; [done|done|..].
  - rewrite Hw1. by left.
  - rewrite Hw2. by left.
  - done.
  - intros n Hn. rewrite Hw2, Hw4 in *. split; [by eapply Hart|by left].
  - intros n Hn. split; [done|right].
    rewrite Hv5 in Hn. by rewrite Hn in Hholds.
Qed.

Lemma contentStep_toc st entry :
  tocInv st →
  tocInv (contentStep st entry) ∧
  blocks st `prefix_of` blocks (contentStep st entry) ∧
  (part entry = js "preamble" → hasPreambleHeading (contentStep st entry) = true) ∧
  (part entry = js "article" → ∀ n, article entry = Some n →
     currentArticle (contentStep st entry) = Some n) ∧
  (part entry = js "amendment" → ∀ n, amendmentNumber entry = Some n →
     currentAmendment (contentStep st entry) = Some n).
Proof.
  intros (Hinv1 & Hprefix1 & Hpre)%(contentPreamble_toc entry).
  pose proof Hinv1 as (Hinv2 & Hprefix2 & Hpre2 & Hart)%(contentArticle_toc entry).
  pose proof Hinv2 as (Hinv3 & Hprefix3 & Hpre3 & Hart3 & Hamd)%(contentAmendment_toc entry).
  unfold contentStep.
  set (st3 := contentAmendment entry (contentArticle entry (contentPreamble entry st))) in *.
  state_simpl. split_and!.
  - eapply (tocInv_intro st3); [done|by apply prefix_app_r|state_simpl..].
    + by left.
    + by left.
    + by left.
    + intros n Hn. destruct Hinv3 as (_ & _ & _ & Hcur & _).
      split; [by eapply Hcur|by left].
    + intros n Hn. destruct Hinv3 as (_ & _ & _ & _ & Hcur).
      split; [by eapply Hcur|by left].
  - etrans; [exact Hprefix1|]. etrans; [exact Hprefix2|]. etrans; [exact Hprefix3|].
    by apply prefix_app_r.
  - intros ?. rewrite Hpre3, Hpre2. by apply Hpre.
  - intros ? n ?. rewrite Hart3. by apply Hart.
  - done.
Qed.

(** X13: each link of the table of contents has its target in the content: with
    [hasPreamble], [articleNumbers] and [amendmentNumbers] as the loop of
    [buildToc] leaves them, the blocks of [buildContent] hold the heading of
    the preamble if [hasPreamble] is set, the heading of the articles if
    [articleNumbers] is not empty and the heading of each article in it,
    and likewise for the amendments. *)
Theorem contentBlocks_holds_toc_targets (entries : list NormalizedEntry) :
  let '(hasPreamble, articleNumbers, amendmentNumbers) := tocScan entries in
  (hasPreamble = true → holdsHeading (contentBlocks entries) preambleHeading) ∧
  (articleNumbers ≠ [] → holdsHeading (contentBlocks entries) articlesHeading) ∧
  (∀ n, n ∈ articleNumbers →
     holdsHeading (contentBlocks entries) (articleHeading (Some n))) ∧
  (amendmentNumbers ≠ [] → holdsHeading (contentBlocks entries) amendmentsHeading) ∧
  (∀ n, n ∈ amendmentNumbers →
     holdsHeading (contentBlocks entries) (amendmentHeading (Some n))).
Proof.
  assert (
    let st := foldl contentStep contentInitial entries in
    tocInv st ∧
    (∀ e, e ∈ entries → part e = js "preamble" →
       holdsHeading (blocks st) preambleHeading) ∧
    (∀ e n, e ∈ entries → part e = js "article" → article e = Some n →
       holdsHeading (blocks st) articlesHeading ∧
       holdsHeading (blocks st) (articleHeading (Some n))) ∧
    (∀ e n, e ∈ entries → part e = js "amendment" → amendmentNumber e = Some n →
       holdsHeading (blocks st) amendmentsHeading ∧
       holdsHeading (blocks st) (amendmentHeading (Some n)))) as Hloop.
  { induction entries as [|entry entries IH] using rev_ind.
    { split_and!; [done|by intros ? ?%elem_of_nil|by intros ?? ?%elem_of_nil..]. }
    rewrite foldl_snoc. cbv zeta in *.
    destruct IH as (Hinv & Hpre & Hart & Hamd).
    destruct (contentStep_toc _ entry Hinv) as (Hinv' & Hprefix & Hpre' & Hart' & Hamd').
    set (st := foldl contentStep contentInitial entries) in *.
    split_and!; [done|..].
    - intros e [He| ->%list_elem_of_singleton]%elem_of_app Hpart.
      + eapply holdsHeading_prefix; [by eapply Hpre|done].
      + destruct Hinv' as (Hholds & _). by apply Hholds, Hpre'.
    - intros e n [He| ->%list_elem_of_singleton]%elem_of_app Hpart Hn.
      + destruct (Hart e n) as [??]; [done..|].
        split; eapply holdsHeading_prefix; done.
      + destruct Hinv' as (_ & Harts & _ & Hcur & _).
        destruct (Hcur n) as [??]; [by apply Hart'|]. split; [by apply Harts|done].
    - intros e n [He| ->%list_elem_of_singleton]%elem_of_app Hpart Hn.
      + destruct (Hamd e n) as [??]; [done..|].
        split; eapply holdsHeading_prefix; done.
      + destruct Hinv' as (_ & _ & Hamds & _ & Hcur).
        destruct (Hcur n) as [??]; [by apply Hamd'|]. split; [by apply Hamds|done]. }
  cbv zeta in Hloop. destruct Hloop as (_ & Hpre & Hart & Hamd).
  pose proof (tocScan_spec entries) as Hscan.
  destruct (tocScan entries) as [[hasPreamble articleNumbers] amendmentNumbers].
  destruct Hscan as (Hscan1 & _ & Hscan2 & _ & Hscan3).
  unfold contentBlocks.
  pose proof (closePartBlock_prefix (foldl contentStep contentInitial entries)) as Hclose.
  split_and!.
  - intros (e & ? & ?)%Hscan1. eapply holdsHeading_prefix; [by eapply Hpre|done].
  - destruct articleNumbers as [|n ?]; [done|]. intros _.
    destruct (proj1 (Hscan2 n)) as (e & ? & ? & ?); [constructor|].
    eapply holdsHeading_prefix; [by eapply Hart|done].
  - intros n (e & ? & ? & ?)%Hscan2.
    eapply holdsHeading_prefix; [by eapply Hart|done].
  - destruct amendmentNumbers as [|n ?]; [done|]. intros _.
    destruct (proj1 (Hscan3 n)) as (e & ? & ? & ?); [constructor|].
    eapply holdsHeading_prefix; [by eapply Hamd|done].
  - intros n (e & ? & ? & ?)%Hscan3.
    eapply holdsHeading_prefix; [by eapply Hamd|done].
Qed.

End Content.

(** ** The export as text *)

Section Llm.
Context `{Platform}.

Lemma trimStart_idemp s : JSString.trimStart (JSString.trimStart s) = JSString.trimStart s.
Proof. apply AppFacts.trimStart_id, AppFacts.trimStart_head. Qed.

Lemma trimEnd_idemp s : JSString.trimEnd (JSString.trimEnd s) = JSString.trimEnd s.
Proof. unfold JSString.trimEnd. by rewrite reverse_involutive, trimStart_idemp. Qed.

Lemma trimEnd_prefix s : JSString.trimEnd s `prefix_of` s.
Proof.
  unfold JSString.trimEnd.
  destruct (AppFacts.trimStart_suffix (reverse s)) as [ws Hws].
  exists (reverse ws). apply (inj reverse).
  by rewrite reverse_app, !reverse_involutive.
Qed.

Lemma trimStart_app_keep ws c s :
  JSString.isWhiteSpace c = false →
  ∃ ws', JSString.trimStart (ws ++ c :: s) = ws' ++ c :: s ∧ ws' `suffix_of` ws.
Proof.
  intros Hc. induction ws as [|w ws (ws' & IH & Hsuffix)]; cbn [app JSString.trimStart].
  - rewrite Hc. by exists [].
  - destruct (JSString.isWhiteSpace w).
    + exists ws'. split; [done|]. by apply suffix_cons_r.
    + by exists (w :: ws).
Qed.

(** [trimEnd] leaves a text alone up to its last character that is not
    white space. *)
Lemma trimEnd_app_keep s c tail :
  JSString.isWhiteSpace c = false →
  ∃ tail', JSString.trimEnd (s ++ c :: tail) = s ++ c :: tail' ∧ tail' `prefix_of` tail.
Proof.
  intros Hc. unfold JSString.trimEnd.
  rewrite reverse_app, reverse_cons, <-(assoc_L (++)). cbn [app].
  destruct (trimStart_app_keep (reverse tail) c (reverse s) Hc) as (ws' & -> & [ws Hws]).
  exists (reverse ws'). split.
  - by rewrite reverse_app, reverse_cons, !reverse_involutive, <-(assoc_L (++)).
  - exists (reverse ws). apply (inj reverse).
    by rewrite reverse_app, !reverse_involutive.
Qed.

(** After [trimEnd] and the line feed put at its end, a text still holds
    a line, and the line feed after it, where the line does not end in white
    space. *)
Lemma trimEnd_keeps_line before line c after :
  JSString.isWhiteSpace c = false →
  ∃ after', JSString.trimEnd (before ++ (line ++ [c]) ++ LF ++ after) ++ LF =
            before ++ (line ++ [c]) ++ LF ++ after'.
Proof.
  intros Hc.
  destruct (trimEnd_app_keep (before ++ line) c (LF ++ after) Hc) as (tail' & Htrim & Hprefix).
  rewrite <-!(assoc_L (++)) in *. cbn [app] in *. rewrite Htrim.
  destruct tail' as [|d tail'].
  - exists []. by rewrite <-!(assoc_L (++)).
  - destruct Hprefix as [more Hmore]. injection Hmore as <- _.
    exists (tail' ++ LF). by rewrite <-!(assoc_L (++)).
Qed.

Lemma join_cons_cons sep x y rest :
  JSString.join sep (x :: y :: rest) = x ++ sep ++ JSString.join sep (y :: rest).
Proof. done. Qed.

Lemma join_app sep (l1 l2 : list jsstring) :
  l1 ≠ [] → l2 ≠ [] →
  JSString.join sep (l1 ++ l2) = JSString.join sep l1 ++ sep ++ JSString.join sep l2.
Proof.
  intros Hl1 Hl2. induction l1 as [|x [|y l1] IH]; [done|..].
  - destruct l2; done.
  - cbn [app] in *. rewrite !join_cons_cons, IH by done. by rewrite <-!(assoc_L (++)).
Qed.

(** A line that is followed by another line is in the joined text with its
    line feed. *)
Lemma join_holds_line (l1 : list jsstring) line next l2 :
  ∃ before after,
    JSString.join LF (l1 ++ line :: next :: l2) = before ++ line ++ LF ++ after.
Proof.
  destruct l1 as [|x l1].
  - by exists [], (JSString.join LF (next :: l2)).
  - exists (JSString.join LF (x :: l1) ++ LF), (JSString.join LF (next :: l2)).
    rewrite join_app by done. by rewrite join_cons_cons, <-!(assoc_L (++)).
Qed.

Lemma llmStep_lines st entry :
  ∃ more, lines (llmStep st entry) = lines st ++ more ++ llmEntryLines entry.
Proof.
  assert (∀ (a X e : list jsstring), (∃ more, X = more ++ e) → ∃ more, a ++ X = more ++ e)
    as Hcons.
  { intros a X e [more ->]. exists (a ++ more). by rewrite (assoc_L (++)). }
  assert (∀ (a X e : list jsstring),
            (∃ more, X = more ++ e) → ∃ more, a ++ X = a ++ more ++ e) as Hunder.
  { intros a X e [more ->]. by exists more. }
  unfold llmStep. cbn [lines]. generalize (llmEntryLines entry). intros entryLines.
  destruct (bool_decide (part entry = js "preamble")),
    (bool_decide (last (lines st) ≠ Some [])),
    (bool_decide (part entry = js "article") && strictNe _ _),
    (negb (hasArticlesHeader st)),
    (bool_decide (part entry = js "amendment") && strictNe _ _),
    (negb (hasAmendmentsHeader st));
    rewrite <-?(assoc_L (++)), ?(right_id_L [] (++));
    apply Hunder; repeat apply Hcons; by exists [].
Qed.

Lemma llm_lines entries :
  ∃ more, lines (foldl llmStep llmInitial entries) = lines llmInitial ++ more.
Proof.
  induction entries as [|entry entries [more IH]] using rev_ind.
  { exists []. by rewrite (right_id_L [] (++)). }
  rewrite foldl_snoc. destruct (llmStep_lines (foldl llmStep llmInitial entries) entry)
    as [more' ->].
  rewrite IH. eexists. by rewrite <-!(assoc_L (++)).
Qed.

(** X14: the export starts with its title line and ends with one line feed, with
    no white space before it. *)
Theorem buildLlmMarkdown_title_and_end (entries : list NormalizedEntry) :
  ∃ body,
    buildLlmMarkdown entries = js "# Constitution of the United States" ++ LF ++ body ∧
    ∃ text, buildLlmMarkdown entries = text ++ LF ∧ JSString.trimEnd text = text.
Proof.
  unfold buildLlmMarkdown.
  destruct (llm_lines entries) as [more Hlines].
  destruct (trimEnd_keeps_line [] (js "# Constitution of the United State") 115
              (JSString.join LF (tl (lines llmInitial) ++ more))) as [body Hbody];
    [by vm_compute|].
  exists body. split.
  - rewrite Hlines. exact Hbody.
  - eexists. split; [done|]. apply trimEnd_idemp.
Qed.

(** X15: each entry is in the export: the line with its heading and its id,
    followed by a line feed. *)
Theorem buildLlmMarkdown_holds_entry (entries : list NormalizedEntry)
    (entry : NormalizedEntry) :
  entry ∈ entries →
  ∃ before after,
    buildLlmMarkdown entries =
      before ++
      (js "#### " ++ buildLlmHeading entry ++ js " [" ++ id entry ++ js "]") ++ LF ++
      after.
Proof.
  intros Hentry.
  assert (∃ l1 next l2,
    lines (foldl llmStep llmInitial entries) =
      l1 ++ (js "#### " ++ buildLlmHeading entry ++ js " [" ++ id entry ++ js "]")
         :: next :: l2) as (l1 & next & l2 & Hlines).
  { induction entries as [|e entries IH] using rev_ind; [by apply elem_of_nil in Hentry|].
    rewrite foldl_snoc.
    destruct (llmStep_lines (foldl llmStep llmInitial entries) e) as [more ->].
    apply elem_of_app in Hentry as [Hentry| ->%list_elem_of_singleton].
    - destruct (IH Hentry) as (l1 & next & l2 & ->).
      exists l1, next, (l2 ++ more ++ llmEntryLines e).
      by rewrite <-!(assoc_L (++)).
    - unfold llmEntryLines. cbn [app].
      eexists (lines (foldl llmStep llmInitial entries) ++ more), _, _.
      by rewrite <-(assoc_L (++)). }
  unfold buildLlmMarkdown. rewrite Hlines.
  destruct (join_holds_line l1
              (js "#### " ++ buildLlmHeading entry ++ js " [" ++ id entry ++ js "]")
              next l2) as (before & after & ->).
  destruct (trimEnd_keeps_line before
              (js "#### " ++ buildLlmHeading entry ++ js " [" ++ id entry) 93 after)
    as [after' Hkeep]; [by vm_compute|].
  exists before, after'. change (js "]") with [93].
  rewrite <-!(assoc_L (++)) in Hkeep |- *. exact Hkeep.
Qed.

(** X16: the heading of an entry in the export is its title, unless the entry
    has a clause and is outside of the articles: the heading leaves the
    clause of an amendment out. *)
Theorem buildLlmHeading_is_title (entry : NormalizedEntry) :
  part entry = js "preamble" ∨ part entry = js "article" ∨ clause entry = None →
  buildLlmHeading entry = buildTitle entry.
Proof.
  unfold buildLlmHeading, buildTitle, locatorPieces.
  intros [Hpart|[Hpart|Hclause]].
  - by rewrite !bool_decide_true.
  - case_bool_decide; [done|]. by rewrite !bool_decide_true.
  - rewrite Hclause. by repeat case_bool_decide.
Qed.

End Llm.

(** X15, witness. *)
Lemma buildLlmMarkdown_holds_entry_witness :
  ∃ entry before after,
    entry ∈ Sample.entries ∧ id entry = js "a1-s1" ∧
    buildLlmMarkdown (H := Reference.platform) Sample.entries =
      before ++ js "#### Article 1, Section 1 [a1-s1]" ++ LF ++ after.
Proof.
  destruct (Sample.entries !! 1%nat) as [entry|] eqn:Hentry; [|by vm_compute in Hentry].
  pose proof (list_elem_of_lookup_2 _ _ _ Hentry) as Hin.
  destruct (buildLlmMarkdown_holds_entry (H := Reference.platform) _ _ Hin)
    as (before & after & Heq).
  exists entry, before, after. vm_compute in Hentry. injection Hentry as <-.
  split_and!; [done|by vm_compute|exact Heq].
Defined.

(** X16, witness. *)
Lemma buildLlmHeading_is_title_witness :
  ∃ entry, Sample.entries !! 2%nat = Some entry ∧ clause entry = None ∧
    buildLlmHeading (H := Reference.platform) entry =
    buildTitle (H := Reference.platform) entry.
Proof.
  destruct (Sample.entries !! 2%nat) as [entry|] eqn:Hentry; [|by vm_compute in Hentry].
  exists entry.
  assert (clause entry = None) as Hclause.
  { vm_compute in Hentry. by injection Hentry as <-. }
  split_and!; [done|done|].
  apply buildLlmHeading_is_title. by right; right.
Defined.

End BuildExtras.

(** ** The page *)

Module AppExtras.
Import Web App AppSpec BuildSpec BuildFacts AppFacts.

(** ** The view controls *)

Lemma leb_refl a : notNaN a → JSNumber.leb a a = true.
Proof.
  unfold notNaN, JSNumber.leb. intros Ha.
  destruct a; [done|..]; unfold JSNumber.strictEq;
    rewrite bool_decide_true by done; apply orb_true_r.
Qed.

Lemma leb_notNaN a b : JSNumber.leb a b = true → notNaN a ∧ notNaN b.
Proof. by destruct a, b. Qed.

Lemma leb_not_ltb a b : JSNumber.leb a b = true → JSNumber.ltb a b = false → a = b.
Proof.
  intros Hle Hlt. destruct (decide (a = b)) as [|Hne]; [done|].
  apply leb_ne_ltb in Hle; [congruence|done].
Qed.

Lemma max_notNaN a b :
  notNaN a → notNaN b → JSMath.max a b = if JSNumber.ltb a b then b else a.
Proof. unfold JSMath.max. by destruct a, b. Qed.

Lemma min_notNaN a b :
  notNaN a → notNaN b → JSMath.min a b = if JSNumber.ltb b a then b else a.
Proof. unfold JSMath.min. by destruct a, b. Qed.

Lemma clamp_bounds value min max :
  notNaN value → JSNumber.leb min max = true →
  JSNumber.leb min (clamp value min max) = true ∧
  JSNumber.leb (clamp value min max) max = true ∧
  (JSNumber.leb min value = true → JSNumber.leb value max = true →
   clamp value min max = value).
Proof.
  intros Hvalue Hbounds. pose proof (leb_notNaN _ _ Hbounds) as [Hmin Hmax].
  unfold clamp. rewrite (max_notNaN min value) by done.
  destruct (JSNumber.ltb min value) eqn:Hlow.
  - rewrite min_notNaN by done. destruct (JSNumber.ltb value max) eqn:Hhigh.
    + split_and!; [by apply ltb_leb|by apply ltb_leb|done].
    + split_and!; [done|by apply leb_refl|].
      intros _ Hle. symmetry. by apply leb_not_ltb.
  - rewrite min_notNaN by done. destruct (JSNumber.ltb min max) eqn:Hlt.
    + split_and!; [by apply leb_refl|done|]. intros Hle _. by apply leb_not_ltb.
    + pose proof (leb_not_ltb _ _ Hbounds Hlt) as ->.
      split_and!; [done|by apply leb_refl|]. intros Hle _. by apply leb_not_ltb.
Qed.

(** X17: [clamp] gives a number between the bounds, and the value itself when
    it is between them. *)
Theorem clamp_within_bounds (value min max : number) :
  notNaN value → JSNumber.leb min max = true →
  JSNumber.leb min (clamp value min max) = true ∧
  JSNumber.leb (clamp value min max) max = true ∧
  (JSNumber.leb min value = true → JSNumber.leb value max = true →
   clamp value min max = value).
Proof. apply clamp_bounds. Qed.

(** X17, witness. *)
Lemma clamp_within_bounds_witness :
  notNaN (JSNumber.ofZ 2) ∧ JSNumber.leb FONT_SCALE_MIN FONT_SCALE_MAX = true ∧
  clamp (JSNumber.ofZ 2) FONT_SCALE_MIN FONT_SCALE_MAX = FONT_SCALE_MAX ∧
  JSNumber.leb FONT_SCALE_MIN (clamp (JSNumber.ofZ 2) FONT_SCALE_MIN FONT_SCALE_MAX) = true.
Proof.
  assert (notNaN (JSNumber.ofZ 2)) as Hvalue by done.
  assert (JSNumber.leb FONT_SCALE_MIN FONT_SCALE_MAX = true) as Hbounds by by vm_compute.
  split_and!; [done|done|by vm_compute|].
  exact (proj1 (clamp_within_bounds _ _ _ Hvalue Hbounds)).
Defined.

Section WithPlatform.
Context `{Platform}.







Lemma setStoredFontScale_items value storage :
  LocalStorage.denied (setStoredFontScale value storage) = LocalStorage.denied storage ∧
  (LocalStorage.denied storage = false →
   LocalStorage.items (setStoredFontScale value storage) !! FONT_SCALE_STORAGE_KEY =
     Some (NumberToString value)).
Proof.
  unfold setStoredFontScale, LocalStorage.setItem.
  destruct (LocalStorage.denied storage) eqn:Hdenied; [done|].
  cbn [LocalStorage.denied LocalStorage.items]. split; [done|].
  intros _. apply lookup_insert_eq.
Qed.



(** X20: a font scale between the bounds that is stored is the one read back,
    where [Number] reads the text that [String] writes for it as the same
    number and the storage is not denied. *)
Theorem stored_font_scale_is_read_back (value : number)
    (storage : LocalStorage.Storage) :
  LocalStorage.denied storage = false →
  StringToNumber (NumberToString value) = value →
  JSNumber.leb FONT_SCALE_MIN value = true → JSNumber.leb value FONT_SCALE_MAX = true →
  getStoredFontScale (setStoredFontScale value storage) = value.
Proof.
  intros Hdenied Hround Hlow Hhigh.
  destruct (setStoredFontScale_items value storage) as [Hdenied' Hitems].
  unfold getStoredFontScale, LocalStorage.getItem.
  rewrite Hdenied', Hdenied, (Hitems Hdenied), Hround.
  pose proof (leb_notNaN _ _ Hlow) as [_ Hvalue].
  destruct value; [done|..]; cbn [JSNumber.isNaN negb];
    by apply clamp_bounds.
Qed.

End WithPlatform.

(** X20, witness. *)
Lemma stored_font_scale_is_read_back_witness :
  let storage := {| LocalStorage.items := ∅; LocalStorage.denied := false |} in
  LocalStorage.denied storage = false ∧
  StringToNumber (Platform := Reference.platform)
    (NumberToString (Platform := Reference.platform) (JSNumber.ofZ 1)) = JSNumber.ofZ 1 ∧
  JSNumber.leb FONT_SCALE_MIN (JSNumber.ofZ 1) = true ∧
  JSNumber.leb (JSNumber.ofZ 1) FONT_SCALE_MAX = true ∧
  getStoredFontScale (H := Reference.platform)
    (setStoredFontScale (H := Reference.platform) (JSNumber.ofZ 1) storage) = JSNumber.ofZ 1.
Proof.
  intros storage.
  assert (StringToNumber (Platform := Reference.platform)
            (NumberToString (Platform := Reference.platform) (JSNumber.ofZ 1)) = JSNumber.ofZ 1)
    as Hround by by vm_compute.
  assert (JSNumber.leb FONT_SCALE_MIN (JSNumber.ofZ 1) = true) as Hlow by by vm_compute.
  assert (JSNumber.leb (JSNumber.ofZ 1) FONT_SCALE_MAX = true) as Hhigh by by vm_compute.
  split_and!; [done|done|done|done|].
  by apply (stored_font_scale_is_read_back (H := Reference.platform)).
Defined.

(** ** The theme and the entry headers *)



(** X22: whether the entry headers are shown is read back as it was stored,
    unless the storage is denied; without an item in the storage, or with a
    storage that is denied, the headers are shown. *)
Theorem entry_headers_visible_is_read_back (isVisible : bool)
    (storage : LocalStorage.Storage) :
  (LocalStorage.denied storage = false →
   getStoredEntryHeadersVisible (setStoredEntryHeadersVisible isVisible storage) = isVisible) ∧
  (LocalStorage.denied storage = true →
   getStoredEntryHeadersVisible (setStoredEntryHeadersVisible isVisible storage) = true) ∧
  (LocalStorage.items storage !! ENTRY_HEADERS_STORAGE_KEY = None →
   getStoredEntryHeadersVisible storage = true).
Proof.
  unfold getStoredEntryHeadersVisible, setStoredEntryHeadersVisible,
    LocalStorage.getItem, LocalStorage.setItem.
  split_and!.
  - intros ->. cbn [LocalStorage.denied LocalStorage.items]. rewrite lookup_insert_eq.
    by destruct isVisible.
  - intros Hdenied. by rewrite !Hdenied.
  - intros ->. by destruct (LocalStorage.denied storage).
Qed.

(** ** The state without filters *)

Lemma isDefaultState_spec state :
  isDefaultState state = true ↔
  q state = [] ∧ part state = js "all" ∧ article state = js "all" ∧
  amendment state = js "all" ∧ status state = js "all".
Proof.
  unfold isDefaultState. rewrite !andb_true_iff, !bool_decide_eq_true.
  cbn [DEFAULTS q part article amendment status]. tauto.
Qed.

Lemma join_head sep (parts : list jsstring) c :
  parts ≠ [] → Forall (λ p, ∃ d tail, p = d :: tail ∧ d ≠ c) parts →
  ∀ tail, JSString.join sep parts ≠ c :: tail.
Proof.
  intros Hne Hparts tail. destruct Hparts as [|p parts (d & t & -> & Hd) _]; [done|].
  destruct parts; cbn [JSString.join app]; congruence.
Qed.

(** X23: the summary says that no filter is active exactly for the state that
    [isDefaultState] accepts. *)
Theorem summary_without_filters_iff_default (state : State) :
  buildActiveFilterSummary state = js "No active filters." ↔ isDefaultState state = true.
Proof.
  rewrite isDefaultState_spec. unfold buildActiveFilterSummary.
  set (parts := _ ++ _ ++ _ ++ _ ++ _).
  assert (Forall (λ p, ∃ d tail, p = d :: tail ∧ d ≠ 78) parts) as Hparts.
  { subst parts. repeat case_bool_decide; cbn [app];
      repeat (constructor; [by eexists _, _; split; [by vm_compute|]|]); constructor. }
  assert (parts = [] ↔
          q state = [] ∧ part state = js "all" ∧ article state = js "all" ∧
          amendment state = js "all" ∧ status state = js "all") as Hempty.
  { subst parts. repeat case_bool_decide; cbn [app]; split; try done; try tauto.
    all: by intros (? & ? & ? & ? & ?). }
  clearbody parts. rewrite <-Hempty. case_bool_decide as Hlen.
  - split.
    + intros Heq. exfalso. destruct parts as [|p parts]; [simpl in Hlen; lia|].
      change (js "No active filters.") with (78 :: js "o active filters.") in Heq.
      by eapply (join_head (js " | ") (p :: parts) 78).
    + intros ->. simpl in Hlen. lia.
  - split; [|done]. intros _. destruct parts; [done|]. simpl in Hlen. lia.
Qed.

Lemma set_nonempty params name value : URLSearchParams.set params name value ≠ [].
Proof.
  unfold URLSearchParams.set.
  generalize (fromScalarValues (toScalarValues name)),
    (fromScalarValues (toScalarValues value)). intros n v.
  assert (∀ seen, seen = false ∨ params ≠ [] →
    (fix go (seen : bool) (params : list (jsstring * jsstring)) :=
       match params with
       | [] => if seen then [] else [(n, v)]
       | (n', v') :: params' =>
           if bool_decide (n' = n)
           then if seen then go true params' else (n', v) :: go true params'
           else (n', v') :: go seen params'
       end) seen params ≠ [] ∨ seen = true) as Hgo.
  { induction params as [|[n' v'] params IH]; intros seen Hseen.
    - destruct seen; [by right|by left].
    - case_bool_decide; [destruct seen; [by right|by left]|by left]. }
  destruct (Hgo false) as [?|?]; [by left|done|done].
Qed.

Lemma urlencodedSerialize_nonempty tuples : tuples ≠ [] → urlencodedSerialize tuples ≠ [].
Proof.
  destruct tuples as [|[name value] tuples]; [done|]. intros _.
  unfold urlencodedSerialize. cbn [map].
  destruct (map _ tuples); cbn [JSString.join].
  - intros Heq%(f_equal length). rewrite !length_app in Heq. simpl in Heq. lia.
  - intros Heq%(f_equal length). rewrite !length_app in Heq. simpl in Heq. lia.
Qed.

(** X24: [writeStateToUrl] writes a query exactly when some filter is active:
    the query that it builds is empty exactly for the state that
    [isDefaultState] accepts. *)
Theorem query_empty_iff_default (state : State) :
  stateQuery state = [] ↔ isDefaultState state = true.
Proof.
  rewrite isDefaultState_spec. unfold stateQuery, URLSearchParams.toString.
  split.
  - intros Hquery.
    assert (stateParams state = []) as Hparams.
    { destruct (stateParams state) eqn:Heq; [done|].
      by destruct (urlencodedSerialize_nonempty (p :: l)). }
    revert Hparams. unfold stateParams.
    repeat case_bool_decide; first [by intros ?%set_nonempty|by intros _].
  - intros (Hq & Hpart & Harticle & Hamendment & Hstatus). unfold stateParams.
    by rewrite !bool_decide_false by (by intros ?).
Qed.

Section WithPlatform.
Context `{Platform}.

(** ** [matchesEntry], one filter at a time *)

(** X25: with the other filters as they are, the entries that the status "all"
    shows are those that "active" shows and those that "repealed" shows,
    and no entry is shown by both. *)
Theorem status_filter_partitions (entry : IndexEntry)
    (vq vpart varticle vamendment : jsstring) :
  let state status' := {|
    q := vq; part := vpart; article := varticle; amendment := vamendment;
    status := status';
  |} in
  matchesEntry entry (state (js "all")) =
    matchesEntry entry (state (js "active")) || matchesEntry entry (state (js "repealed")) ∧
  matchesEntry entry (state (js "active")) && matchesEntry entry (state (js "repealed"))
    = false.
Proof.
  intros state. subst state. unfold matchesEntry. cbn [q part article amendment status].
  literal_tests. cbn [andb].
  repeat match goal with
         | |- context [if ?b then false else _] =>
             lazymatch b with
             | entry_isRepealed entry => fail
             | negb (entry_isRepealed entry) => fail
             | _ => destruct b
             end
         end; by destruct (entry_isRepealed entry).
Qed.

(** X26: each filter only narrows: an entry that a state shows is still shown
    when the query is emptied, and when the part, the article, the
    amendment or the status is put back to "all". *)
Theorem filters_only_narrow (entry : IndexEntry) (state : State) :
  matchesEntry entry state = true →
  matchesEntry entry {|
    q := []; part := part state; article := article state;
    amendment := amendment state; status := status state |} = true ∧
  matchesEntry entry {|
    q := q state; part := js "all"; article := article state;
    amendment := amendment state; status := status state |} = true ∧
  matchesEntry entry {|
    q := q state; part := part state; article := js "all";
    amendment := amendment state; status := status state |} = true ∧
  matchesEntry entry {|
    q := q state; part := part state; article := article state;
    amendment := js "all"; status := status state |} = true ∧
  matchesEntry entry {|
    q := q state; part := part state; article := article state;
    amendment := amendment state; status := js "all" |} = true.
Proof.
  unfold matchesEntry. cbn [q part article amendment status].
  literal_tests. cbn [andb].
  repeat match goal with
         | |- context [if ?b then false else _] => destruct b
         end; done.
Qed.

End WithPlatform.

(** X26, witness. *)
Lemma filters_only_narrow_witness :
  let state := {|
    q := js "One Year"; part := js "amendment"; article := js "all"; amendment := js "18";
    status := js "repealed";
  |} in
  matchesEntry (H := Reference.platform) Sample.indexEntry state = true ∧
  matchesEntry (H := Reference.platform) Sample.indexEntry {|
    q := []; part := js "amendment"; article := js "all"; amendment := js "18";
    status := js "repealed" |} = true.
Proof.
  intros state.
  assert (matchesEntry (H := Reference.platform) Sample.indexEntry state = true) as Hmatch
    by by vm_compute.
  split; [done|].
  exact (proj1 (filters_only_narrow (H := Reference.platform) _ state Hmatch)).
Defined.

(** ** The state that the page starts with *)

(** X27: a state that is already as [sanitizeState] leaves states is given back
    unchanged. *)
Theorem sanitizeState_keeps_valid_state (state : State)
    (articleValues amendmentValues : list jsstring) :
  sanitized state articleValues amendmentValues →
  sanitizeState (toRaw state) articleValues amendmentValues = state.
Proof.
  intros (Hpart & Hstatus & Harticle & Hamendment & Hq).
  unfold sanitizeState, toRaw.
  cbn [default from_option id q part article amendment status
       raw_q raw_part raw_article raw_amendment raw_status].
  rewrite !bool_decide_true by done. rewrite Hq. by destruct state.
Qed.

(** X27, witness. *)
Lemma sanitizeState_keeps_valid_state_witness :
  let state := {|
    q := js "war"; part := js "article"; article := js "1"; amendment := js "all";
    status := js "active";
  |} in
  sanitized state Sample.values Sample.values ∧
  sanitizeState (toRaw state) Sample.values Sample.values = state.
Proof.
  intros state.
  assert (sanitized state Sample.values Sample.values) as Hvalid.
  { split_and!; [compute_done..|by vm_compute]. }
  split; [done|]. by apply sanitizeState_keeps_valid_state.
Defined.

Section WithPlatform.
Context `{Platform}.

Lemma valueSets_snoc searchIndex entry :
  valueSets (searchIndex ++ [entry]) =
  let '(articleValues, amendmentValues) := valueSets searchIndex in
  (match entry_article entry with
   | Some n => JSArray.setAdd articleValues (NumberToString n)
   | None => articleValues
   end,
   match entry_amendmentNumber entry with
   | Some n => JSArray.setAdd amendmentValues (NumberToString n)
   | None => amendmentValues
   end).
Proof.
  unfold valueSets. rewrite foldl_snoc. by destruct (foldl _ _ searchIndex).
Qed.

(** X28: the values of the two menus: each set holds "all" and the text of
    each number that an entry of the index has as its article (as its
    amendment), and nothing else; no value is in a set twice. *)
Theorem valueSets_hold_the_numbers (searchIndex : list IndexEntry) :
  let '(articleValues, amendmentValues) := valueSets searchIndex in
  NoDup articleValues ∧ NoDup amendmentValues ∧
  (∀ value, value ∈ articleValues ↔
     value = js "all" ∨
     ∃ entry n, entry ∈ searchIndex ∧ entry_article entry = Some n ∧
                value = NumberToString n) ∧
  (∀ value, value ∈ amendmentValues ↔
     value = js "all" ∨
     ∃ entry n, entry ∈ searchIndex ∧ entry_amendmentNumber entry = Some n ∧
                value = NumberToString n).
Proof.
  induction searchIndex as [|entry searchIndex IH] using rev_ind.
  { cbn. split_and!; try (apply NoDup_singleton).
    - intros value. rewrite list_elem_of_singleton. split; [by left|].
      intros [?|(? & ? & ?%elem_of_nil & _)]; done.
    - intros value. rewrite list_elem_of_singleton. split; [by left|].
      intros [?|(? & ? & ?%elem_of_nil & _)]; done. }
  rewrite valueSets_snoc.
  destruct (valueSets searchIndex) as [articleValues amendmentValues].
  destruct IH as (Hnodup1 & Hnodup2 & Harticles & Hamendments).
  split_and!.
  - destruct (entry_article entry); [by apply NoDup_setAdd|done].
  - destruct (entry_amendmentNumber entry); [by apply NoDup_setAdd|done].
  - intros value. destruct (entry_article entry) as [n|] eqn:Hentry.
    + rewrite elem_of_setAdd, Harticles. split.
      * intros [[?|(e & m & ? & ? & ?)]| ->]; [by left|right..].
        -- exists e, m. rewrite elem_of_app. by split_and!; [left|..].
        -- exists entry, n. rewrite elem_of_app, list_elem_of_singleton.
           by split_and!; [right|..].
      * intros [?|(e & m & [?| ->%list_elem_of_singleton]%elem_of_app & He & ->)].
        -- left. by left.
        -- left. right. by exists e, m.
        -- right. congruence.
    + rewrite Harticles. split.
      * intros [?|(e & m & ? & ? & ?)]; [by left|right].
        exists e, m. rewrite elem_of_app. by split_and!; [left|..].
      * intros [?|(e & m & [?| ->%list_elem_of_singleton]%elem_of_app & He & ->)].
        -- by left.
        -- right. by exists e, m.
        -- congruence.
  - intros value. destruct (entry_amendmentNumber entry) as [n|] eqn:Hentry.
    + rewrite elem_of_setAdd, Hamendments. split.
      * intros [[?|(e & m & ? & ? & ?)]| ->]; [by left|right..].
        -- exists e, m. rewrite elem_of_app. by split_and!; [left|..].
        -- exists entry, n. rewrite elem_of_app, list_elem_of_singleton.
           by split_and!; [right|..].
      * intros [?|(e & m & [?| ->%list_elem_of_singleton]%elem_of_app & He & ->)].
        -- left. by left.
        -- left. right. by exists e, m.
        -- right. congruence.
    + rewrite Hamendments. split.
      * intros [?|(e & m & ? & ? & ?)]; [by left|right].
        exists e, m. rewrite elem_of_app. by split_and!; [left|..].
      * intros [?|(e & m & [?| ->%list_elem_of_singleton]%elem_of_app & He & ->)].
        -- by left.
        -- right. by exists e, m.
        -- congruence.
Qed.

(** X29: whatever the query of the URL holds, the state that the page reads
    from it is valid for the sets that the page built from the index: the
    part and the status are allowed ones, the article and the amendment are
    values of the two sets, the query text is trimmed, and [sanitizeState]
    would change nothing more. *)
Theorem state_read_from_any_url_is_valid (search : jsstring)
    (searchIndex : list IndexEntry) :
  let '(articleValues, amendmentValues) := valueSets searchIndex in
  let state := getStateFromParams search articleValues amendmentValues in
  part state ∈ allowedParts ∧ status state ∈ allowedStatus ∧
  article state ∈ articleValues ∧ amendment state ∈ amendmentValues ∧
  JSString.trim (q state) = q state ∧
  sanitizeState (toRaw state) articleValues amendmentValues = state.
Proof.
  destruct (valueSets_all searchIndex) as [Harticle Hamendment].
  destruct (valueSets searchIndex) as [articleValues amendmentValues].
  cbn [fst snd] in Harticle, Hamendment. cbv beta iota. intros state.
  assert (sanitized state articleValues amendmentValues) as Hvalid.
  { subst state. unfold getStateFromParams, sanitizeState, sanitized.
    cbn [default from_option id q part article amendment status
         raw_q raw_part raw_article raw_amendment raw_status DEFAULTS].
    split_and!; try (case_bool_decide; [done|compute_done || done]).
    apply trim_idemp. }
  pose proof Hvalid as (? & ? & ? & ? & ?). split_and!; [done..|].
  unfold sanitizeState, toRaw.
  cbn [default from_option id q part article amendment status
       raw_q raw_part raw_article raw_amendment raw_status].
  rewrite !bool_decide_true by done.
  replace (JSString.trim (q state)) with (q state) by done. by destruct state.
Qed.

End WithPlatform.

(** ** The headings of the page *)

Lemma spanDigits_all digits :
  Forall (λ c, JSString.isDigit c = true) digits → JSString.spanDigits digits = (digits, []).
Proof.
  induction 1 as [|c digits Hc _ IH]; [done|].
  cbn [JSString.spanDigits]. by rewrite Hc, IH.
Qed.

Lemma execHeading_digits prefix digits :
  digits ≠ [] → Forall (λ c, JSString.isDigit c = true) digits →
  execHeading prefix (prefix ++ digits) = Some digits.
Proof.
  intros Hne Hdigits. unfold execHeading.
  replace (JSString.stripPrefix prefix (prefix ++ digits)) with (Some digits)
    by (symmetry; by apply stripPrefix_Some).
  rewrite spanDigits_all by done. by destruct digits.
Qed.

Section WithPlatform.
Context `{Platform}.

Lemma existsb_article (visible : list IndexEntry) (wanted : jsstring)
    (field : IndexEntry → option number) (number : number) :
  existsb (λ entry, bool_decide (entry_part entry = wanted)
                    && negb (differs (field entry) number)) visible = true ↔
  ∃ entry n, entry ∈ visible ∧ entry_part entry = wanted ∧ field entry = Some n ∧
             JSNumber.strictEq n number = true.
Proof.
  rewrite existsb_exists. split.
  - intros (entry & Hin%list_elem_of_In & [Hpart%bool_decide_eq_true Hnum]%andb_true_iff).
    apply negb_true_iff, differs_false in Hnum as (n & ? & ?). by exists entry, n.
  - intros (entry & n & Hin%list_elem_of_In & Hpart & Hfield & Heq).
    exists entry. split; [done|]. rewrite bool_decide_true by done.
    apply negb_true_iff, differs_false. by exists n.
Qed.

(** X30: the heading of an article, whose id is [part-article-] and the digits
    of a number, is shown exactly when an entry is shown that is of the part
    "article" and has that number as its article; likewise for the heading
    of an amendment. *)
Theorem numbered_heading_shown_iff_entry_shown (digits : jsstring)
    (visibleEntries : list IndexEntry) :
  digits ≠ [] → Forall (λ c, JSString.isDigit c = true) digits →
  (headingHasVisibleEntries (js "part-article-" ++ digits) visibleEntries = true ↔
   ∃ entry n, entry ∈ visibleEntries ∧ entry_part entry = js "article" ∧
              entry_article entry = Some n ∧
              JSNumber.strictEq n (StringToNumber digits) = true) ∧
  (headingHasVisibleEntries (js "part-amendment-" ++ digits) visibleEntries = true ↔
   ∃ entry n, entry ∈ visibleEntries ∧ entry_part entry = js "amendment" ∧
              entry_amendmentNumber entry = Some n ∧
              JSNumber.strictEq n (StringToNumber digits) = true).
Proof.
  intros Hne Hdigits. unfold headingHasVisibleEntries. split.
  - rewrite !bool_decide_false.
    + rewrite execHeading_digits by done. apply existsb_article.
    + destruct digits; [done|]. by vm_compute.
    + destruct digits; [done|]. by vm_compute.
    + destruct digits; [done|]. by vm_compute.
  - rewrite !bool_decide_false.
    + replace (execHeading (js "part-article-") (js "part-amendment-" ++ digits))
        with (@None jsstring) by by vm_compute.
      rewrite execHeading_digits by done. apply existsb_article.
    + destruct digits; [done|]. by vm_compute.
    + destruct digits; [done|]. by vm_compute.
    + destruct digits; [done|]. by vm_compute.
Qed.

End WithPlatform.

(** X30, witness. *)
Lemma numbered_heading_shown_iff_entry_shown_witness :
  js "18" ≠ [] ∧ Forall (λ c, JSString.isDigit c = true) (js "18") ∧
  headingHasVisibleEntries (H := Reference.platform)
    (js "part-amendment-" ++ js "18") [Sample.indexEntry] = true ∧
  ∃ entry n, entry ∈ [Sample.indexEntry] ∧ entry_part entry = js "amendment" ∧
             entry_amendmentNumber entry = Some n ∧
             JSNumber.strictEq n (StringToNumber (Platform := Reference.platform) (js "18")) = true.
Proof.
  assert (js "18" ≠ []) as Hne by done.
  assert (Forall (λ c, JSString.isDigit c = true) (js "18")) as Hdigits
    by (repeat constructor).
  assert (headingHasVisibleEntries (H := Reference.platform)
            (js "part-amendment-" ++ js "18") [Sample.indexEntry] = true) as Hshown
    by by vm_compute.
  split_and!; [done|done|done|].
  exact (proj1 (proj2 (numbered_heading_shown_iff_entry_shown (H := Reference.platform)
                         (js "18") [Sample.indexEntry] Hne Hdigits)) Hshown).
Defined.

End AppExtras.
